(** * MASK-IMAGE-V1: viewport engine, history stack, drawing path and
      mask compositor

    A shallow embedding of [App.tsx], [components/CanvasLayer.tsx],
    [utils/drawUtils.ts] and [types.ts].

    Numbers.  A JavaScript [number] is an IEEE-754 double.  This
    development idealises it as a real number: arithmetic is exact and
    there is no NaN and no infinity.  Every statement below is a statement
    about that idealised arithmetic.  Division is the total division of
    [R]; wherever a theorem depends on a divisor being non-zero the
    hypothesis is written out.

    React state.  A component is a record holding its [useState] cells and
    its [useRef] cells; an event handler is a function from the record of
    the render it closes over to the record of the next render.
    [transformRef] is re-assigned from [transform] by an effect after every
    render, so a handler that reads [transformRef.current] reads the
    [transform] cell of the record it is applied to. *)

From Stdlib Require Import Reals Lra Lia ZArith List Bool String.
Import ListNotations.

Open Scope R_scope.

(** ** JavaScript [Math] helpers *)

Definition Math_sign (v : R) : R :=
  if Rlt_dec 0 v then 1 else if Rlt_dec v 0 then -1 else 0.

Definition Math_hypot (a b : R) : R := sqrt (a * a + b * b).

(** [Math.min(Math.max(v, 0.05), 20)], the clamp written inline in
    [handleWheel] and [handlePointerMove]. *)
Definition clampScale (v : R) : R := Rmin (Rmax v (5 / 100)) 20.

Definition inScaleRange (s : R) : Prop := 5 / 100 <= s <= 20.

(** ** types.ts *)

Inductive MaskType : Type :=
| NONE | HAND | CIRCLE | RECTANGLE | HEART | STAR
| TEXT | SPLIT | FILMSTRIP | BRUSH | PEN.

Definition MaskType_eqb (a b : MaskType) : bool :=
  match a, b with
  | NONE, NONE | HAND, HAND | CIRCLE, CIRCLE | RECTANGLE, RECTANGLE
  | HEART, HEART | STAR, STAR | TEXT, TEXT | SPLIT, SPLIT
  | FILMSTRIP, FILMSTRIP | BRUSH, BRUSH | PEN, PEN => true
  | _, _ => false
  end.

Record Point : Type := mkPoint { px : R; py : R }.

(** [MaskConfig]; the fields [x], [y], [scale] carry the prefix [mc_]
    because [Transform] has fields of the same names.  This record is a
    configuration read as a value: [mc_brushPoints] is what the stroke
    arrays hold at the time of reading.  In the program the stroke arrays
    are objects, shared by every configuration copied from one another by
    a spread, and [CanvasLayer]'s pointer-move writes into one in place;
    [Objects], below, models them as such, and what is proved over this
    record about a sequence of events holds for sequences without that
    write. *)
Record MaskConfig : Type := mkMaskConfig {
  mc_type : MaskType;
  mc_shape : MaskType;
  mc_x : R;
  mc_y : R;
  mc_scale : R;
  mc_rotation : R;
  mc_text : string;
  mc_fontSize : R;
  mc_brushPoints : list (list Point);
  mc_brushSize : R;
  mc_opacity : R
}.

Definition DEFAULT_MASK_CONFIG : MaskConfig :=
  {| mc_type := CIRCLE; mc_shape := CIRCLE;
     mc_x := 5 / 10; mc_y := 5 / 10; mc_scale := 4 / 10; mc_rotation := 0;
     mc_text := "MASK"; mc_fontSize := 100;
     mc_brushPoints := []; mc_brushSize := 20; mc_opacity := 1 |}.

(** ** The browser: images, rectangles, events *)

(** What the code reads of an [HTMLImageElement]: its size and its
    source, kept abstract as an identifier of the decoded picture. *)
Record Image : Type := mkImage { img_width : R; img_height : R; img_src : nat }.

Record Size : Type := mkSize { sz_width : R; sz_height : R }.

Record DOMRect : Type := mkRect {
  rect_left : R; rect_top : R; rect_width : R; rect_height : R }.

Record WheelEvent : Type := mkWheel {
  w_deltaY : R; w_clientX : R; w_clientY : R }.

Record PointerEvent : Type := mkPointerEvent {
  pointerId : Z; clientX : R; clientY : R; isPrimary : bool }.

(** ** The 2D canvas context

    A [CanvasRenderingContext2D] is its drawing state, the stack of
    [save], the current path and the list of what has been painted, oldest
    first.  The bitmap is read off that list by [bitmapOf], through a
    [Backend] that says how one paint colours one pixel. *)

(** The current transformation matrix [a b c d e f]:
    [x' = a x + c y + e], [y' = b x + d y + f]. *)
Record Matrix : Type := mkMatrix {
  m_a : R; m_b : R; m_c : R; m_d : R; m_e : R; m_f : R }.

Definition m_identity : Matrix := mkMatrix 1 0 0 1 0 0.

(** [m_mul m n] applies [n] first. *)
Definition m_mul (m n : Matrix) : Matrix :=
  mkMatrix (m_a m * m_a n + m_c m * m_b n)
           (m_b m * m_a n + m_d m * m_b n)
           (m_a m * m_c n + m_c m * m_d n)
           (m_b m * m_c n + m_d m * m_d n)
           (m_a m * m_e n + m_c m * m_f n + m_e m)
           (m_b m * m_e n + m_d m * m_f n + m_f m).

(** A font as the template [`900 ${fontSize}px Inter, sans-serif`] builds
    it: weight, pixel size, family. *)
Record Font : Type := mkFont {
  font_weight : nat; font_px : R; font_family : string }.

Record DrawState : Type := mkDrawState {
  fillStyle : string;
  strokeStyle : string;
  lineCap : string;
  lineJoin : string;
  lineWidth : R;
  font : Font;
  textAlign : string;
  textBaseline : string;
  globalAlpha : R;
  globalCompositeOperation : string;
  ctm : Matrix
}.

(** The state of a context that has just been created. *)
Definition defaultDrawState : DrawState :=
  {| fillStyle := "#000000"; strokeStyle := "#000000";
     lineCap := "butt"; lineJoin := "miter"; lineWidth := 1;
     font := mkFont 400 10 "sans-serif";
     textAlign := "start"; textBaseline := "alphabetic";
     globalAlpha := 1; globalCompositeOperation := "source-over";
     ctm := m_identity |}.

Definition ds_fillStyle (v : string) (d : DrawState) : DrawState :=
  mkDrawState v (strokeStyle d) (lineCap d) (lineJoin d) (lineWidth d)
    (font d) (textAlign d) (textBaseline d) (globalAlpha d)
    (globalCompositeOperation d) (ctm d).

Definition ds_strokeStyle (v : string) (d : DrawState) : DrawState :=
  mkDrawState (fillStyle d) v (lineCap d) (lineJoin d) (lineWidth d)
    (font d) (textAlign d) (textBaseline d) (globalAlpha d)
    (globalCompositeOperation d) (ctm d).

Definition ds_lineCap (v : string) (d : DrawState) : DrawState :=
  mkDrawState (fillStyle d) (strokeStyle d) v (lineJoin d) (lineWidth d)
    (font d) (textAlign d) (textBaseline d) (globalAlpha d)
    (globalCompositeOperation d) (ctm d).

Definition ds_lineJoin (v : string) (d : DrawState) : DrawState :=
  mkDrawState (fillStyle d) (strokeStyle d) (lineCap d) v (lineWidth d)
    (font d) (textAlign d) (textBaseline d) (globalAlpha d)
    (globalCompositeOperation d) (ctm d).

Definition ds_lineWidth (v : R) (d : DrawState) : DrawState :=
  mkDrawState (fillStyle d) (strokeStyle d) (lineCap d) (lineJoin d) v
    (font d) (textAlign d) (textBaseline d) (globalAlpha d)
    (globalCompositeOperation d) (ctm d).

Definition ds_font (v : Font) (d : DrawState) : DrawState :=
  mkDrawState (fillStyle d) (strokeStyle d) (lineCap d) (lineJoin d)
    (lineWidth d) v (textAlign d) (textBaseline d) (globalAlpha d)
    (globalCompositeOperation d) (ctm d).

Definition ds_textAlign (v : string) (d : DrawState) : DrawState :=
  mkDrawState (fillStyle d) (strokeStyle d) (lineCap d) (lineJoin d)
    (lineWidth d) (font d) v (textBaseline d) (globalAlpha d)
    (globalCompositeOperation d) (ctm d).

Definition ds_textBaseline (v : string) (d : DrawState) : DrawState :=
  mkDrawState (fillStyle d) (strokeStyle d) (lineCap d) (lineJoin d)
    (lineWidth d) (font d) (textAlign d) v (globalAlpha d)
    (globalCompositeOperation d) (ctm d).

Definition ds_globalAlpha (v : R) (d : DrawState) : DrawState :=
  mkDrawState (fillStyle d) (strokeStyle d) (lineCap d) (lineJoin d)
    (lineWidth d) (font d) (textAlign d) (textBaseline d) v
    (globalCompositeOperation d) (ctm d).

Definition ds_globalCompositeOperation (v : string) (d : DrawState)
  : DrawState :=
  mkDrawState (fillStyle d) (strokeStyle d) (lineCap d) (lineJoin d)
    (lineWidth d) (font d) (textAlign d) (textBaseline d) (globalAlpha d)
    v (ctm d).

Definition ds_ctm (v : Matrix) (d : DrawState) : DrawState :=
  mkDrawState (fillStyle d) (strokeStyle d) (lineCap d) (lineJoin d)
    (lineWidth d) (font d) (textAlign d) (textBaseline d) (globalAlpha d)
    (globalCompositeOperation d) v.

(** A segment of the current path. *)
Inductive PathSeg : Type :=
| SegMoveTo (x y : R)
| SegLineTo (x y : R)
| SegBezierCurveTo (cp1x cp1y cp2x cp2y x y : R)
| SegArc (x y radius startAngle endAngle : R)
| SegRect (x y w h : R)
| SegClosePath.

(** A path keeps, with every segment, the matrix in force when the segment
    was added. *)
Definition Path : Type := list (Matrix * PathSeg).

Section Canvas.

Context {Pixel : Type}.

Definition Bitmap : Type := Z -> Z -> Pixel.

(** What [drawImage] can copy from: a decoded image, or another canvas,
    given by its size and its bitmap at the time of the call. *)
Inductive Source : Type :=
| SrcImage (i : Image)
| SrcCanvas (w h : R) (bm : Bitmap).

(** A paint, with the part of the drawing state that its shape depends
    on. *)
Inductive Paint : Type :=
| PaintFill (style : string) (p : Path)
| PaintStroke (style : string) (width : R) (cap join : string) (p : Path)
| PaintFillRect (style : string) (x y w h : R)
| PaintFillText (style : string) (f : Font) (align baseline : string)
                (text : string) (x y : R)
| PaintImage (src : Source) (dx dy dw dh : R)   (* [drawImage(src, dx, dy, dw, dh)] *)
| PaintImageAt (src : Source) (dx dy : R).      (* [drawImage(src, dx, dy)] *)

(** One entry of the list of what was painted.  A paint is made under
    the [globalAlpha], the [globalCompositeOperation] and the matrix of
    the moment. *)
Inductive Op : Type :=
| OpClearRect (m : Matrix) (x y w h : R)
| OpPaint (alpha : R) (gco : string) (m : Matrix) (p : Paint).

Record Ctx : Type := mkCtx {
  ds : DrawState;
  saved : list DrawState;
  path : Path;
  ops : list Op
}.

(** [document.createElement('canvas').getContext('2d')]. *)
Definition newCtx : Ctx := mkCtx defaultDrawState [] [] [].

Definition withDs (f : DrawState -> DrawState) (c : Ctx) : Ctx :=
  mkCtx (f (ds c)) (saved c) (path c) (ops c).

Definition addSeg (s : PathSeg) (c : Ctx) : Ctx :=
  mkCtx (ds c) (saved c) (path c ++ [(ctm (ds c), s)]) (ops c).

Definition addOp (o : Op) (c : Ctx) : Ctx :=
  mkCtx (ds c) (saved c) (path c) (ops c ++ [o]).

Definition set_fillStyle (v : string) : Ctx -> Ctx := withDs (ds_fillStyle v).
Definition set_strokeStyle (v : string) : Ctx -> Ctx :=
  withDs (ds_strokeStyle v).
Definition set_lineCap (v : string) : Ctx -> Ctx := withDs (ds_lineCap v).
Definition set_lineJoin (v : string) : Ctx -> Ctx := withDs (ds_lineJoin v).

(** The setters of [lineWidth] and [globalAlpha] validate: assigning
    [lineWidth] a value that is not positive, or [globalAlpha] a value
    outside [[0, 1]], is ignored and leaves the property as it was (HTML
    Standard, the 2D context's line styles and compositing). *)
Definition set_lineWidth (v : R) (c : Ctx) : Ctx :=
  if Rlt_dec 0 v then withDs (ds_lineWidth v) c else c.
Definition set_font (v : Font) : Ctx -> Ctx := withDs (ds_font v).
Definition set_textAlign (v : string) : Ctx -> Ctx := withDs (ds_textAlign v).
Definition set_textBaseline (v : string) : Ctx -> Ctx :=
  withDs (ds_textBaseline v).
Definition set_globalAlpha (v : R) (c : Ctx) : Ctx :=
  if Rle_dec 0 v then
    if Rle_dec v 1 then withDs (ds_globalAlpha v) c else c
  else c.
Definition set_globalCompositeOperation (v : string) : Ctx -> Ctx :=
  withDs (ds_globalCompositeOperation v).

Definition save (c : Ctx) : Ctx :=
  mkCtx (ds c) (ds c :: saved c) (path c) (ops c).

Definition restore (c : Ctx) : Ctx :=
  match saved c with
  | [] => c
  | d :: rest => mkCtx d rest (path c) (ops c)
  end.

Definition translate (x y : R) : Ctx -> Ctx :=
  withDs (fun d => ds_ctm (m_mul (ctm d) (mkMatrix 1 0 0 1 x y)) d).

Definition rotate (angle : R) : Ctx -> Ctx :=
  withDs (fun d =>
    ds_ctm (m_mul (ctm d)
              (mkMatrix (cos angle) (sin angle) (- sin angle) (cos angle) 0 0))
           d).

Definition scale (x y : R) : Ctx -> Ctx :=
  withDs (fun d => ds_ctm (m_mul (ctm d) (mkMatrix x 0 0 y 0 0)) d).

Definition beginPath (c : Ctx) : Ctx :=
  mkCtx (ds c) (saved c) [] (ops c).

Definition moveTo (x y : R) : Ctx -> Ctx := addSeg (SegMoveTo x y).
Definition lineTo (x y : R) : Ctx -> Ctx := addSeg (SegLineTo x y).
Definition bezierCurveTo (cp1x cp1y cp2x cp2y x y : R) : Ctx -> Ctx :=
  addSeg (SegBezierCurveTo cp1x cp1y cp2x cp2y x y).
Definition arc (x y radius startAngle endAngle : R) : Ctx -> Ctx :=
  addSeg (SegArc x y radius startAngle endAngle).
Definition rect (x y w h : R) : Ctx -> Ctx := addSeg (SegRect x y w h).
Definition closePath : Ctx -> Ctx := addSeg SegClosePath.

Definition paint (p : Paint) (c : Ctx) : Ctx :=
  addOp (OpPaint (globalAlpha (ds c)) (globalCompositeOperation (ds c))
                 (ctm (ds c)) p) c.

Definition fill (c : Ctx) : Ctx :=
  paint (PaintFill (fillStyle (ds c)) (path c)) c.
Definition stroke (c : Ctx) : Ctx :=
  paint (PaintStroke (strokeStyle (ds c)) (lineWidth (ds c))
                     (lineCap (ds c)) (lineJoin (ds c)) (path c)) c.
Definition fillRect (x y w h : R) (c : Ctx) : Ctx :=
  paint (PaintFillRect (fillStyle (ds c)) x y w h) c.
Definition fillText (text : string) (x y : R) (c : Ctx) : Ctx :=
  paint (PaintFillText (fillStyle (ds c)) (font (ds c)) (textAlign (ds c))
                       (textBaseline (ds c)) text x y) c.
Definition clearRect (x y w h : R) (c : Ctx) : Ctx :=
  addOp (OpClearRect (ctm (ds c)) x y w h) c.
Definition drawImage (src : Source) (dx dy dw dh : R) : Ctx -> Ctx :=
  paint (PaintImage src dx dy dw dh).
Definition drawImageAt (src : Source) (dx dy : R) : Ctx -> Ctx :=
  paint (PaintImageAt src dx dy).

End Canvas.

Arguments Source : clear implicits.
Arguments Paint : clear implicits.
Arguments Op : clear implicits.
Arguments Ctx : clear implicits.
Arguments Bitmap : clear implicits.

(** How paints become pixels.  [shade m p i j] is what paint [p], made
    under matrix [m], lays on pixel [(i, j)], coverage included;
    [composite alpha gco src dst] combines it with what is there.
    [clearRect] makes every pixel that lies inside its rectangle
    transparent; [clearEdge] is what it does to a pixel it covers in part
    or not at all. *)
Class Backend (Pixel : Type) : Type := {
  transparent : Pixel;
  shade : Matrix -> Paint Pixel -> Z -> Z -> Pixel;
  composite : R -> string -> Pixel -> Pixel -> Pixel;
  clearEdge : Matrix -> R -> R -> R -> R -> Z -> Z -> Pixel -> Pixel
}.

Definition Rleb (a b : R) : bool := if Rle_dec a b then true else false.

Definition Reqb (a b : R) : bool := if Req_EM_T a b then true else false.

Definition m_is_identity (m : Matrix) : bool :=
  Reqb (m_a m) 1 && Reqb (m_b m) 0 && Reqb (m_c m) 0
  && Reqb (m_d m) 1 && Reqb (m_e m) 0 && Reqb (m_f m) 0.

(** Pixel [(i, j)] is the square [[i, i+1] x [j, j+1]]. *)
Definition pixelInside (x y w h : R) (i j : Z) : bool :=
  Rleb x (IZR i) && Rleb (IZR i + 1) (x + w)
  && Rleb y (IZR j) && Rleb (IZR j + 1) (y + h).

Definition applyOp {Pixel : Type} {B : Backend Pixel} (o : Op Pixel)
  (bm : Bitmap Pixel) : Bitmap Pixel :=
  fun i j =>
    match o with
    | OpClearRect m x y w h =>
        if m_is_identity m && pixelInside x y w h i j
        then transparent
        else clearEdge m x y w h i j (bm i j)
    | OpPaint alpha gco m p => composite alpha gco (shade m p i j) (bm i j)
    end.

(** The bitmap of a canvas that has seen [os] since it was created. *)
Definition bitmapOf {Pixel : Type} {B : Backend Pixel} (os : list (Op Pixel))
  : Bitmap Pixel :=
  fold_left (fun bm o => applyOp o bm) os (fun _ _ => transparent).
(** ** utils/drawUtils.ts *)

Section DrawUtils.

Context {Pixel : Type}.

(** One turn of the loop of [drawStar]: the outer vertex, then the inner
    one; [rot] is threaded through. *)
Fixpoint drawStar_loop (n : nat) (cx cy outerRadius innerRadius step : R)
  (acc : Ctx Pixel * R) : Ctx Pixel * R :=
  match n with
  | O => acc
  | S n' =>
      let '(ctx, rot) := acc in
      let x := cx + cos rot * outerRadius in
      let y := cy + sin rot * outerRadius in
      let ctx := lineTo x y ctx in
      let rot := rot + step in
      let x := cx + cos rot * innerRadius in
      let y := cy + sin rot * innerRadius in
      let ctx := lineTo x y ctx in
      let rot := rot + step in
      drawStar_loop n' cx cy outerRadius innerRadius step (ctx, rot)
  end.

Definition drawStar (ctx : Ctx Pixel) (cx cy : R) (spikes : nat)
  (outerRadius innerRadius : R) : Ctx Pixel :=
  let rot := (PI / 2) * 3 in
  let step := PI / INR spikes in
  let ctx := beginPath ctx in
  let ctx := moveTo cx (cy - outerRadius) ctx in
  let '(ctx, _) :=
    drawStar_loop spikes cx cy outerRadius innerRadius step (ctx, rot) in
  let ctx := lineTo cx (cy - outerRadius) ctx in
  let ctx := closePath ctx in
  fill ctx.

Definition drawHeart (ctx : Ctx Pixel) (x y width height : R) : Ctx Pixel :=
  let topCurveHeight := height * (3 / 10) in
  let ctx := beginPath ctx in
  let ctx := moveTo x (y + topCurveHeight) ctx in
  let ctx :=
    bezierCurveTo x y (x - width / 2) y (x - width / 2) (y + topCurveHeight)
                  ctx in
  let ctx :=
    bezierCurveTo (x - width / 2) (y + (height + topCurveHeight) / 2)
                  x (y + (height + topCurveHeight) / 2)
                  x (y + height) ctx in
  let ctx :=
    bezierCurveTo x (y + (height + topCurveHeight) / 2)
                  (x + width / 2) (y + (height + topCurveHeight) / 2)
                  (x + width / 2) (y + topCurveHeight) ctx in
  let ctx :=
    bezierCurveTo (x + width / 2) y x y x (y + topCurveHeight) ctx in
  let ctx := closePath ctx in
  fill ctx.

Definition drawFilmstrip (ctx : Ctx Pixel) (width height : R) : Ctx Pixel :=
  let frameWidth := width * (8 / 10) in
  let frameHeight := height * (25 / 100) in
  let gap := height * (5 / 100) in
  let startY := (height - (frameHeight * 3 + gap * 2)) / 2 in
  let ctx := beginPath ctx in
  let ctx := rect ((width - frameWidth) / 2) startY frameWidth frameHeight ctx in
  let ctx :=
    rect ((width - frameWidth) / 2) (startY + frameHeight + gap)
         frameWidth frameHeight ctx in
  let ctx :=
    rect ((width - frameWidth) / 2) (startY + (frameHeight + gap) * 2)
         frameWidth frameHeight ctx in
  let holeSize := 10 in
  let holesPerSide := 8%nat in
  let holeGap := height / INR holesPerSide in
  let ctx :=
    fold_left
      (fun ctx i =>
         let ctx := rect 10 (INR i * holeGap + 10) holeSize holeSize ctx in
         rect (width - 10 - holeSize) (INR i * holeGap + 10)
              holeSize holeSize ctx)
      (seq 0 holesPerSide) ctx in
  fill ctx.

(** The callback of [brushPoints.forEach] in the [BRUSH]/[PEN] case. *)
Definition drawStroke (ctx : Ctx Pixel) (strokePoints : list Point) : Ctx Pixel :=
  match strokePoints with
  | [] => ctx                      (* [if (stroke.length < 1) return] *)
  | p0 :: rest =>
      let ctx := beginPath ctx in
      let ctx := moveTo (px p0) (py p0) ctx in
      let ctx := fold_left (fun ctx p => lineTo (px p) (py p) ctx) rest ctx in
      stroke ctx
  end.

Definition drawMaskShape (ctx : Ctx Pixel) (type : MaskType) (width height : R)
  (text : string) (fontSize : R) (brushPoints : list (list Point))
  (brushSize : R) : Ctx Pixel :=
  let ctx := set_fillStyle "#FFFFFF" ctx in
  let ctx := set_strokeStyle "#FFFFFF" ctx in
  let ctx := set_lineCap "round" ctx in
  let ctx := set_lineJoin "round" ctx in
  let cx := width / 2 in
  let cy := height / 2 in
  let minDim := Rmin width height in
  match type with
  | NONE | HAND => ctx
  | CIRCLE =>
      let ctx := beginPath ctx in
      let ctx := arc cx cy (minDim / 2) 0 (PI * 2) ctx in
      fill ctx
  | RECTANGLE => fillRect 0 0 width height ctx
  | SPLIT =>
      let ctx := beginPath ctx in
      let ctx := moveTo 0 0 ctx in
      let ctx := lineTo width 0 ctx in
      let ctx := lineTo 0 height ctx in
      let ctx := closePath ctx in
      fill ctx
  | STAR => drawStar ctx cx cy 5 (minDim / 2) (minDim / 4)
  | HEART => drawHeart ctx cx (cy - minDim / 2) minDim minDim
  | TEXT =>
      let ctx := set_font (mkFont 900 fontSize "Inter, sans-serif") ctx in
      let ctx := set_textAlign "center" ctx in
      let ctx := set_textBaseline "middle" ctx in
      fillText text cx cy ctx
  | FILMSTRIP => drawFilmstrip ctx width height
  | BRUSH | PEN =>
      let size := if MaskType_eqb type PEN then 4 else brushSize in
      let ctx := set_lineWidth size ctx in
      fold_left drawStroke brushPoints ctx
  end.

End DrawUtils.
(** ** components/CanvasLayer.tsx: the drawing path *)

Module CanvasLayer.

(** The props the handlers read, and the canvas element behind
    [canvasRef]: its bitmap size and its bounding rectangle. *)
Record CanvasElement : Type := mkCanvasElement {
  canvas_width : R; canvas_height : R; canvas_rect : DOMRect }.

Record Props : Type := mkProps {
  width : R;
  height : R;
  imgForeground : option Image;
  imgBackground : option Image;
  p_maskConfig : MaskConfig
}.

Record State : Type := mkState { isDragging : bool; lastPos : Point }.

(** What a handler does to the outside, in the order it does it: the two
    callback props and the calls on the event and its target. *)
Inductive Effect : Type :=
| SetPointerCapture (id : Z)
| ReleasePointerCapture (id : Z)
| PreventDefault
| OnHistorySave
| OnUpdateMaskConfig (c : MaskConfig).

Definition getPos (canvas : option CanvasElement) (e : PointerEvent)
  : Point :=
  match canvas with
  | None => mkPoint 0 0
  | Some cv =>
      let rect := canvas_rect cv in
      let scaleX := canvas_width cv / rect_width rect in
      let scaleY := canvas_height cv / rect_height rect in
      mkPoint ((clientX e - rect_left rect) * scaleX)
              ((clientY e - rect_top rect) * scaleY)
  end.

Definition withBrushPoints (c : MaskConfig) (strokes : list (list Point))
  : MaskConfig :=
  {| mc_type := mc_type c; mc_shape := mc_shape c;
     mc_x := mc_x c; mc_y := mc_y c; mc_scale := mc_scale c;
     mc_rotation := mc_rotation c; mc_text := mc_text c;
     mc_fontSize := mc_fontSize c; mc_brushPoints := strokes;
     mc_brushSize := mc_brushSize c; mc_opacity := mc_opacity c |}.

Definition handlePointerDown (canvas : option CanvasElement) (props : Props)
  (e : PointerEvent) (st : State) : State * list Effect :=
  if MaskType_eqb (mc_type (p_maskConfig props)) HAND then (st, []) else
  if negb (isPrimary e) then (st, []) else
  let pos := getPos canvas e in
  let st' := mkState true pos in
  if MaskType_eqb (mc_type (p_maskConfig props)) BRUSH
     || MaskType_eqb (mc_type (p_maskConfig props)) PEN
  then
    let newStrokes := mc_brushPoints (p_maskConfig props) ++ [[pos]] in
    (st', [SetPointerCapture (pointerId e); OnHistorySave;
           OnUpdateMaskConfig (withBrushPoints (p_maskConfig props) newStrokes)])
  else
    (st', [SetPointerCapture (pointerId e); OnHistorySave]).

Definition handlePointerUp (e : PointerEvent) (st : State)
  : State * list Effect :=
  if isDragging st
  then (mkState false (lastPos st), [ReleasePointerCapture (pointerId e)])
  else (st, []).

(** *** The rendering effect *)

(** Whether [getContext('2d')] gives a context for the two canvases the
    effect creates. *)
Record Dom : Type := mkDom { maskCtx_ok : bool; layerCtx_ok : bool }.

(** How many times the body of [for (let v = 0; v < limit; v += step)]
    runs: the number of [k >= 0] with [k * step < limit]. *)
Definition loopCount (limit step : R) : nat :=
  Z.to_nat (- Int_part (- (limit / step))).

(** The checkerboard.  The loops are indexed by their turn: at turn [k]
    the loop variable is [k * cellSize], so [r/cellSize + c/cellSize] is
    the sum of the two turns. *)
Definition drawCheckerboard {Pixel : Type} (width height : R)
  (ctx : Ctx Pixel) : Ctx Pixel :=
  let cellSize := 20 in
  let ctx := set_fillStyle "#1e293b" ctx in
  let ctx := fillRect 0 0 width height ctx in
  let ctx := set_fillStyle "#334155" ctx in
  fold_left
    (fun ctx kr =>
       fold_left
         (fun ctx kc =>
            if Nat.even (kr + kc)
            then fillRect (INR kc * cellSize) (INR kr * cellSize)
                          cellSize cellSize ctx
            else ctx)
         (seq 0 (loopCount width cellSize)) ctx)
    (seq 0 (loopCount height cellSize)) ctx.

(** The mask canvas: the shape under its transform, then the strokes.
    [maskConfig.shape || MaskType.CIRCLE] is [maskConfig.shape], every
    [MaskType] being a non-empty string. *)
Definition drawMask {Pixel : Type} (width height : R)
  (maskConfig : MaskConfig) (maskCtx : Ctx Pixel) : Ctx Pixel :=
  let maskCtx := save maskCtx in
  let cx := mc_x maskConfig * width in
  let cy := mc_y maskConfig * height in
  let maskCtx := translate cx cy maskCtx in
  let maskCtx := rotate ((mc_rotation maskConfig * PI) / 180) maskCtx in
  let maskCtx := scale (mc_scale maskConfig) (mc_scale maskConfig) maskCtx in
  let maskCtx := translate (- width / 2) (- height / 2) maskCtx in
  let maskCtx :=
    drawMaskShape maskCtx (mc_shape maskConfig) width height
                  (mc_text maskConfig) (mc_fontSize maskConfig) [] 0 in
  let maskCtx := restore maskCtx in
  if Nat.ltb 0 (List.length (mc_brushPoints maskConfig)) then
    let brushStyle :=
      if MaskType_eqb (mc_type maskConfig) PEN then PEN else BRUSH in
    drawMaskShape maskCtx brushStyle width height "" 0
                  (mc_brushPoints maskConfig) (mc_brushSize maskConfig)
  else maskCtx.

(** The body of the effect, run on the context of the visible canvas.
    [maskConfig.opacity ?? 1] is [maskConfig.opacity], a number. *)
Definition render {Pixel : Type} {B : Backend Pixel} (dom : Dom)
  (props : Props) (ctx : Ctx Pixel) : Ctx Pixel :=
  let width := width props in
  let height := height props in
  let maskConfig := p_maskConfig props in
  let ctx := clearRect 0 0 width height ctx in
  let ctx :=
    match imgBackground props with
    | Some bg =>
        let s := Rmax (width / img_width bg) (height / img_height bg) in
        let x := (width / 2) - (img_width bg / 2) * s in
        let y := (height / 2) - (img_height bg / 2) * s in
        drawImage (SrcImage bg) x y (img_width bg * s) (img_height bg * s) ctx
    | None => drawCheckerboard width height ctx
    end in
  match imgForeground props with
  | None => ctx
  | Some fg =>
      if negb (maskCtx_ok dom) then ctx else
      let maskCtx := drawMask width height maskConfig newCtx in
      if negb (layerCtx_ok dom) then ctx else
      let layerCtx := newCtx in
      let fgScale := Rmax (width / img_width fg) (height / img_height fg) in
      let fgX := (width / 2) - (img_width fg / 2) * fgScale in
      let fgY := (height / 2) - (img_height fg / 2) * fgScale in
      let layerCtx :=
        drawImage (SrcImage fg) fgX fgY
                  (img_width fg * fgScale) (img_height fg * fgScale)
                  layerCtx in
      let layerCtx := set_globalCompositeOperation "destination-in" layerCtx in
      let layerCtx :=
        drawImageAt (SrcCanvas width height (bitmapOf (ops maskCtx))) 0 0
                    layerCtx in
      let ctx := save ctx in
      let ctx := set_globalAlpha (mc_opacity maskConfig) ctx in
      let ctx :=
        drawImageAt (SrcCanvas width height (bitmapOf (ops layerCtx))) 0 0
                    ctx in
      restore ctx
  end.

(** The visible canvas after the renders [hist], oldest first, starting
    from a canvas that has just been created. *)
Definition renderAll {Pixel : Type} {B : Backend Pixel}
  (hist : list (Dom * Props)) : Ctx Pixel :=
  fold_left (fun ctx dp => render (fst dp) (snd dp) ctx) hist newCtx.

(** Pixel [(i, j)] belongs to a canvas of the given size. *)
Definition inCanvas (width height : R) (i j : Z) : Prop :=
  0 <= IZR i /\ IZR i + 1 <= width /\ 0 <= IZR j /\ IZR j + 1 <= height.

End CanvasLayer.

(** ** App.tsx: state *)

Record Transform : Type := mkTransform { t_x : R; t_y : R; t_scale : R }.

(** [gestureStartRef.current] when it is not [null]. *)
Record Gesture : Type := mkGesture {
  g_transform : Transform;
  g_center : Point;
  g_distance : R
}.

(** [pointersRef.current], a [Map<number, {x, y}>].  A JavaScript [Map]
    iterates in insertion order, so it is kept as an association list. *)
Definition PointerMap : Type := list (Z * Point).

Fixpoint pm_has (id : Z) (m : PointerMap) : bool :=
  match m with
  | [] => false
  | (k, _) :: m' => if Z.eqb k id then true else pm_has id m'
  end.

(** [Map.prototype.set]: an existing key keeps its place, a new key goes
    last. *)
Fixpoint pm_set (id : Z) (p : Point) (m : PointerMap) : PointerMap :=
  match m with
  | [] => [(id, p)]
  | (k, v) :: m' =>
      if Z.eqb k id then (k, p) :: m' else (k, v) :: pm_set id p m'
  end.

Fixpoint pm_delete (id : Z) (m : PointerMap) : PointerMap :=
  match m with
  | [] => []
  | (k, v) :: m' =>
      if Z.eqb k id then m' else (k, v) :: pm_delete id m'
  end.

Definition pm_values (m : PointerMap) : list Point := map snd m.

Definition pm_size (m : PointerMap) : nat := List.length m.

Inductive Layer : Type := Layer1 | Layer2.

Record AppState : Type := mkApp {
  maskConfig : MaskConfig;
  img1 : option Image;
  img2 : option Image;
  canvasSize : Size;
  isGenerating : bool;
  upscalingLayer : option Layer;
  showGenModal : bool;
  transform : Transform;
  pointersRef : PointerMap;
  gestureStartRef : option Gesture;
  lastTapRef : Z;
  past : list MaskConfig;
  future : list MaskConfig
}.

(** The [useState] setters and the assignments to [ref.current]. *)
Definition setMaskConfig (c : MaskConfig) (s : AppState) : AppState :=
  mkApp c (img1 s) (img2 s) (canvasSize s) (isGenerating s)
        (upscalingLayer s) (showGenModal s) (transform s) (pointersRef s)
        (gestureStartRef s) (lastTapRef s) (past s) (future s).

Definition setImg1 (i : option Image) (s : AppState) : AppState :=
  mkApp (maskConfig s) i (img2 s) (canvasSize s) (isGenerating s)
        (upscalingLayer s) (showGenModal s) (transform s) (pointersRef s)
        (gestureStartRef s) (lastTapRef s) (past s) (future s).

Definition setImg2 (i : option Image) (s : AppState) : AppState :=
  mkApp (maskConfig s) (img1 s) i (canvasSize s) (isGenerating s)
        (upscalingLayer s) (showGenModal s) (transform s) (pointersRef s)
        (gestureStartRef s) (lastTapRef s) (past s) (future s).

Definition setCanvasSize (z : Size) (s : AppState) : AppState :=
  mkApp (maskConfig s) (img1 s) (img2 s) z (isGenerating s)
        (upscalingLayer s) (showGenModal s) (transform s) (pointersRef s)
        (gestureStartRef s) (lastTapRef s) (past s) (future s).

Definition setUpscalingLayer (l : option Layer) (s : AppState) : AppState :=
  mkApp (maskConfig s) (img1 s) (img2 s) (canvasSize s) (isGenerating s)
        l (showGenModal s) (transform s) (pointersRef s)
        (gestureStartRef s) (lastTapRef s) (past s) (future s).

Definition setTransform (t : Transform) (s : AppState) : AppState :=
  mkApp (maskConfig s) (img1 s) (img2 s) (canvasSize s) (isGenerating s)
        (upscalingLayer s) (showGenModal s) t (pointersRef s)
        (gestureStartRef s) (lastTapRef s) (past s) (future s).

Definition setPointers (m : PointerMap) (s : AppState) : AppState :=
  mkApp (maskConfig s) (img1 s) (img2 s) (canvasSize s) (isGenerating s)
        (upscalingLayer s) (showGenModal s) (transform s) m
        (gestureStartRef s) (lastTapRef s) (past s) (future s).

Definition setGestureStart (g : option Gesture) (s : AppState) : AppState :=
  mkApp (maskConfig s) (img1 s) (img2 s) (canvasSize s) (isGenerating s)
        (upscalingLayer s) (showGenModal s) (transform s) (pointersRef s)
        g (lastTapRef s) (past s) (future s).

Definition setLastTap (t : Z) (s : AppState) : AppState :=
  mkApp (maskConfig s) (img1 s) (img2 s) (canvasSize s) (isGenerating s)
        (upscalingLayer s) (showGenModal s) (transform s) (pointersRef s)
        (gestureStartRef s) t (past s) (future s).

Definition setPast (p : list MaskConfig) (s : AppState) : AppState :=
  mkApp (maskConfig s) (img1 s) (img2 s) (canvasSize s) (isGenerating s)
        (upscalingLayer s) (showGenModal s) (transform s) (pointersRef s)
        (gestureStartRef s) (lastTapRef s) p (future s).

Definition setFuture (f : list MaskConfig) (s : AppState) : AppState :=
  mkApp (maskConfig s) (img1 s) (img2 s) (canvasSize s) (isGenerating s)
        (upscalingLayer s) (showGenModal s) (transform s) (pointersRef s)
        (gestureStartRef s) (lastTapRef s) (past s) f.

(** What a handler reads from the browser: the window size, the bounding
    rectangle of the viewport element ([None] while [viewportRef.current]
    is unset) and the clock. *)
Record Env : Type := mkEnv {
  innerWidth : R;
  innerHeight : R;
  viewportRect : option DOMRect;
  now : Z
}.

(** ** App.tsx: viewport logic *)

Record Centroid : Type := mkCentroid { center : Point; distance : R }.

Definition getCentroid (points : list Point) : Centroid :=
  let x := fold_left (fun acc p => acc + px p) points 0 in
  let y := fold_left (fun acc p => acc + py p) points 0 in
  let n := INR (List.length points) in
  let c := mkPoint (x / n) (y / n) in
  let distance :=
    if Nat.ltb 1 (List.length points)
    then fold_left
           (fun d p => d + Math_hypot (px p - px c) (py p - py c)) points 0
         / n
    else 0 in
  mkCentroid c distance.

Definition updateGestureStart (s : AppState) : AppState :=
  if Nat.eqb (pm_size (pointersRef s)) 0
  then setGestureStart None s
  else
    let points := pm_values (pointersRef s) in
    let c := getCentroid points in
    setGestureStart
      (Some (mkGesture (transform s) (center c) (distance c))) s.

Definition centerImage (env : Env) (width height : R) (s : AppState)
  : AppState :=
  let paddingX := 48 in
  let paddingY := 140 in
  let availableWidth := innerWidth env - paddingX in
  let availableHeight := innerHeight env - paddingY in
  let scaleX := availableWidth / width in
  let scaleY := availableHeight / height in
  let fitScale := Rmin (Rmin scaleX scaleY) 1 in
  let x := (innerWidth env - width * fitScale) / 2 in
  let y := (innerHeight env - height * fitScale) / 2 in
  setTransform (mkTransform x y fitScale) s.

Definition ZOOM_SPEED : R := 15 / 100.

Definition handleWheel (env : Env) (e : WheelEvent) (s : AppState)
  : AppState :=
  if isGenerating s || showGenModal s then s else
  match viewportRect env with
  | None => s
  | Some rect =>
      let delta := - Math_sign (w_deltaY e) in
      let multiplier := exp (delta * ZOOM_SPEED) in
      let currentScale := t_scale (transform s) in
      let newScale := clampScale (currentScale * multiplier) in
      let mouseX := w_clientX e - rect_left rect in
      let mouseY := w_clientY e - rect_top rect in
      let worldX := (mouseX - t_x (transform s)) / currentScale in
      let worldY := (mouseY - t_y (transform s)) / currentScale in
      let newX := mouseX - worldX * newScale in
      let newY := mouseY - worldY * newScale in
      setTransform (mkTransform newX newY newScale) s
  end.

Definition handleFitToScreen (env : Env) (s : AppState) : AppState :=
  centerImage env (sz_width (canvasSize s)) (sz_height (canvasSize s)) s.

(** The viewport's [onPointerDown].  [setPointerCapture] acts on the DOM
    only and no handler reads it back. *)
Definition handlePointerDown (env : Env) (e : PointerEvent) (s : AppState)
  : AppState :=
  let s1 :=
    setPointers (pm_set (pointerId e) (mkPoint (clientX e) (clientY e))
                        (pointersRef s)) s in
  let s2 := updateGestureStart s1 in
  if Nat.eqb (pm_size (pointersRef s2)) 1 then
    let s3 :=
      if Z.ltb (now env - lastTapRef s2) 300 then
        if Rlt_dec (t_scale (transform s2)) 1 then
          match viewportRect env with
          | Some rect =>
              let x := clientX e - rect_left rect in
              let y := clientY e - rect_top rect in
              let wx := (x - t_x (transform s2)) / t_scale (transform s2) in
              let wy := (y - t_y (transform s2)) / t_scale (transform s2) in
              setTransform (mkTransform (x - wx) (y - wy) 1) s2
          | None => s2
          end
        else handleFitToScreen env s2
      else s2 in
    setLastTap (now env) s3
  else s2.

Definition handlePointerMove (env : Env) (e : PointerEvent) (s : AppState)
  : AppState :=
  if negb (pm_has (pointerId e) (pointersRef s)) then s else
  let s1 :=
    setPointers (pm_set (pointerId e) (mkPoint (clientX e) (clientY e))
                        (pointersRef s)) s in
  match gestureStartRef s1 with
  | None => s1
  | Some gesture =>
      let pointersCount := pm_size (pointersRef s1) in
      if Nat.eqb pointersCount 1
         && negb (MaskType_eqb (mc_type (maskConfig s1)) HAND)
      then s1
      else
        let current := getCentroid (pm_values (pointersRef s1)) in
        let startCenter := g_center gesture in
        let startDist := g_distance gesture in
        let startTransform := g_transform gesture in
        let newScale0 :=
          if Nat.ltb 1 pointersCount then
            if Rlt_dec 0 startDist
            then t_scale startTransform * (distance current / startDist)
            else t_scale startTransform
          else t_scale startTransform in
        let newScale := clampScale newScale0 in
        let offsetX :=
          match viewportRect env with Some r => rect_left r | None => 0 end in
        let offsetY :=
          match viewportRect env with Some r => rect_top r | None => 0 end in
        let scX := px startCenter - offsetX in
        let scY := py startCenter - offsetY in
        let ccX := px (center current) - offsetX in
        let ccY := py (center current) - offsetY in
        let worldX := (scX - t_x startTransform) / t_scale startTransform in
        let worldY := (scY - t_y startTransform) / t_scale startTransform in
        let newX := ccX - worldX * newScale in
        let newY := ccY - worldY * newScale in
        setTransform (mkTransform newX newY newScale) s1
  end.

(** [onPointerUp], [onPointerCancel] and [onPointerLeave] all run this. *)
Definition handlePointerUp (e : PointerEvent) (s : AppState) : AppState :=
  updateGestureStart
    (setPointers (pm_delete (pointerId e) (pointersRef s)) s).

(** ** App.tsx: history *)

Definition saveHistory (s : AppState) : AppState :=
  setFuture [] (setPast (past s ++ [maskConfig s]) s).

(** [past[past.length - 1]] and [future[0]] are read only behind the
    emptiness test, so the default of [nth] is never returned. *)
Definition undo (s : AppState) : AppState :=
  if Nat.eqb (List.length (past s)) 0 then s else
  let previous := nth (List.length (past s) - 1) (past s) (maskConfig s) in
  let newPast := firstn (List.length (past s) - 1) (past s) in
  setPast newPast
    (setMaskConfig previous (setFuture (maskConfig s :: future s) s)).

Definition redo (s : AppState) : AppState :=
  if Nat.eqb (List.length (future s)) 0 then s else
  let next := nth 0 (future s) (maskConfig s) in
  let newFuture := skipn 1 (future s) in
  setFuture newFuture
    (setMaskConfig next (setPast (past s ++ [maskConfig s]) s)).

(** ** App.tsx: toolbar selection *)

Definition isBrushTool (type : MaskType) : bool :=
  MaskType_eqb type BRUSH || MaskType_eqb type PEN.

Definition isHandTool (type : MaskType) : bool := MaskType_eqb type HAND.

(** The updater passed to [setMaskConfig] by [onSelectMask]. *)
Definition selectMaskConfig (type : MaskType) (prev : MaskConfig)
  : MaskConfig :=
  {| mc_type := type;
     mc_shape :=
       if isHandTool type then mc_shape prev
       else if isBrushTool type then NONE else type;
     mc_x := if isHandTool type then mc_x prev else 5 / 10;
     mc_y := if isHandTool type then mc_y prev else 5 / 10;
     mc_scale :=
       if isHandTool type then mc_scale prev
       else mc_scale DEFAULT_MASK_CONFIG;
     mc_rotation := if isHandTool type then mc_rotation prev else 0;
     mc_text := mc_text prev;
     mc_fontSize := mc_fontSize prev;
     mc_brushPoints := if isHandTool type then mc_brushPoints prev else [];
     mc_brushSize := mc_brushSize prev;
     mc_opacity := mc_opacity prev |}.

Definition onSelectMask (type : MaskType) (s : AppState) : AppState :=
  let s1 := saveHistory s in
  setMaskConfig (selectMaskConfig type (maskConfig s1)) s1.

(** ** App.tsx: upscale *)

(** The updater passed to [setMaskConfig] when the upscaled foreground
    has loaded. *)
Definition rescaleMaskConfig (ratio : R) (prev : MaskConfig) : MaskConfig :=
  {| mc_type := mc_type prev;
     mc_shape := mc_shape prev;
     mc_x := mc_x prev;
     mc_y := mc_y prev;
     mc_scale := mc_scale prev;
     mc_rotation := mc_rotation prev;
     mc_text := mc_text prev;
     mc_fontSize := mc_fontSize prev * ratio;
     mc_brushPoints :=
       map (fun stroke =>
              map (fun p => mkPoint (px p * ratio) (py p * ratio)) stroke)
           (mc_brushPoints prev);
     mc_brushSize := mc_brushSize prev * ratio;
     mc_opacity := mc_opacity prev |}.

(** [handleUpscaleLayer] is asynchronous.  It runs up to the [await],
    and what follows runs later, on whatever the state is by then, with
    the [img] captured at the call. *)
Inductive UpscaleResult : Type :=
| UpscaleLoaded (newImg : Image)   (* [newImg.onload] fired *)
| UpscaleNull                      (* [upscaleImage] resolved to [null] *)
| UpscaleThrew                     (* the [try] block threw *)
| UpscaleNoBase64                  (* [getImageBase64] returned the empty string *)
| UpscaleNotLoaded.                (* a result came back and [newImg.onload]
                                      never fired: there is no [onerror] *)

Definition upscaleTarget (target : Layer) (s : AppState) : option Image :=
  match target with Layer1 => img1 s | Layer2 => img2 s end.

(** Up to the [await]: [None] when the function returns at [if (!img)]. *)
Definition handleUpscaleLayer_begin (target : Layer) (s : AppState)
  : option (Image * AppState) :=
  match upscaleTarget target s with
  | None => None
  | Some img => Some (img, setUpscalingLayer (Some target) s)
  end.

(** The body of [newImg.onload]. *)
Definition upscale_onload (target : Layer) (img newImg : Image)
  (s : AppState) : AppState :=
  match target with
  | Layer1 =>
      let s1 := setImg1 (Some newImg) s in
      let ratio := img_width newImg / img_width img in
      let s2 :=
        setCanvasSize (mkSize (img_width newImg) (img_height newImg)) s1 in
      let s3 := setMaskConfig (rescaleMaskConfig ratio (maskConfig s2)) s2 in
      let s4 :=
        setTransform
          (mkTransform (t_x (transform s3)) (t_y (transform s3))
                       (t_scale (transform s3) / ratio)) s3 in
      setUpscalingLayer None s4
  | Layer2 => setUpscalingLayer None (setImg2 (Some newImg) s)
  end.

(** After the [await]. *)
Definition handleUpscaleLayer_resume (target : Layer) (img : Image)
  (r : UpscaleResult) (s : AppState) : AppState :=
  match r with
  | UpscaleLoaded newImg => upscale_onload target img newImg s
  | UpscaleNull => setUpscalingLayer None s
  | UpscaleThrew => setUpscalingLayer None s
  | UpscaleNoBase64 => s
  | UpscaleNotLoaded => s
  end.

(** ** App.tsx: view buttons *)

Definition handleZoomIn (s : AppState) : AppState :=
  setTransform
    (mkTransform (t_x (transform s)) (t_y (transform s))
                 (Rmin (t_scale (transform s) * (125 / 100)) 20)) s.

Definition handleZoomOut (s : AppState) : AppState :=
  setTransform
    (mkTransform (t_x (transform s)) (t_y (transform s))
                 (Rmax (t_scale (transform s) * (8 / 10)) (5 / 100))) s.

Definition handleCenterView (env : Env) (s : AppState) : AppState :=
  let centerX :=
    (innerWidth env - sz_width (canvasSize s) * t_scale (transform s)) / 2 in
  let centerY :=
    (innerHeight env - sz_height (canvasSize s) * t_scale (transform s)) / 2 in
  setTransform (mkTransform centerX centerY (t_scale (transform s))) s.

(** How [App] wires the callback props of [CanvasLayer]:
    [onHistorySave={saveHistory}] and [onUpdateMaskConfig={setMaskConfig}]. *)
Definition runEffect (eff : CanvasLayer.Effect) (s : AppState) : AppState :=
  match eff with
  | CanvasLayer.OnHistorySave => saveHistory s
  | CanvasLayer.OnUpdateMaskConfig c => setMaskConfig c s
  | _ => s
  end.

Definition runEffects (effs : list CanvasLayer.Effect) (s : AppState)
  : AppState :=
  fold_left (fun acc eff => runEffect eff acc) effs s.

(** ** App.tsx: the rest of the component *)

Definition setIsGenerating (b : bool) (s : AppState) : AppState :=
  mkApp (maskConfig s) (img1 s) (img2 s) (canvasSize s) b
        (upscalingLayer s) (showGenModal s) (transform s) (pointersRef s)
        (gestureStartRef s) (lastTapRef s) (past s) (future s).

Definition setShowGenModal (b : bool) (s : AppState) : AppState :=
  mkApp (maskConfig s) (img1 s) (img2 s) (canvasSize s) (isGenerating s)
        (upscalingLayer s) b (transform s) (pointersRef s)
        (gestureStartRef s) (lastTapRef s) (past s) (future s).

(** The cells as [useState] and [useRef] initialise them. *)
Definition initialApp (env : Env) : AppState :=
  mkApp DEFAULT_MASK_CONFIG None None
        (mkSize (innerWidth env) (innerHeight env * (6 / 10)))
        false None false (mkTransform 0 0 1) [] None 0%Z [] [].

(** [updateSize], run by the "Initial Fit" effect and on every window
    resize. *)
Definition updateSize (env : Env) (s : AppState) : AppState :=
  match img1 s, img2 s with
  | None, None =>
      let maxWidth := innerWidth env in
      let maxHeight := innerHeight env * (7 / 10) in
      let s1 := setCanvasSize (mkSize maxWidth maxHeight) s in
      setTransform
        (mkTransform ((innerWidth env - maxWidth) / 2)
                     ((innerHeight env * (6 / 10) - maxHeight) / 2)
                     (t_scale (transform s1))) s1
  | _, _ => s
  end.

Definition handleClearMask (s : AppState) : AppState :=
  let s1 := saveHistory s in
  let currentType := mc_type (maskConfig s) in
  let currentShape :=
    if MaskType_eqb currentType BRUSH || MaskType_eqb currentType PEN
    then NONE else mc_shape (maskConfig s) in
  let prev := maskConfig s1 in
  setMaskConfig
    {| mc_type := currentType;
       mc_shape := currentShape;
       mc_x := mc_x DEFAULT_MASK_CONFIG;
       mc_y := mc_y DEFAULT_MASK_CONFIG;
       mc_scale := mc_scale DEFAULT_MASK_CONFIG;
       mc_rotation := mc_rotation DEFAULT_MASK_CONFIG;
       mc_text := mc_text DEFAULT_MASK_CONFIG;
       mc_fontSize := mc_fontSize prev;
       mc_brushPoints := [];
       mc_brushSize := mc_brushSize prev;
       mc_opacity := mc_opacity DEFAULT_MASK_CONFIG |} s1.

Definition handleSwapLayers (s : AppState) : AppState :=
  let s1 := saveHistory s in
  setImg2 (img1 s) (setImg1 (img2 s) s1).

Definition handleResetView (s : AppState) : AppState :=
  let prev := maskConfig s in
  setMaskConfig
    {| mc_type := mc_type prev; mc_shape := mc_shape prev;
       mc_x := mc_x prev; mc_y := mc_y prev; mc_scale := mc_scale prev;
       mc_rotation := 0; mc_text := mc_text prev;
       mc_fontSize := mc_fontSize prev;
       mc_brushPoints := mc_brushPoints prev;
       mc_brushSize := mc_brushSize prev; mc_opacity := mc_opacity prev |} s.

(** The two cells of the component that [AppState] leaves out. *)
Record Ui : Type := mkUi { app : AppState; prompt : string; showLayers : bool }.

Definition onApp (f : AppState -> AppState) (u : Ui) : Ui :=
  mkUi (f (app u)) (prompt u) (showLayers u).

Definition setShowLayers (b : bool) (u : Ui) : Ui :=
  mkUi (app u) (prompt u) b.

(** The body of [img.onload] in [handleImageUpload].  [img1AtPick] is the
    [img1] that the handler closed over, the foreground of the render in
    which the file was picked. *)
Definition handleImageUpload_onload (env : Env) (target : Layer)
  (img1AtPick : option Image) (img : Image) (u : Ui) : Ui :=
  let u1 :=
    match target with
    | Layer1 =>
        onApp (fun s =>
                 centerImage env (img_width img) (img_height img)
                   (setCanvasSize (mkSize (img_width img) (img_height img))
                      (setImg1 (Some img) s))) u
    | Layer2 =>
        onApp (fun s =>
                 let s1 := setImg2 (Some img) s in
                 match img1AtPick with
                 | None =>
                     centerImage env (img_width img) (img_height img)
                       (setCanvasSize
                          (mkSize (img_width img) (img_height img)) s1)
                 | Some _ => s1
                 end) u
    end in
  setShowLayers false u1.

(** [handleDualUpload] after [loadFile(files[0])] has resolved with
    [image1], and after [loadFile(files[1])] has resolved with [image2];
    [more] is [files.length > 1].  A rejected [loadFile] lands in the
    [catch] and leaves the state as the steps before it made it. *)
Definition handleDualUpload_first (env : Env) (more : bool) (image1 : Image)
  (u : Ui) : Ui :=
  let u1 :=
    onApp (fun s =>
             centerImage env (img_width image1) (img_height image1)
               (setCanvasSize
                  (mkSize (img_width image1) (img_height image1))
                  (setImg1 (Some image1) s))) u in
  if more then u1 else setShowLayers false u1.

Definition handleDualUpload_second (image2 : Image) (u : Ui) : Ui :=
  setShowLayers false (onApp (setImg2 (Some image2)) u).

(** [handleGenerateBackground] up to the [await]: [None] when the prompt
    is empty and the function returns at once, otherwise the prompt sent
    and the state. *)
Definition handleGenerateBackground_begin (u : Ui) : option (string * Ui) :=
  if String.eqb (prompt u) "" then None
  else Some (prompt u, onApp (setIsGenerating true) u).

(** [handleGenerateBackground] after the [await].  The handler sets
    [img.onload] and no [onerror]: when a data URL came back and the image
    never loads, nothing more runs. *)
Inductive GenerateResult : Type :=
| GenerateLoaded (img : Image)   (* [img.onload] fired *)
| GenerateNull                   (* [generateBackgroundImage] gave [null] *)
| GenerateNotLoaded.             (* a data URL came back, [img.onload]
                                    never fired *)

Definition handleGenerateBackground_resume (r : GenerateResult) (u : Ui)
  : Ui :=
  match r with
  | GenerateLoaded img =>
      onApp (fun s =>
               setShowGenModal false
                 (setIsGenerating false (setImg2 (Some img) s))) u
  | GenerateNull => onApp (setIsGenerating false) u
  | GenerateNotLoaded => u
  end.

(** *** The viewport as a state machine *)

(** What the viewport element can receive. *)
Inductive ViewportEvent : Type :=
| VWheel (e : WheelEvent)
| VPointerDown (e : PointerEvent)
| VPointerMove (e : PointerEvent)
| VPointerUp (e : PointerEvent).   (* also pointer-cancel and pointer-leave *)

Definition viewportStep (s : AppState) (ev : Env * ViewportEvent)
  : AppState :=
  match snd ev with
  | VWheel e => handleWheel (fst ev) e s
  | VPointerDown e => handlePointerDown (fst ev) e s
  | VPointerMove e => handlePointerMove (fst ev) e s
  | VPointerUp e => handlePointerUp e s
  end.

Definition viewportRun (evs : list (Env * ViewportEvent)) (s : AppState)
  : AppState :=
  fold_left viewportStep evs s.

(** ** components/PropertiesPanel.tsx *)

Module PropertiesPanel.

Inductive PropertyMode : Type :=
| ModeScale | ModeRotate | ModeOpacity | ModeSize | ModeColor.

Definition isBrush (config : MaskConfig) : bool :=
  MaskType_eqb (mc_type config) BRUSH || MaskType_eqb (mc_type config) PEN.

Definition isText (config : MaskConfig) : bool :=
  MaskType_eqb (mc_type config) TEXT.

Definition isShape (config : MaskConfig) : bool :=
  negb (isBrush config) && negb (isText config)
  && negb (MaskType_eqb (mc_type config) HAND)
  && negb (MaskType_eqb (mc_type config) NONE).

(** The panel renders nothing for the tools None and Hand. *)
Definition visible (config : MaskConfig) : bool :=
  negb (MaskType_eqb (mc_type config) NONE
        || MaskType_eqb (mc_type config) HAND).

(** The initial [activeMode], and the effect that resets it when the
    tool changes. *)
Definition initialMode (config : MaskConfig) : PropertyMode :=
  if isBrush config || isText config then ModeSize else ModeScale.

Definition resetMode (config : MaskConfig) (activeMode : PropertyMode)
  : PropertyMode :=
  if isBrush config then ModeSize
  else if isText config then ModeSize
  else if isShape config then ModeScale
  else activeMode.

(** [handleChange(key, value)], for the keys and values the panel passes
    to it. *)
Inductive Change : Type :=
| ChScale (v : R)
| ChRotation (v : R)
| ChOpacity (v : R)
| ChBrushSize (v : R)
| ChFontSize (v : R)
| ChText (v : string).

Definition handleChange (config : MaskConfig) (ch : Change) : MaskConfig :=
  {| mc_type := mc_type config; mc_shape := mc_shape config;
     mc_x := mc_x config; mc_y := mc_y config;
     mc_scale := match ch with ChScale v => v | _ => mc_scale config end;
     mc_rotation :=
       match ch with ChRotation v => v | _ => mc_rotation config end;
     mc_text := match ch with ChText v => v | _ => mc_text config end;
     mc_fontSize :=
       match ch with ChFontSize v => v | _ => mc_fontSize config end;
     mc_brushPoints := mc_brushPoints config;
     mc_brushSize :=
       match ch with ChBrushSize v => v | _ => mc_brushSize config end;
     mc_opacity :=
       match ch with ChOpacity v => v | _ => mc_opacity config end |}.

(** The [onChange] of the slider that [renderSlider] shows in
    [activeMode], with the number parsed from the input; [None] where no
    slider is rendered. *)
Definition sliderChange (config : MaskConfig) (activeMode : PropertyMode)
  (v : R) : option MaskConfig :=
  match activeMode with
  | ModeScale => Some (handleChange config (ChScale v))
  | ModeRotate => Some (handleChange config (ChRotation v))
  | ModeOpacity => Some (handleChange config (ChOpacity v))
  | ModeSize =>
      Some (handleChange config
              (if isBrush config then ChBrushSize v else ChFontSize v))
  | ModeColor => None
  end.

(** The [min] and [max] of the slider shown in [activeMode]: a range
    input only reports values between them. *)
Definition sliderRange (config : MaskConfig) (activeMode : PropertyMode)
  : option (R * R) :=
  match activeMode with
  | ModeScale => Some (1 / 10, 2)
  | ModeRotate => Some (0, 360)
  | ModeOpacity => Some (0, 1)
  | ModeSize => Some (if isBrush config then (1, 100) else (10, 300))
  | ModeColor => None
  end.

End PropertiesPanel.

(** *** What can happen to the mask configuration *)

(** The events that write the mask configuration or the history, each
    with the handler of [App] it runs: a toolbar button, the clear
    button, the reset-rotation button, undo and redo, the swap button, a
    slider of the properties panel being grabbed ([onHistorySave]) and
    moved ([onChange]), the text box, a finished upscale of the
    foreground, and a pointer-down on the canvas. *)
Inductive MaskEvent : Type :=
| MSelect (type : MaskType)
| MClear
| MResetView
| MUndo
| MRedo
| MSwap
| MGrab
| MSlide (activeMode : PropertiesPanel.PropertyMode) (v : R)
| MText (v : string)
| MUpscaled (img newImg : Image)
| MCanvasDown (canvas : option CanvasLayer.CanvasElement)
              (e : PointerEvent) (st : CanvasLayer.State).

Definition maskStep (s : AppState) (ev : MaskEvent) : AppState :=
  match ev with
  | MSelect type => onSelectMask type s
  | MClear => handleClearMask s
  | MResetView => handleResetView s
  | MUndo => undo s
  | MRedo => redo s
  | MSwap => handleSwapLayers s
  | MGrab => saveHistory s
  | MSlide activeMode v =>
      match PropertiesPanel.sliderChange (maskConfig s) activeMode v with
      | Some c => setMaskConfig c s
      | None => s
      end
  | MText v =>
      setMaskConfig
        (PropertiesPanel.handleChange (maskConfig s) (PropertiesPanel.ChText v))
        s
  | MUpscaled img newImg => upscale_onload Layer1 img newImg s
  | MCanvasDown canvas e st =>
      runEffects
        (snd (CanvasLayer.handlePointerDown canvas
                (CanvasLayer.mkProps (sz_width (canvasSize s))
                   (sz_height (canvasSize s)) (img1 s) (img2 s)
                   (maskConfig s))
                e st))
        s
  end.

Definition maskRun (evs : list MaskEvent) (s : AppState) : AppState :=
  fold_left maskStep evs s.

(** ** The drawing path, with the stroke arrays as objects

    [CanvasLayer]'s pointer-move does not build a new stroke: it calls
    [push] on the last array of [maskConfig.brushPoints], the very array
    that every configuration copied from this one by a spread still holds.
    To say what that does, this module keeps the arrays of points in a heap
    and lets a configuration hold references to them.  The handlers of
    [CanvasLayer] are taken together with their wiring in [App]
    ([onHistorySave] is [saveHistory], [onUpdateMaskConfig] is
    [setMaskConfig], [maskConfig] is the live configuration, [width] and
    [height] are the canvas size). *)

Module Objects.

Definition Ref : Type := nat.

(** The arrays of points created so far; a reference is the rank of its
    array in the order of creation. *)
Definition Heap : Type := list (list Point).

Definition deref (h : Heap) (r : Ref) : list Point := nth r h [].

(** A new array, [[p]] or the like. *)
Definition alloc (a : list Point) (h : Heap) : Heap * Ref :=
  (h ++ [a], List.length h).

Fixpoint update (r : Ref) (f : list Point -> list Point) (h : Heap) : Heap :=
  match h, r with
  | [], _ => []
  | a :: h', O => f a :: h'
  | a :: h', S r' => a :: update r' f h'
  end.

(** [Array.prototype.push] on the array behind [r]. *)
Definition push (r : Ref) (p : Point) (h : Heap) : Heap :=
  update r (fun a => a ++ [p]) h.

(** A configuration object: [brushPoints] is the list of the stroke
    arrays it holds, [fields] carries the ten other fields (the
    [mc_brushPoints] of [fields] is not read).  The outer array of
    [brushPoints] is never written in place, so it is kept as a value. *)
Record Config : Type := mkConfig {
  brushPoints : list Ref;
  fields : MaskConfig
}.

(** What a configuration object says, given the heap. *)
Definition view (h : Heap) (c : Config) : MaskConfig :=
  CanvasLayer.withBrushPoints (fields c) (map (deref h) (brushPoints c)).

Record State : Type := mkState {
  heap : Heap;
  maskConfig : Config;
  past : list Config;
  future : list Config;
  isDragging : bool;
  lastPos : Point
}.

Definition saveHistory (s : State) : State :=
  mkState (heap s) (maskConfig s) (past s ++ [maskConfig s]) []
          (isDragging s) (lastPos s).

Definition undo (s : State) : State :=
  if Nat.eqb (List.length (past s)) 0 then s else
  let previous := nth (List.length (past s) - 1) (past s) (maskConfig s) in
  let newPast := firstn (List.length (past s) - 1) (past s) in
  mkState (heap s) previous newPast (maskConfig s :: future s)
          (isDragging s) (lastPos s).

Definition redo (s : State) : State :=
  if Nat.eqb (List.length (future s)) 0 then s else
  let next := nth 0 (future s) (maskConfig s) in
  let newFuture := skipn 1 (future s) in
  mkState (heap s) next (past s ++ [maskConfig s]) newFuture
          (isDragging s) (lastPos s).

Definition isBrushType (c : Config) : bool :=
  MaskType_eqb (mc_type (fields c)) BRUSH
  || MaskType_eqb (mc_type (fields c)) PEN.

(** [strokes[strokes.length - 1]]: [None] is [undefined]. *)
Definition lastRef (c : Config) : option Ref :=
  nth_error (brushPoints c) (List.length (brushPoints c) - 1).

Definition handlePointerDown (canvas : option CanvasLayer.CanvasElement)
  (e : PointerEvent) (s : State) : State :=
  if MaskType_eqb (mc_type (fields (maskConfig s))) HAND then s else
  if negb (isPrimary e) then s else
  let s1 := saveHistory s in
  let pos := CanvasLayer.getPos canvas e in
  if isBrushType (maskConfig s) then
    let '(h, r) := alloc [pos] (heap s1) in
    let newStrokes := brushPoints (maskConfig s) ++ [r] in
    mkState h (mkConfig newStrokes (fields (maskConfig s)))
            (past s1) (future s1) true pos
  else
    mkState (heap s1) (maskConfig s1) (past s1) (future s1) true pos.

Definition handlePointerMove (canvas : option CanvasLayer.CanvasElement)
  (width height : R) (e : PointerEvent) (s : State) : State :=
  if negb (isDragging s) then s else
  let pos := CanvasLayer.getPos canvas e in
  if isBrushType (maskConfig s) then
    match lastRef (maskConfig s) with
    | Some lastStroke =>
        mkState (push lastStroke pos (heap s))
                (mkConfig (brushPoints (maskConfig s)) (fields (maskConfig s)))
                (past s) (future s) (isDragging s) (lastPos s)
    | None => s
    end
  else
    let dx := (px pos - px (lastPos s)) / width in
    let dy := (py pos - py (lastPos s)) / height in
    let c := fields (maskConfig s) in
    let c' :=
      {| mc_type := mc_type c; mc_shape := mc_shape c;
         mc_x := mc_x c + dx; mc_y := mc_y c + dy;
         mc_scale := mc_scale c; mc_rotation := mc_rotation c;
         mc_text := mc_text c; mc_fontSize := mc_fontSize c;
         mc_brushPoints := mc_brushPoints c;
         mc_brushSize := mc_brushSize c; mc_opacity := mc_opacity c |} in
    mkState (heap s) (mkConfig (brushPoints (maskConfig s)) c')
            (past s) (future s) (isDragging s) pos.

(** [onPointerUp] and [onPointerLeave] of the canvas. *)
Definition handlePointerUp (s : State) : State :=
  if isDragging s
  then mkState (heap s) (maskConfig s) (past s) (future s) false (lastPos s)
  else s.

(** Every reference that a configuration of the state holds is to an
    array that exists. *)
Definition configOk (h : Heap) (c : Config) : Prop :=
  Forall (fun r => (r < List.length h)%nat) (brushPoints c).

Definition wf (s : State) : Prop :=
  configOk (heap s) (maskConfig s)
  /\ Forall (configOk (heap s)) (past s)
  /\ Forall (configOk (heap s)) (future s).

(** The pointer-moves of one drag, oldest first. *)
Definition drag (canvas : option CanvasLayer.CanvasElement)
  (width height : R) (moves : list PointerEvent) (s : State) : State :=
  fold_left (fun acc e => handlePointerMove canvas width height e acc)
            moves s.

End Objects.

(** The [App] state that an object-level state stands for: the three
    history cells are read through the heap, the other cells are those of
    [base]. *)
Definition appOf (base : AppState) (o : Objects.State) : AppState :=
  setFuture (map (Objects.view (Objects.heap o)) (Objects.future o))
    (setPast (map (Objects.view (Objects.heap o)) (Objects.past o))
       (setMaskConfig (Objects.view (Objects.heap o) (Objects.maskConfig o))
                      base)).

Definition propsOf (width height : R) (fg bg : option Image)
  (o : Objects.State) : CanvasLayer.Props :=
  CanvasLayer.mkProps width height fg bg
    (Objects.view (Objects.heap o) (Objects.maskConfig o)).

(** ** Notions the statements use *)

(** The camera maps a world point to the screen by
    [screen = world * scale + translate]. *)
Definition screenOfWorld (t : Transform) (w : Point) : Point :=
  mkPoint (px w * t_scale t + t_x t) (py w * t_scale t + t_y t).

Definition worldOfScreen (t : Transform) (p : Point) : Point :=
  mkPoint ((px p - t_x t) / t_scale t) ((py p - t_y t) / t_scale t).

Definition Rsum (l : list R) : R := fold_right Rplus 0 l.

(** The centroid of a list of points and the mean distance of the points
    from it, as the words say. *)
Definition centroidOf (pts : list Point) : Point :=
  mkPoint (Rsum (map px pts) / INR (List.length pts))
          (Rsum (map py pts) / INR (List.length pts)).

Definition meanDistanceFrom (c : Point) (pts : list Point) : R :=
  Rsum (map (fun p => Math_hypot (px p - px c) (py p - py c)) pts)
  / INR (List.length pts).

(** The gesture baseline taken from scratch: the camera, the centroid of
    the active pointers and their mean distance from it; none when no
    pointer is active. *)
Definition baselineOf (t : Transform) (m : PointerMap) : option Gesture :=
  match m with
  | [] => None
  | _ :: _ =>
      Some (mkGesture t (center (getCentroid (pm_values m)))
                      (distance (getCentroid (pm_values m))))
  end.

(** What a call that took a context from [c] to [c'] painted. *)
Definition paintedSince {Pixel : Type} (c c' : Ctx Pixel) : list (Op Pixel) :=
  skipn (List.length (ops c)) (ops c').

(** The polyline of a stroke, as a path under matrix [m]. *)
Definition polyline (m : Matrix) (pts : list Point) : Path :=
  match pts with
  | [] => []
  | p0 :: rest =>
      (m, SegMoveTo (px p0) (py p0))
        :: map (fun p => (m, SegLineTo (px p) (py p))) rest
  end.

Definition nonEmpty (pts : list Point) : bool :=
  negb (Nat.ltb (List.length pts) 1).

(** The stroke that [ctx.stroke()] paints for the polyline of [pts]
    under drawing state [d]. *)
Definition strokeOp {Pixel : Type} (d : DrawState) (pts : list Point)
  : Op Pixel :=
  OpPaint (globalAlpha d) (globalCompositeOperation d) (ctm d)
          (PaintStroke (strokeStyle d) (lineWidth d) (lineCap d) (lineJoin d)
                       (polyline (ctm d) pts)).

(** The line width a painted stroke was made with. *)
Definition strokeWidthOf {Pixel : Type} (o : Op Pixel) : option R :=
  match o with
  | OpPaint _ _ _ (PaintStroke _ w _ _ _) => Some w
  | _ => None
  end.

(** The drawing state after the four assignments that open
    [drawMaskShape]. *)
Definition whiteRound (d : DrawState) : DrawState :=
  ds_lineJoin "round"
    (ds_lineCap "round" (ds_strokeStyle "#FFFFFF" (ds_fillStyle "#FFFFFF" d))).

(** Two drawing states paint alike when they agree on [globalAlpha],
    [globalCompositeOperation] and the matrix. *)
Definition sameCompositing (d1 d2 : DrawState) : Prop :=
  globalAlpha d1 = globalAlpha d2
  /\ globalCompositeOperation d1 = globalCompositeOperation d2
  /\ ctm d1 = ctm d2.

(** Two canvases show the same colour at pixel [(i, j)]. *)
Definition samePixel {Pixel : Type} {B : Backend Pixel} (i j : Z)
  (c1 c2 : Ctx Pixel) : Prop :=
  bitmapOf (ops c1) i j = bitmapOf (ops c2) i j.

(** The two canvases agree at the pixel and will paint alike; [simFAt]
    adds that they will fill alike. *)
Definition simAt {Pixel : Type} {B : Backend Pixel} (i j : Z)
  (c1 c2 : Ctx Pixel) : Prop :=
  samePixel i j c1 c2 /\ sameCompositing (ds c1) (ds c2).

Definition simFAt {Pixel : Type} {B : Backend Pixel} (i j : Z)
  (c1 c2 : Ctx Pixel) : Prop :=
  simAt i j c1 c2 /\ fillStyle (ds c1) = fillStyle (ds c2).

(** [c'] has painted on top of what [c] had painted. *)
Definition paintsOnto {Pixel : Type} (c c' : Ctx Pixel) : Prop :=
  exists l, ops c' = ops c ++ l.

(** A backend for examples: a pixel is inked or not, every paint inks
    every pixel, compositing keeps ink. *)
#[export] Instance inkBackend : Backend bool :=
  {| transparent := false;
     shade := fun _ _ _ _ => true;
     composite := fun _ _ src dst => src || dst;
     clearEdge := fun _ _ _ _ _ _ _ dst => dst |}.

(** ** States and events the examples run on *)

Definition photo : Image := mkImage 800 600 0.

(** An 800 x 600 foreground under the default mask, the camera at rest;
    [modal] says whether the generation dialog is open. *)
Definition editorState (modal : bool) : AppState :=
  mkApp DEFAULT_MASK_CONFIG (Some photo) None (mkSize 800 600) false None
        modal (mkTransform 0 0 1) [] None 0%Z [] [].

Definition desktopEnv : Env :=
  mkEnv 1000 1000 (Some (mkRect 0 0 1000 1000)) 0%Z.

(** An 8000 x 6000 photograph in a 390 x 844 window. *)
Definition cameraPhoto : Image := mkImage 8000 6000 1.

Definition phoneEnv : Env :=
  mkEnv 390 844 (Some (mkRect 0 0 390 844)) 0%Z.

Definition photoState : AppState :=
  mkApp DEFAULT_MASK_CONFIG (Some cameraPhoto) None (mkSize 8000 6000) false
        None false (mkTransform 0 0 1) [] None 0%Z [] [].

(** Two fingers down at (0, 0) and (6, 8), baseline taken there. *)
Definition pinchState : AppState :=
  mkApp DEFAULT_MASK_CONFIG (Some photo) None (mkSize 800 600) false None
        false (mkTransform 0 0 1)
        [(1%Z, mkPoint 0 0); (2%Z, mkPoint 6 8)]
        (Some (mkGesture (mkTransform 0 0 1) (mkPoint 3 4) 5)) 0%Z [] [].

(** Two fingers on the same spot, baseline taken there. *)
Definition coincidentState : AppState :=
  mkApp DEFAULT_MASK_CONFIG (Some photo) None (mkSize 800 600) false None
        false (mkTransform 0 0 2)
        [(1%Z, mkPoint 5 5); (2%Z, mkPoint 5 5)]
        (Some (mkGesture (mkTransform 0 0 2) (mkPoint 5 5) 0)) 0%Z [] [].

(** Brush mode with one stroke drawn. *)
Definition strokedConfig : MaskConfig :=
  mkMaskConfig BRUSH NONE (5 / 10) (5 / 10) (4 / 10) 0 "MASK" 100
               [[mkPoint 1 2; mkPoint 3 4]] 20 1.

Definition strokedState : AppState :=
  mkApp strokedConfig (Some photo) None (mkSize 800 600) false None false
        (mkTransform 0 0 1) [] None 0%Z [] [].

(** Brush mode with nothing drawn yet. *)
Definition brushConfig : MaskConfig :=
  mkMaskConfig BRUSH NONE (5 / 10) (5 / 10) (4 / 10) 0 "MASK" 100 [] 20 1.

Definition brushState : AppState :=
  mkApp brushConfig (Some photo) None (mkSize 800 600) false None false
        (mkTransform 0 0 1) [] None 0%Z [] [].

Definition brushProps : CanvasLayer.Props :=
  CanvasLayer.mkProps 800 600 (Some photo) None brushConfig.

Definition canvasElement : CanvasLayer.CanvasElement :=
  CanvasLayer.mkCanvasElement 800 600 (mkRect 0 0 800 600).

Definition idle : CanvasLayer.State :=
  CanvasLayer.mkState false (mkPoint 0 0).

Definition primaryDown : PointerEvent := mkPointerEvent 1 10 10 true.

Definition smallImage : Image := mkImage 100 50 2.
Definition largeImage : Image := mkImage 200 100 3.

Definition loadedState : AppState :=
  mkApp strokedConfig (Some smallImage) None (mkSize 100 50) false None false
        (mkTransform 0 0 1) [] None 0%Z [] [].

Definition threeStrokes : list (list Point) :=
  [[mkPoint 0 0; mkPoint 1 1]; []; [mkPoint 5 5]].

Definition checkerProps : CanvasLayer.Props :=
  CanvasLayer.mkProps 800 600 (Some photo) None DEFAULT_MASK_CONFIG.

Definition maskedProps : CanvasLayer.Props :=
  CanvasLayer.mkProps 800 600 (Some photo) (Some largeImage) strokedConfig.

Definition domOk : CanvasLayer.Dom := CanvasLayer.mkDom true true.

(** ** Notions of the further properties *)

(** What the viewport keeps true of its two refs: pointer identifiers are
    distinct, there is a baseline exactly when a pointer is down, the
    mean distance of the baseline is not negative, and it is 0 when one
    pointer is down. *)
Definition viewportOk (s : AppState) : Prop :=
  NoDup (map fst (pointersRef s))
  /\ (gestureStartRef s = None <-> pointersRef s = [])
  /\ (forall g, gestureStartRef s = Some g ->
        0 <= g_distance g
        /\ (pm_size (pointersRef s) = 1%nat -> g_distance g = 0)).

(** The window is larger than the chrome paddings of [centerImage]. *)
Definition roomy (env : Env) : Prop :=
  48 < innerWidth env /\ 140 < innerHeight env.

Definition translateBy (dx dy : R) (t : Transform) : Transform :=
  mkTransform (t_x t + dx) (t_y t + dy) (t_scale t).

(** The offset of the viewport element, as [handlePointerMove] takes it. *)
Definition viewportOffset (env : Env) : Point :=
  match viewportRect env with
  | Some r => mkPoint (rect_left r) (rect_top r)
  | None => mkPoint 0 0
  end.

Definition minus (p q : Point) : Point :=
  mkPoint (px p - px q) (py p - py q).

(** ** States and events of the further examples *)

(** One finger down at (10, 10) in Hand mode, baseline taken there. *)
Definition handConfig : MaskConfig :=
  mkMaskConfig HAND CIRCLE (5 / 10) (5 / 10) (4 / 10) 0 "MASK" 100 [] 20 1.

Definition panState : AppState :=
  mkApp handConfig (Some photo) None (mkSize 800 600) false None false
        (mkTransform 5 7 2) [(1%Z, mkPoint 10 10)]
        (Some (mkGesture (mkTransform 5 7 2) (mkPoint 10 10) 0)) 0%Z [] [].

(** The camera zoomed out to 50%, last tap 100 ms before [tapEnv]. *)
Definition zoomedOutState : AppState :=
  mkApp handConfig (Some photo) None (mkSize 800 600) false None false
        (mkTransform 0 0 (1 / 2)) [] None 900%Z [] [].

Definition tapEnv : Env :=
  mkEnv 1000 1000 (Some (mkRect 0 0 1000 1000)) 1000%Z.

(** The history as one line of configurations with the live one in it. *)
Definition timeline (s : AppState) : list MaskConfig :=
  past s ++ maskConfig s :: future s.

(** What every configuration the editor produces satisfies: the shape is
    never Hand, Brush or Pen; under a brush tool the shape is None;
    strokes exist only under Brush, Pen or Hand; brush size and font size
    are positive. *)
Definition configOk (c : MaskConfig) : Prop :=
  (mc_shape c <> HAND /\ mc_shape c <> BRUSH /\ mc_shape c <> PEN)
  /\ (isBrushTool (mc_type c) = true -> mc_shape c = NONE)
  /\ (mc_brushPoints c <> [] ->
      mc_type c = BRUSH \/ mc_type c = PEN \/ mc_type c = HAND)
  /\ 0 < mc_brushSize c
  /\ 0 < mc_fontSize c.

Definition maskOk (s : AppState) : Prop :=
  configOk (maskConfig s)
  /\ Forall configOk (past s)
  /\ Forall configOk (future s).

(** The events as the browser can deliver them: a slider reports a value
    between its [min] and its [max], and images have a positive width. *)
Definition eventOk (s : AppState) (ev : MaskEvent) : Prop :=
  match ev with
  | MSlide activeMode v =>
      match PropertiesPanel.sliderRange (maskConfig s) activeMode with
      | Some (lo, hi) => lo <= v <= hi
      | None => True
      end
  | MUpscaled img newImg => 0 < img_width img /\ 0 < img_width newImg
  | _ => True
  end.

(** [evs] can be delivered one after the other from [s] on. *)
Fixpoint eventsOk (s : AppState) (evs : list MaskEvent) : Prop :=
  match evs with
  | [] => True
  | ev :: rest => eventOk s ev /\ eventsOk (maskStep s ev) rest
  end.


Definition promptUi : Ui := mkUi (editorState true) "a beach at dusk" false.

(** The rectangle on screen of a canvas of the given size that the
    camera [t] shows in a viewport whose corner is at [v]:
    [translate(t.x, t.y) scale(t.scale)] with origin [0 0]. *)
Definition cameraRect (v : Point) (t : Transform) (width height : R)
  : DOMRect :=
  mkRect (px v + t_x t) (py v + t_y t)
         (width * t_scale t) (height * t_scale t).

(** An editor in Brush mode holding one finished stroke, array 0. *)
Definition brushObjects : Objects.State :=
  Objects.mkState [[mkPoint 1 2; mkPoint 3 4]]
                  (Objects.mkConfig [0%nat] brushConfig) [] []
                  false (mkPoint 0 0).

(** An editor in Circle mode, nothing drawn. *)
Definition circleObjects : Objects.State :=
  Objects.mkState [] (Objects.mkConfig [] DEFAULT_MASK_CONFIG) [] []
                  false (mkPoint 0 0).

Definition moveTo20 : PointerEvent := mkPointerEvent 1 20 20 true.
Definition moveTo30 : PointerEvent := mkPointerEvent 1 30 25 true.

(** The circle being dragged: pointer went down at (10, 10). *)
Definition draggingCircle : Objects.State :=
  Objects.mkState [] (Objects.mkConfig [] DEFAULT_MASK_CONFIG)
                  [Objects.mkConfig [] DEFAULT_MASK_CONFIG] []
                  true (mkPoint 10 10).

(** The image of a point under a matrix. *)
Definition m_apply (m : Matrix) (p : Point) : Point :=
  mkPoint (m_a m * px p + m_c m * py p + m_e m)
          (m_b m * px p + m_d m * py p + m_f m).

(** The rectangle [x y w h] shows an image of size [iw] x [ih] so that it
    covers a canvas of size [cw] x [ch]: it contains the canvas, has the
    centre of the canvas, the proportions of the image, and one of its
    sides is the side of the canvas. *)
Definition coverFit (cw ch iw ih x y w h : R) : Prop :=
  x <= 0 /\ y <= 0 /\ cw <= x + w /\ ch <= y + h
  /\ x + w / 2 = cw / 2 /\ y + h / 2 = ch / 2
  /\ w * ih = h * iw
  /\ (w = cw \/ h = ch).

(** What the setter of [globalAlpha] leaves when [v] is assigned over
    [a0]. *)
Definition alphaAfter (a0 v : R) : R :=
  if Rle_dec 0 v then if Rle_dec v 1 then v else a0 else a0.

Definition backdropProps : CanvasLayer.Props :=
  CanvasLayer.mkProps 800 600 None (Some largeImage) DEFAULT_MASK_CONFIG.

(** Going from [s] to [s'] touched neither the live mask configuration
    nor the history. *)
Definition maskUntouched (s s' : AppState) : Prop :=
  maskConfig s' = maskConfig s /\ past s' = past s /\ future s' = future s.

(** A Pen configuration with one stroke drawn. *)
Definition penConfig : MaskConfig :=
  mkMaskConfig PEN NONE (5 / 10) (5 / 10) (4 / 10) 0 "MASK" 100
               [[mkPoint 1 2; mkPoint 3 4]] 20 1.

Definition penState : AppState :=
  mkApp penConfig (Some smallImage) None (mkSize 100 50) false None false
        (mkTransform 0 0 1) [] None 0%Z [] [].

(** * Properties *)

(** ** Arithmetic of the clamp and of the zoom step *)

Lemma clampScale_range (v : R) : inScaleRange (clampScale v).
Proof.
  unfold inScaleRange, clampScale. split.
  - apply Rmin_glb; [apply Rmax_r | lra].
  - apply Rmin_r.
Qed.

Lemma clampScale_id (v : R) : inScaleRange v -> clampScale v = v.
Proof.
  unfold inScaleRange, clampScale. intros [Hlo Hhi].
  rewrite Rmax_left by lra. rewrite Rmin_left by lra. reflexivity.
Qed.

Lemma exp_step_bounds : 1 < exp (15 / 100) < 3.
Proof.
  split.
  - pose proof (exp_ineq1 (15 / 100)) as H. lra.
  - apply Rlt_le_trans with (exp 1); [ | exact exp_le_3].
    apply exp_increasing. lra.
Qed.

Lemma Math_sign_neg (v : R) : v < 0 -> Math_sign v = -1.
Proof.
  intro H. unfold Math_sign.
  destruct (Rlt_dec 0 v); [lra | ]. destruct (Rlt_dec v 0); [reflexivity | lra].
Qed.

Lemma screenOfWorld_worldOfScreen (t : Transform) (p : Point) :
  t_scale t <> 0 -> screenOfWorld t (worldOfScreen t p) = p.
Proof.
  intro H. destruct p as [x y]. unfold screenOfWorld, worldOfScreen. simpl.
  f_equal; field; exact H.
Qed.

(** ** Wheel zoom *)

(** C1, as stated, fails: a wheel event that arrives while the
    generation dialog is open changes nothing, so the scale stays 1 where
    the claim gives [exp(0.15)]. *)
Lemma handleWheel_gated_counterexample :
  let s := editorState true in
  let e := mkWheel (-1) 100 100 in
  t_scale (transform (handleWheel desktopEnv e s))
  <> clampScale (t_scale (transform s)
                 * exp (- Math_sign (w_deltaY e) * (15 / 100))).
Proof.
  simpl. rewrite Math_sign_neg by lra.
  replace (1 * exp (- -1 * (15 / 100))) with (exp (15 / 100))
    by (replace (- -1 * (15 / 100)) with (15 / 100) by lra; lra).
  pose proof exp_step_bounds as [Hlo Hhi].
  rewrite clampScale_id by (unfold inScaleRange; lra). lra.
Qed.

(** C1, amended.  A wheel event is ignored while a background is being
    generated, while the generation dialog is open, and while the viewport
    element is not mounted.  Otherwise the new scale is the old scale
    times [exp(-sign(deltaY) * 0.15)], clamped to [0.05, 20]; the world
    point that was under the pointer is under the pointer after the zoom;
    and for deltaY < 0 at viewport point (100, 100) with scale 1 and
    translate (0, 0) the result is scale [exp(0.15)] and translate
    [100 - 100 * exp(0.15)] on both axes. *)
Theorem handleWheel_zoom (env : Env) (e : WheelEvent) (s : AppState) :
  (isGenerating s || showGenModal s = true \/ viewportRect env = None ->
   handleWheel env e s = s)
  /\ forall r : DOMRect,
       isGenerating s = false -> showGenModal s = false ->
       viewportRect env = Some r ->
       let t := transform s in
       let t' := transform (handleWheel env e s) in
       let mouse :=
         mkPoint (w_clientX e - rect_left r) (w_clientY e - rect_top r) in
       t_scale t'
       = clampScale (t_scale t * exp (- Math_sign (w_deltaY e) * (15 / 100)))
       /\ inScaleRange (t_scale t')
       /\ screenOfWorld t' (worldOfScreen t mouse) = mouse
       /\ (t_scale t <> 0 -> screenOfWorld t (worldOfScreen t mouse) = mouse)
       /\ (w_deltaY e < 0 -> mouse = mkPoint 100 100 ->
           t = mkTransform 0 0 1 ->
           t' = mkTransform (100 - 100 * exp (15 / 100))
                            (100 - 100 * exp (15 / 100))
                            (exp (15 / 100))).
Proof.
  split.
  - intros [Hgate | Hrect]; unfold handleWheel.
    + rewrite Hgate. reflexivity.
    + rewrite Hrect. destruct (isGenerating s || showGenModal s); reflexivity.
  - intros r Hgen Hmodal Hrect t t' mouse.
    assert (Ht' :
      t' = mkTransform
             (px mouse - px (worldOfScreen t mouse)
                         * clampScale (t_scale t
                             * exp (- Math_sign (w_deltaY e) * ZOOM_SPEED)))
             (py mouse - py (worldOfScreen t mouse)
                         * clampScale (t_scale t
                             * exp (- Math_sign (w_deltaY e) * ZOOM_SPEED)))
             (clampScale (t_scale t
                          * exp (- Math_sign (w_deltaY e) * ZOOM_SPEED)))).
    { subst t'. unfold handleWheel. rewrite Hgen, Hmodal, Hrect. reflexivity. }
    unfold ZOOM_SPEED in Ht'.
    split; [ | split; [ | split; [ | split ] ] ].
    + rewrite Ht'. reflexivity.
    + rewrite Ht'. apply clampScale_range.
    + rewrite Ht'. subst mouse. unfold screenOfWorld, worldOfScreen. simpl.
      f_equal; ring.
    + apply screenOfWorld_worldOfScreen.
    + intros Hneg Hmouse Ht. rewrite Ht'. rewrite Hmouse, Ht.
      rewrite Math_sign_neg by exact Hneg. simpl.
      replace (1 * exp (- -1 * (15 / 100))) with (exp (15 / 100))
        by (replace (- -1 * (15 / 100)) with (15 / 100) by lra; lra).
      pose proof exp_step_bounds as [Hlo Hhi].
      rewrite clampScale_id by (unfold inScaleRange; lra).
      f_equal; field.
Qed.

Lemma handleWheel_zoom_witness :
  t_scale (transform (handleWheel desktopEnv (mkWheel (-1) 100 100)
                                  (editorState false)))
  = exp (15 / 100).
Proof.
  destruct (handleWheel_zoom desktopEnv (mkWheel (-1) 100 100)
                             (editorState false)) as [_ H].
  destruct (H (mkRect 0 0 1000 1000) eq_refl eq_refl eq_refl)
    as (_ & _ & _ & _ & Hscen).
  rewrite Hscen.
  - reflexivity.
  - simpl. lra.
  - simpl. f_equal; lra.
  - reflexivity.
Defined.

(** ** The pointer map *)

Lemma pm_set_size_has (id : Z) (p : Point) (m : PointerMap) :
  pm_has id m = true -> pm_size (pm_set id p m) = pm_size m.
Proof.
  unfold pm_size. induction m as [ | [k v] m IH]; simpl.
  - discriminate.
  - destruct (Z.eqb k id); simpl; [reflexivity | ].
    intro H. rewrite IH by exact H. reflexivity.
Qed.

Lemma pm_set_nonempty (id : Z) (p : Point) (m : PointerMap) :
  pm_set id p m <> [].
Proof.
  destruct m as [ | [k v] m]; simpl; [discriminate | ].
  destruct (Z.eqb k id); discriminate.
Qed.

(** ** The centroid *)

Lemma fold_left_Rsum {A : Type} (f : A -> R) (l : list A) (a : R) :
  fold_left (fun acc p => acc + f p) l a = a + Rsum (map f l).
Proof.
  revert a. induction l as [ | x l IH]; intro a; simpl.
  - lra.
  - rewrite IH. lra.
Qed.

Lemma Math_hypot_0 : Math_hypot 0 0 = 0.
Proof.
  unfold Math_hypot. replace (0 * 0 + 0 * 0) with 0 by ring. exact sqrt_0.
Qed.

Lemma getCentroid_center (pts : list Point) :
  center (getCentroid pts) = centroidOf pts.
Proof.
  unfold getCentroid, centroidOf. simpl.
  rewrite !fold_left_Rsum. f_equal; f_equal; lra.
Qed.

Lemma getCentroid_distance (pts : list Point) :
  distance (getCentroid pts) = meanDistanceFrom (centroidOf pts) pts.
Proof.
  unfold getCentroid, meanDistanceFrom, centroidOf. cbn [distance px py].
  rewrite (fold_left_Rsum px), (fold_left_Rsum py).
  replace (0 + Rsum (map px pts)) with (Rsum (map px pts)) by lra.
  replace (0 + Rsum (map py pts)) with (Rsum (map py pts)) by lra.
  destruct pts as [ | p [ | q pts]].
  - simpl. unfold Rdiv. rewrite Rmult_0_l. reflexivity.
  - simpl.
    replace (px p - (px p + 0) / 1) with 0 by field.
    replace (py p - (py p + 0) / 1) with 0 by field.
    rewrite Math_hypot_0. field.
  - replace (Nat.ltb 1 (List.length (p :: q :: pts))) with true by reflexivity.
    rewrite fold_left_Rsum. f_equal. lra.
Qed.


Lemma updateGestureStart_baseline (s : AppState) :
  gestureStartRef (updateGestureStart s)
  = baselineOf (transform s) (pointersRef s).
Proof.
  unfold updateGestureStart, baselineOf, pm_size.
  destruct (pointersRef s); reflexivity.
Qed.

(** The camera a pointer move produces when it is not left to the
    drawing path. *)
Lemma handlePointerMove_pinch (env : Env) (e : PointerEvent) (s : AppState)
  (g : Gesture) :
  pm_has (pointerId e) (pointersRef s) = true ->
  gestureStartRef s = Some g ->
  (2 <= pm_size (pointersRef s))%nat ->
  t_scale (transform (handlePointerMove env e s))
  = clampScale
      (if Rlt_dec 0 (g_distance g)
       then t_scale (g_transform g)
            * (distance
                 (getCentroid
                    (pm_values
                       (pm_set (pointerId e)
                               (mkPoint (clientX e) (clientY e))
                               (pointersRef s))))
               / g_distance g)
       else t_scale (g_transform g)).
Proof.
  intros Hhas Hg Hsize. unfold handlePointerMove. rewrite Hhas. simpl.
  rewrite Hg. rewrite (pm_set_size_has _ _ _ Hhas).
  destruct (pm_size (pointersRef s)) as [ | [ | n]] eqn:Hn; [lia | lia | ].
  simpl. destruct (Rlt_dec 0 (g_distance g)); reflexivity.
Qed.



Lemma Rsum_map_const {A : Type} (f : A -> R) (a : A) (l : list A) :
  Forall (fun b => b = a) l -> Rsum (map f l) = INR (List.length l) * f a.
Proof.
  induction 1 as [ | b l Hb _ IH].
  - simpl. ring.
  - cbn [List.length map Rsum fold_right]. fold (Rsum (map f l)).
    rewrite IH, Hb, S_INR. ring.
Qed.

Lemma getCentroid_coincident (p : Point) (pts : list Point) :
  Forall (fun q => q = p) pts -> distance (getCentroid pts) = 0.
Proof.
  intro Hall. rewrite getCentroid_distance.
  destruct pts as [ | q pts].
  - unfold meanDistanceFrom. simpl. unfold Rdiv. apply Rmult_0_l.
  - assert (Hn : INR (List.length (q :: pts)) <> 0)
      by (apply not_0_INR; discriminate).
    assert (Hc : centroidOf (q :: pts) = p).
    { unfold centroidOf.
      rewrite (Rsum_map_const px p), (Rsum_map_const py p) by exact Hall.
      destruct p as [x y]. simpl px. simpl py. f_equal; field; exact Hn. }
    rewrite Hc. unfold meanDistanceFrom.
    rewrite (Rsum_map_const
               (fun r => Math_hypot (px r - px p) (py r - py p)) p)
      by exact Hall.
    replace (px p - px p) with 0 by ring.
    replace (py p - py p) with 0 by ring.
    rewrite Math_hypot_0. unfold Rdiv. ring.
Qed.

(** C10.  On a pinch move whose baseline has mean distance exactly 0 the
    new scale is the baseline scale, clamped: the quotient by the baseline
    distance is not taken, and where the pointers are now plays no part.
    A baseline has mean distance 0 when its pointers coincide, and when it
    was taken with one pointer. *)
Theorem pinch_zero_baseline_keeps_scale :
  (forall (env : Env) (e : PointerEvent) (s : AppState) (g : Gesture),
     pm_has (pointerId e) (pointersRef s) = true ->
     gestureStartRef s = Some g ->
     (2 <= pm_size (pointersRef s))%nat ->
     g_distance g = 0 ->
     t_scale (transform (handlePointerMove env e s))
     = clampScale (t_scale (g_transform g)))
  /\ (forall (p : Point) (pts : list Point),
        Forall (fun q => q = p) pts -> distance (getCentroid pts) = 0)
  /\ (forall (t : Transform) (id : Z) (p : Point),
        option_map g_distance (baselineOf t [(id, p)]) = Some 0).
Proof.
  split; [ | split].
  - intros env e s g Hhas Hg Hsize Hzero.
    rewrite (handlePointerMove_pinch env e s g Hhas Hg Hsize).
    destruct (Rlt_dec 0 (g_distance g)) as [Hpos | _]; [lra | reflexivity].
  - exact getCentroid_coincident.
  - intros t id p. reflexivity.
Qed.

Lemma pinch_zero_baseline_keeps_scale_witness :
  t_scale (transform
             (handlePointerMove desktopEnv (mkPointerEvent 2 9 9 false)
                                coincidentState))
  = clampScale 2.
Proof.
  destruct pinch_zero_baseline_keeps_scale as [H _].
  apply (H desktopEnv (mkPointerEvent 2 9 9 false) coincidentState
           (mkGesture (mkTransform 0 0 2) (mkPoint 5 5) 0)).
  - reflexivity.
  - reflexivity.
  - simpl. lia.
  - reflexivity.
Defined.

(** ** The range of the camera scale *)

(** C3, as stated, fails: fitting an 8000 x 6000 canvas into a
    390 x 844 window gives the scale (390 - 48) / 8000, below 0.05. *)
Lemma fitToScreen_scale_below_range :
  ~ inScaleRange
      (t_scale (transform (handleFitToScreen phoneEnv photoState))).
Proof.
  unfold inScaleRange. simpl. intros [Hlo _].
  pose proof (Rmin_l (Rmin ((390 - 48) / 8000) ((844 - 140) / 6000)) 1).
  pose proof (Rmin_l ((390 - 48) / 8000) ((844 - 140) / 6000)).
  lra.
Qed.

Lemma handlePointerMove_transform (env : Env) (e : PointerEvent)
  (s : AppState) :
  transform (handlePointerMove env e s) = transform s
  \/ inScaleRange (t_scale (transform (handlePointerMove env e s))).
Proof.
  unfold handlePointerMove.
  destruct (pm_has (pointerId e) (pointersRef s)); simpl; [ | left; reflexivity].
  destruct (gestureStartRef s) as [g | ]; simpl; [ | left; reflexivity].
  destruct (Nat.eqb _ 1 && _); simpl; [left; reflexivity | ].
  right. apply clampScale_range.
Qed.

Lemma handlePointerDown_transform (env : Env) (e : PointerEvent)
  (s : AppState) :
  transform (handlePointerDown env e s) = transform s
  \/ t_scale (transform (handlePointerDown env e s)) = 1
  \/ transform (handlePointerDown env e s)
     = transform (handleFitToScreen env s).
Proof.
  unfold handlePointerDown.
  set (s1 := setPointers _ s).
  assert (H2 : transform (updateGestureStart s1) = transform s).
  { unfold updateGestureStart.
    destruct (Nat.eqb (pm_size (pointersRef s1)) 0); reflexivity. }
  assert (Hc : canvasSize (updateGestureStart s1) = canvasSize s).
  { unfold updateGestureStart.
    destruct (Nat.eqb (pm_size (pointersRef s1)) 0); reflexivity. }
  destruct (Nat.eqb (pm_size (pointersRef (updateGestureStart s1))) 1);
    [ | left; exact H2].
  destruct (Z.ltb _ 300); [ | left; exact H2].
  destruct (Rlt_dec _ 1).
  - destruct (viewportRect env); [right; left; reflexivity | left; exact H2].
  - right. right. unfold handleFitToScreen, centerImage. simpl.
    rewrite Hc. reflexivity.
Qed.

(** C3, amended.  Wheel zoom and pinch leave the camera as it is or give
    a scale in [0.05, 20].  A pointer-down leaves the camera as it is, or
    (double tap below 100%) sets the scale to 1, or (double tap otherwise)
    fits to screen.  Zoom-in gives min(scale * 1.25, 20), which is at most
    20 and at least 0.05 when the scale was; zoom-out gives
    max(scale * 0.8, 0.05), which is at least 0.05 and at most 20 when the
    scale was.  Center-view keeps the scale.  Fit-to-screen gives
    min(availableWidth / width, availableHeight / height, 1), at most 1
    and with no lower bound; the upscale path divides the scale by the
    size ratio, with no clamp. *)
Theorem camera_scale_bounds :
  (forall env e s,
     transform (handleWheel env e s) = transform s
     \/ inScaleRange (t_scale (transform (handleWheel env e s))))
  /\ (forall env e s,
        transform (handlePointerMove env e s) = transform s
        \/ inScaleRange (t_scale (transform (handlePointerMove env e s))))
  /\ (forall env e s,
        transform (handlePointerDown env e s) = transform s
        \/ t_scale (transform (handlePointerDown env e s)) = 1
        \/ transform (handlePointerDown env e s)
           = transform (handleFitToScreen env s))
  /\ (forall s,
        let k := t_scale (transform (handleZoomIn s)) in
        k = Rmin (t_scale (transform s) * (125 / 100)) 20
        /\ k <= 20
        /\ (5 / 100 <= t_scale (transform s) -> 5 / 100 <= k))
  /\ (forall s,
        let k := t_scale (transform (handleZoomOut s)) in
        k = Rmax (t_scale (transform s) * (8 / 10)) (5 / 100)
        /\ 5 / 100 <= k
        /\ (t_scale (transform s) <= 20 -> k <= 20))
  /\ (forall env s,
        t_scale (transform (handleCenterView env s)) = t_scale (transform s))
  /\ (forall env s,
        let k := t_scale (transform (handleFitToScreen env s)) in
        k = Rmin (Rmin ((innerWidth env - 48) / sz_width (canvasSize s))
                       ((innerHeight env - 140) / sz_height (canvasSize s)))
                 1
        /\ k <= 1)
  /\ (forall img newImg s,
        t_scale (transform (upscale_onload Layer1 img newImg s))
        = t_scale (transform s) / (img_width newImg / img_width img)).
Proof.
  repeat match goal with |- _ /\ _ => split end.
  - intros env e s. unfold handleWheel.
    destruct (isGenerating s || showGenModal s); [left; reflexivity | ].
    destruct (viewportRect env); [ | left; reflexivity].
    right. apply clampScale_range.
  - exact handlePointerMove_transform.
  - exact handlePointerDown_transform.
  - intros s k. subst k. simpl. split; [reflexivity | split].
    + apply Rmin_r.
    + intro H. apply Rmin_glb; lra.
  - intros s k. subst k. simpl. split; [reflexivity | split].
    + apply Rmax_r.
    + intro H. apply Rmax_lub; lra.
  - intros env s. reflexivity.
  - intros env s k. subst k. simpl. split; [reflexivity | apply Rmin_r].
  - intros img newImg s. reflexivity.
Qed.

Lemma camera_scale_bounds_witness :
  5 / 100 <= t_scale (transform (handleZoomIn (editorState false))) <= 20.
Proof.
  destruct camera_scale_bounds as (_ & _ & _ & Hin & _).
  destruct (Hin (editorState false)) as (_ & Hhi & Hlo).
  split; [apply Hlo; simpl; lra | exact Hhi].
Defined.

(** ** The history stack *)

Lemma nth_last_app {A : Type} (l : list A) (a d : A) :
  nth (List.length (l ++ [a]) - 1) (l ++ [a]) d = a.
Proof.
  rewrite length_app. simpl. replace (List.length l + 1 - 1)%nat
    with (List.length l) by lia.
  induction l as [ | x l IH]; simpl; [reflexivity | exact IH].
Qed.

Lemma firstn_last_app {A : Type} (l : list A) (a : A) :
  firstn (List.length (l ++ [a]) - 1) (l ++ [a]) = l.
Proof.
  rewrite length_app. simpl. replace (List.length l + 1 - 1)%nat
    with (List.length l) by lia.
  induction l as [ | x l IH]; simpl; [reflexivity | rewrite IH; reflexivity].
Qed.

Lemma undo_snoc (s : AppState) (p : list MaskConfig) (c : MaskConfig) :
  past s = p ++ [c] ->
  undo s
  = setPast p (setMaskConfig c (setFuture (maskConfig s :: future s) s)).
Proof.
  intro H. unfold undo. rewrite H.
  rewrite nth_last_app, firstn_last_app.
  destruct (Nat.eqb (List.length (p ++ [c])) 0) eqn:E; [ | reflexivity].
  apply Nat.eqb_eq in E. rewrite length_app in E. simpl in E. lia.
Qed.

(** The three operations of the history as list operations, over
    configuration values.  [checkpoint] ([saveHistory]) appends the live
    configuration to [past] and empties [future].  [undo] on an empty
    [past] changes nothing; otherwise the last entry of [past] becomes the
    live configuration, leaves [past], and the configuration that was live
    goes to the front of [future].  [redo] on an empty [future] changes
    nothing; otherwise the first entry of [future] becomes the live
    configuration, leaves [future], and the configuration that was live is
    appended to [past].  After a checkpoint at A and a replacement of the
    live configuration by B, [undo] gives back A and the [past] of before
    the checkpoint, and [redo] after it gives back B.  This is the history
    as long as no one writes into a configuration that a checkpoint
    holds: the three functions never do, a brush pointer-move does. *)
Theorem history_undo_redo :
  (forall s,
     past (saveHistory s) = past s ++ [maskConfig s]
     /\ future (saveHistory s) = []
     /\ maskConfig (saveHistory s) = maskConfig s)
  /\ (forall s, past s = [] -> undo s = s)
  /\ (forall s p c,
        past s = p ++ [c] ->
        maskConfig (undo s) = c
        /\ past (undo s) = p
        /\ future (undo s) = maskConfig s :: future s)
  /\ (forall s, future s = [] -> redo s = s)
  /\ (forall s c f,
        future s = c :: f ->
        maskConfig (redo s) = c
        /\ future (redo s) = f
        /\ past (redo s) = past s ++ [maskConfig s])
  /\ (forall s B,
        let s1 := setMaskConfig B (saveHistory s) in
        maskConfig (undo s1) = maskConfig s
        /\ past (undo s1) = past s
        /\ future (undo s1) = [B]
        /\ maskConfig (redo (undo s1)) = B
        /\ past (redo (undo s1)) = past s ++ [maskConfig s]
        /\ future (redo (undo s1)) = []).
Proof.
  repeat match goal with |- _ /\ _ => split end.
  - intro s. repeat split.
  - intros s H. unfold undo. rewrite H. reflexivity.
  - intros s p c H. rewrite (undo_snoc s p c H). repeat split.
  - intros s H. unfold redo. rewrite H. reflexivity.
  - intros s c f H. unfold redo. rewrite H. repeat split.
  - intros s B s1.
    assert (Hu : undo s1
                 = setPast (past s)
                     (setMaskConfig (maskConfig s) (setFuture [B] s1))).
    { apply (undo_snoc s1 (past s) (maskConfig s)). reflexivity. }
    rewrite Hu. repeat split.
Qed.

Lemma history_undo_redo_witness :
  maskConfig (undo (setMaskConfig brushConfig (saveHistory strokedState)))
  = strokedConfig.
Proof.
  destruct history_undo_redo as (_ & _ & Hundo & _).
  destruct (Hundo (setMaskConfig brushConfig (saveHistory strokedState))
                  [] strokedConfig eq_refl) as (H & _).
  exact H.
Defined.

(** C4.  The code does not give what the claim's last sentence asks.
    [checkpoint] records the live configuration object itself, and the
    pointer-move of a brush drag copies the list of strokes but pushes the
    new point into the last stroke array in place.  In Brush mode, with
    one finished stroke: pointer-down at (10, 10); a checkpoint while the
    pointer is down (a finger on the brush-size slider), which records A,
    whose strokes are the finished one and [(10, 10)]; pointer-move to
    (30, 25), which makes the live configuration B, with last stroke
    [(10, 10); (30, 25)].  The array of A's last stroke is the array the
    move wrote into: [undo] gives B, not A. *)
Theorem history_undo_shared_stroke :
  let o1 :=
    Objects.handlePointerDown (Some canvasElement) primaryDown brushObjects in
  let o2 := Objects.saveHistory o1 in
  let o3 :=
    Objects.handlePointerMove (Some canvasElement) 800 600 moveTo30 o2 in
  let A := Objects.view (Objects.heap o2) (Objects.maskConfig o2) in
  let B := Objects.view (Objects.heap o3) (Objects.maskConfig o3) in
  let restored :=
    Objects.view (Objects.heap (Objects.undo o3))
                 (Objects.maskConfig (Objects.undo o3)) in
  mc_brushPoints A = [[mkPoint 1 2; mkPoint 3 4]; [mkPoint 10 10]]
  /\ mc_brushPoints B
     = [[mkPoint 1 2; mkPoint 3 4]; [mkPoint 10 10; mkPoint 30 25]]
  /\ Objects.past o3 = Objects.past o1 ++ [Objects.maskConfig o2]
  /\ restored = B
  /\ restored <> A.
Proof.
  assert (H10 : CanvasLayer.getPos (Some canvasElement) primaryDown
                = mkPoint 10 10).
  { unfold CanvasLayer.getPos. simpl. f_equal; field. }
  assert (H30 : CanvasLayer.getPos (Some canvasElement) moveTo30
                = mkPoint 30 25).
  { unfold CanvasLayer.getPos. simpl. f_equal; field. }
  cbv zeta.
  unfold Objects.handlePointerDown, Objects.handlePointerMove,
    Objects.saveHistory, Objects.undo.
  cbn -[CanvasLayer.getPos]. rewrite H10, H30.
  split; [reflexivity | ]. split; [reflexivity | ].
  split; [reflexivity | ]. split; [reflexivity | ].
  intro H. apply (f_equal mc_brushPoints) in H. cbn in H. discriminate H.
Qed.

(** ** Selecting a tool *)

(** C5, as stated, fails: selecting Pen over a configuration that holds
    a stroke empties the strokes. *)
Lemma onSelectMask_pen_clears_strokes :
  mc_brushPoints (maskConfig (onSelectMask PEN strokedState))
  <> mc_brushPoints (maskConfig strokedState).
Proof. simpl. discriminate. Qed.

(** C5, amended.  Selecting Brush or Pen sets the mode to the tool and
    the shape to None, empties the strokes and resets position to
    (0.5, 0.5), scale to 0.4 and rotation to 0; text, font size, brush
    size and opacity are untouched.  Selecting Pan changes the mode and
    nothing else: shape, position, scale, rotation, strokes and every
    other field are as before. *)
Theorem onSelectMask_frame :
  (forall type s,
     type = BRUSH \/ type = PEN ->
     let c := maskConfig s in
     let c' := maskConfig (onSelectMask type s) in
     mc_type c' = type /\ mc_shape c' = NONE
     /\ mc_brushPoints c' = []
     /\ mc_x c' = 5 / 10 /\ mc_y c' = 5 / 10
     /\ mc_scale c' = 4 / 10 /\ mc_rotation c' = 0
     /\ mc_text c' = mc_text c /\ mc_fontSize c' = mc_fontSize c
     /\ mc_brushSize c' = mc_brushSize c /\ mc_opacity c' = mc_opacity c)
  /\ (forall s,
        let c := maskConfig s in
        maskConfig (onSelectMask HAND s)
        = mkMaskConfig HAND (mc_shape c) (mc_x c) (mc_y c) (mc_scale c)
            (mc_rotation c) (mc_text c) (mc_fontSize c) (mc_brushPoints c)
            (mc_brushSize c) (mc_opacity c)).
Proof.
  split.
  - intros type s [-> | ->] c c'; subst c c'; simpl; repeat split.
  - intros s c. reflexivity.
Qed.

Lemma onSelectMask_frame_witness :
  mc_type (maskConfig (onSelectMask PEN strokedState)) = PEN.
Proof.
  destruct onSelectMask_frame as [H _].
  destruct (H PEN strokedState (or_intror eq_refl)) as (Htype & _).
  exact Htype.
Defined.

(** ** Upscaling the foreground *)

Lemma Forall2_map_r {A B : Type} (P : A -> B -> Prop) (f : A -> B)
  (l : list A) :
  (forall a, P a (f a)) -> Forall2 P l (map f l).
Proof.
  intro H. induction l as [ | a l IH]; simpl; constructor; auto.
Qed.

(** C6.  When the upscale of the foreground succeeds, with
    r = newWidth / oldWidth ([oldWidth] the width of the foreground the
    upscale was started on), the configuration that is live at that
    moment gets fontSize and brushSize times r and every coordinate of
    every stroke point times r, its other fields unchanged, and the camera
    scale is divided by r. *)
Theorem upscale_rescales_mask (s0 s1 s : AppState) (img newImg : Image) :
  handleUpscaleLayer_begin Layer1 s0 = Some (img, s1) ->
  let r := img_width newImg / img_width img in
  let s' := handleUpscaleLayer_resume Layer1 img (UpscaleLoaded newImg) s in
  let c := maskConfig s in
  let c' := maskConfig s' in
  img1 s0 = Some img
  /\ mc_fontSize c' = mc_fontSize c * r
  /\ mc_brushSize c' = mc_brushSize c * r
  /\ Forall2
       (Forall2 (fun p p' => px p' = px p * r /\ py p' = py p * r))
       (mc_brushPoints c) (mc_brushPoints c')
  /\ t_scale (transform s') = t_scale (transform s) / r
  /\ mc_type c' = mc_type c /\ mc_shape c' = mc_shape c
  /\ mc_x c' = mc_x c /\ mc_y c' = mc_y c /\ mc_scale c' = mc_scale c
  /\ mc_rotation c' = mc_rotation c /\ mc_text c' = mc_text c
  /\ mc_opacity c' = mc_opacity c.
Proof.
  intros Hbegin r s' c c'. split.
  - unfold handleUpscaleLayer_begin in Hbegin. simpl in Hbegin.
    destruct (img1 s0) as [i | ]; [ | discriminate].
    injection Hbegin as -> _. reflexivity.
  - subst c' s' c r. simpl. repeat split.
    apply Forall2_map_r. intro stroke. apply Forall2_map_r.
    intro p. simpl. split; reflexivity.
Qed.

Lemma upscale_rescales_mask_witness :
  mc_brushSize
    (maskConfig
       (handleUpscaleLayer_resume Layer1 smallImage
          (UpscaleLoaded largeImage) loadedState))
  = 20 * (200 / 100).
Proof.
  destruct (upscale_rescales_mask loadedState
              (setUpscalingLayer (Some Layer1) loadedState) loadedState
              smallImage largeImage eq_refl) as (_ & _ & H & _).
  exact H.
Defined.

(** ** Pointer-down on the drawing path *)

(** C7, as stated, fails: the stroke that a pointer-down appends in Brush
    mode is not empty, it holds the position of the pointer. *)
Lemma pointerDown_new_stroke_not_empty :
  let effs :=
    snd (CanvasLayer.handlePointerDown (Some canvasElement) brushProps
           primaryDown idle) in
  last (mc_brushPoints (maskConfig (runEffects effs brushState))) [] <> [].
Proof. simpl. discriminate. Qed.

(** C7, amended.  On a primary pointer-down while the mode is not Pan,
    the handler calls the checkpoint callback before it calls the
    configuration callback, so [past] gains the configuration of before
    the event and [future] is emptied.  In Brush or Pen mode one stroke is
    appended to the strokes, which grow by exactly one; the new stroke
    holds one point, the position of the pointer in canvas pixels.  In
    every other mode the configuration is left as it is. *)
Theorem pointerDown_checkpoint_and_stroke
  (canvas : option CanvasLayer.CanvasElement) (props : CanvasLayer.Props)
  (e : PointerEvent) (st : CanvasLayer.State) (s : AppState) :
  mc_type (CanvasLayer.p_maskConfig props) <> HAND ->
  isPrimary e = true ->
  maskConfig s = CanvasLayer.p_maskConfig props ->
  let effs := snd (CanvasLayer.handlePointerDown canvas props e st) in
  let st' := fst (CanvasLayer.handlePointerDown canvas props e st) in
  let pos := CanvasLayer.getPos canvas e in
  let s' := runEffects effs s in
  let c := maskConfig s in
  let c' := maskConfig s' in
  effs = CanvasLayer.SetPointerCapture (pointerId e)
           :: CanvasLayer.OnHistorySave :: skipn 2 effs
  /\ (skipn 2 effs = []
      \/ exists k, skipn 2 effs = [CanvasLayer.OnUpdateMaskConfig k])
  /\ past s' = past s ++ [c] /\ future s' = []
  /\ CanvasLayer.isDragging st' = true /\ CanvasLayer.lastPos st' = pos
  /\ (mc_type c = BRUSH \/ mc_type c = PEN ->
      mc_brushPoints c' = mc_brushPoints c ++ [[pos]]
      /\ List.length (mc_brushPoints c') = S (List.length (mc_brushPoints c))
      /\ c' = CanvasLayer.withBrushPoints c (mc_brushPoints c'))
  /\ (mc_type c <> BRUSH -> mc_type c <> PEN -> c' = c).
Proof.
  intros Hhand Hprim Hcfg effs st' pos s' c c'.
  subst effs st' s' c c' pos. rewrite Hcfg.
  unfold CanvasLayer.handlePointerDown. rewrite Hprim. simpl.
  destruct (mc_type (CanvasLayer.p_maskConfig props)) eqn:Ht;
    try contradiction; simpl; rewrite ?Hcfg;
    (split; [reflexivity | ]);
    (split; [first [left; reflexivity | right; eexists; reflexivity] | ]);
    (split; [reflexivity | ]); (split; [reflexivity | ]);
    (split; [reflexivity | ]); (split; [reflexivity | ]);
    split;
    try (intros [H | H]; discriminate H);
    try (intros H1 H2; first [reflexivity | contradiction]).
  - intros _. split; [reflexivity | split].
    + rewrite length_app. simpl. lia.
    + reflexivity.
  - intros _. split; [reflexivity | split].
    + rewrite length_app. simpl. lia.
    + reflexivity.
Qed.

Lemma pointerDown_checkpoint_and_stroke_witness :
  past (runEffects
          (snd (CanvasLayer.handlePointerDown (Some canvasElement) brushProps
                  primaryDown idle))
          brushState)
  = [brushConfig].
Proof.
  assert (Hh : mc_type (CanvasLayer.p_maskConfig brushProps) <> HAND)
    by (simpl; discriminate).
  destruct (pointerDown_checkpoint_and_stroke (Some canvasElement)
              brushProps primaryDown idle brushState
              Hh eq_refl eq_refl) as (_ & _ & H & _).
  exact H.
Defined.

(** ** The stroke rasterizer *)

Section Strokes.

Context {Pixel : Type}.

Lemma skipn_length_app {A : Type} (a l : list A) :
  skipn (List.length a) (a ++ l) = l.
Proof. induction a as [ | x a IH]; simpl; [reflexivity | exact IH]. Qed.

Lemma paintedSince_app (c c' : Ctx Pixel) (l : list (Op Pixel)) :
  ops c' = ops c ++ l -> paintedSince c c' = l.
Proof.
  intro H. unfold paintedSince. rewrite H. apply skipn_length_app.
Qed.

Lemma lineTo_fold (pts : list Point) (c : Ctx Pixel) :
  fold_left (fun ctx p => lineTo (px p) (py p) ctx) pts c
  = mkCtx (ds c) (saved c)
          (path c ++ map (fun p => (ctm (ds c), SegLineTo (px p) (py p))) pts)
          (ops c).
Proof.
  revert c. induction pts as [ | p pts IH]; intro c; simpl.
  - rewrite app_nil_r. destruct c; reflexivity.
  - rewrite IH. unfold lineTo, addSeg. simpl.
    rewrite <- app_assoc. reflexivity.
Qed.

Lemma drawStroke_spec (c : Ctx Pixel) (pts : list Point) :
  ds (drawStroke c pts) = ds c
  /\ saved (drawStroke c pts) = saved c
  /\ ops (drawStroke c pts)
     = ops c ++ (if nonEmpty pts then [strokeOp (ds c) pts] else []).
Proof.
  destruct pts as [ | p0 rest].
  - simpl. rewrite app_nil_r. repeat split.
  - unfold drawStroke. rewrite lineTo_fold. repeat split.
Qed.

Lemma drawStroke_fold (strokes : list (list Point)) (c : Ctx Pixel) :
  ds (fold_left drawStroke strokes c) = ds c
  /\ saved (fold_left drawStroke strokes c) = saved c
  /\ ops (fold_left drawStroke strokes c)
     = ops c ++ map (strokeOp (ds c)) (filter nonEmpty strokes).
Proof.
  revert c. induction strokes as [ | pts strokes IH]; intro c; simpl.
  - rewrite app_nil_r. repeat split.
  - destruct (IH (drawStroke c pts)) as (Hd & Hs & Ho).
    destruct (drawStroke_spec c pts) as (Hd1 & Hs1 & Ho1).
    rewrite Hd, Hs, Ho, Hd1, Hs1, Ho1.
    split; [reflexivity | split; [reflexivity | ]].
    destruct (nonEmpty pts); simpl; rewrite <- app_assoc; reflexivity.
Qed.

(** What [drawMaskShape] paints in the Pen and Brush cases: one stroke for
    every stroke of the list that has a point, in order, under the width
    that the assignment to [lineWidth] left. *)
Lemma drawMaskShape_brush_ops (c : Ctx Pixel) (type : MaskType)
  (width height : R) (text : string) (fontSize : R)
  (brushPoints : list (list Point)) (brushSize : R) :
  type = BRUSH \/ type = PEN ->
  let size := if MaskType_eqb type PEN then 4 else brushSize in
  let d := whiteRound (ds c) in
  paintedSince c (drawMaskShape c type width height text fontSize
                                brushPoints brushSize)
  = map (strokeOp (if Rlt_dec 0 size then ds_lineWidth size d else d))
        (filter nonEmpty brushPoints).
Proof.
  intros Ht size d. apply paintedSince_app.
  assert (H : drawMaskShape c type width height text fontSize brushPoints
                            brushSize
              = fold_left drawStroke brushPoints
                  (set_lineWidth size
                     (set_lineJoin "round"
                        (set_lineCap "round"
                           (set_strokeStyle "#FFFFFF"
                              (set_fillStyle "#FFFFFF" c)))))).
  { destruct Ht as [-> | ->]; reflexivity. }
  rewrite H.
  match goal with
  | |- ops (fold_left drawStroke _ ?c0) = _ =>
      destruct (drawStroke_fold brushPoints c0) as (_ & _ & Ho)
  end.
  rewrite Ho. unfold set_lineWidth.
  destruct (Rlt_dec 0 size); reflexivity.
Qed.

End Strokes.

(** C8.  In the Pen case every stroke that the rasterizer paints is made
    with line width 4, whatever the brush size.  In the Brush case every
    stroke is made with the configured brush size (a positive number: the
    canvas ignores a line width that is not positive).  A stroke without
    points paints nothing and changes nothing; the others are painted
    once each. *)
Theorem drawMaskShape_stroke_width {Pixel : Type} (c : Ctx Pixel)
  (width height : R) (text : string) (fontSize : R)
  (brushPoints : list (list Point)) (brushSize : R) :
  (forall o,
     In o (paintedSince c (drawMaskShape c PEN width height text fontSize
                                         brushPoints brushSize)) ->
     strokeWidthOf o = Some 4)
  /\ (0 < brushSize ->
      forall o,
        In o (paintedSince c (drawMaskShape c BRUSH width height text
                                            fontSize brushPoints brushSize)) ->
        strokeWidthOf o = Some brushSize)
  /\ (forall type,
        type = BRUSH \/ type = PEN ->
        List.length
          (paintedSince c (drawMaskShape c type width height text fontSize
                                         brushPoints brushSize))
        = List.length (filter nonEmpty brushPoints))
  /\ (forall c0 : Ctx Pixel, drawStroke c0 [] = c0)
  /\ (forall type l1 l2,
        type = BRUSH \/ type = PEN ->
        drawMaskShape c type width height text fontSize (l1 ++ [] :: l2)
                      brushSize
        = drawMaskShape c type width height text fontSize (l1 ++ l2)
                        brushSize).
Proof.
  split; [ | split; [ | split; [ | split ] ] ].
  - intros o Hin.
    rewrite (drawMaskShape_brush_ops c PEN) in Hin by (right; reflexivity).
    simpl in Hin. destruct (Rlt_dec 0 4) as [_ | Hn]; [ | lra].
    apply in_map_iff in Hin. destruct Hin as (pts & <- & _). reflexivity.
  - intros Hpos o Hin.
    rewrite (drawMaskShape_brush_ops c BRUSH) in Hin by (left; reflexivity).
    simpl in Hin. destruct (Rlt_dec 0 brushSize) as [_ | Hn];
      [ | contradiction].
    apply in_map_iff in Hin. destruct Hin as (pts & <- & _). reflexivity.
  - intros type Ht. rewrite (drawMaskShape_brush_ops c type) by exact Ht.
    apply length_map.
  - reflexivity.
  - intros type l1 l2 [-> | ->]; simpl;
      rewrite !fold_left_app; reflexivity.
Qed.

Lemma drawMaskShape_stroke_width_witness :
  Forall (fun o : Op bool => strokeWidthOf o = Some 20)
         (paintedSince newCtx
            (drawMaskShape newCtx BRUSH 800 600 "" 0 threeStrokes 20)).
Proof.
  apply Forall_forall.
  destruct (drawMaskShape_stroke_width (@newCtx bool) 800 600 "" 0
              threeStrokes 20) as (_ & H & _).
  apply H. lra.
Defined.

(** ** The compositor *)

Section Compositor.

Context {Pixel : Type} {B : Backend Pixel}.

Lemma bitmapOf_snoc (os : list (Op Pixel)) (o : Op Pixel) (i j : Z) :
  bitmapOf (os ++ [o]) i j = applyOp o (bitmapOf os) i j.
Proof. unfold bitmapOf. rewrite fold_left_app. reflexivity. Qed.

Lemma sameCompositing_refl (d : DrawState) : sameCompositing d d.
Proof. repeat split. Qed.

Lemma sameCompositing_trans (d1 d2 d3 : DrawState) :
  sameCompositing d1 d2 -> sameCompositing d2 d3 -> sameCompositing d1 d3.
Proof.
  intros (A1 & G1 & M1) (A2 & G2 & M2).
  repeat split; etransitivity; eassumption.
Qed.

Lemma sameCompositing_sym (d1 d2 : DrawState) :
  sameCompositing d1 d2 -> sameCompositing d2 d1.
Proof. intros (A1 & G1 & M1). repeat split; symmetry; assumption. Qed.

Section AtPixel.

Variables i j : Z.

Lemma pixelInside_inCanvas (w h : R) :
  CanvasLayer.inCanvas w h i j -> pixelInside 0 0 w h i j = true.
Proof.
  intros (Hx0 & Hx1 & Hy0 & Hy1). unfold pixelInside, Rleb.
  repeat match goal with
         | |- context [Rle_dec ?a ?b] => destruct (Rle_dec a b); [ | lra]
         end.
  reflexivity.
Qed.

Lemma m_is_identity_true : m_is_identity m_identity = true.
Proof.
  unfold m_is_identity, m_identity, Reqb. simpl.
  repeat match goal with
         | |- context [Req_EM_T ?a ?b] =>
             destruct (Req_EM_T a b); [ | contradiction]
         end.
  reflexivity.
Qed.

(** After [clearRect(0, 0, width, height)] a pixel of the canvas is
    transparent, whatever was there. *)
Lemma clearRect_transparent (w h : R) (c : Ctx Pixel) :
  ctm (ds c) = m_identity -> CanvasLayer.inCanvas w h i j ->
  bitmapOf (ops (clearRect 0 0 w h c)) i j = transparent.
Proof.
  intros Hm Hin. unfold clearRect, addOp. cbn [ops].
  rewrite bitmapOf_snoc. unfold applyOp.
  rewrite Hm, m_is_identity_true, (pixelInside_inCanvas w h Hin).
  reflexivity.
Qed.

Lemma clearRect_sim (w h : R) (c1 c2 : Ctx Pixel) :
  ctm (ds c1) = m_identity -> sameCompositing (ds c1) (ds c2) ->
  CanvasLayer.inCanvas w h i j ->
  simAt i j (clearRect 0 0 w h c1) (clearRect 0 0 w h c2).
Proof.
  intros Hm Hs Hin. split; [ | exact Hs].
  unfold samePixel.
  rewrite !clearRect_transparent; try assumption; [reflexivity | ].
  destruct Hs as (_ & _ & <-). exact Hm.
Qed.

Lemma paint_sim (p : Paint Pixel) (c1 c2 : Ctx Pixel) :
  simAt i j c1 c2 -> simAt i j (paint p c1) (paint p c2).
Proof.
  intros [Hp (Ha & Hg & Hm)]. split; [ | repeat split; assumption].
  unfold samePixel, paint, addOp in *. cbn [ops].
  rewrite !bitmapOf_snoc. unfold applyOp.
  rewrite Ha, Hg, Hm, Hp. reflexivity.
Qed.

Lemma set_fillStyle_simF (v : string) (c1 c2 : Ctx Pixel) :
  simAt i j c1 c2 -> simFAt i j (set_fillStyle v c1) (set_fillStyle v c2).
Proof. intros [Hp Hs]. repeat split; try exact Hp; apply Hs. Qed.

Lemma fillRect_simF (x y w h : R) (c1 c2 : Ctx Pixel) :
  simFAt i j c1 c2 -> simFAt i j (fillRect x y w h c1) (fillRect x y w h c2).
Proof.
  intros [Hsim Hf]. split; [ | exact Hf].
  unfold fillRect. rewrite Hf. apply paint_sim. exact Hsim.
Qed.

Lemma checkerCells_simF (kr : nat) (cols : list nat) (c1 c2 : Ctx Pixel) :
  simFAt i j c1 c2 ->
  simFAt i j
    (fold_left
       (fun ctx kc =>
          if Nat.even (kr + kc)
          then fillRect (INR kc * 20) (INR kr * 20) 20 20 ctx else ctx)
       cols c1)
    (fold_left
       (fun ctx kc =>
          if Nat.even (kr + kc)
          then fillRect (INR kc * 20) (INR kr * 20) 20 20 ctx else ctx)
       cols c2).
Proof.
  revert c1 c2. induction cols as [ | kc cols IH]; intros c1 c2 H; simpl.
  - exact H.
  - apply IH. destruct (Nat.even (kr + kc)); [apply fillRect_simF | ]; exact H.
Qed.

Lemma drawCheckerboard_sim (w h : R) (c1 c2 : Ctx Pixel) :
  simAt i j c1 c2 ->
  simAt i j (CanvasLayer.drawCheckerboard w h c1)
      (CanvasLayer.drawCheckerboard w h c2).
Proof.
  intro H. unfold CanvasLayer.drawCheckerboard. cbv zeta.
  assert (H0 : simFAt i j (set_fillStyle "#334155"
                       (fillRect 0 0 w h (set_fillStyle "#1e293b" c1)))
                    (set_fillStyle "#334155"
                       (fillRect 0 0 w h (set_fillStyle "#1e293b" c2)))).
  { apply set_fillStyle_simF. apply fillRect_simF, set_fillStyle_simF, H. }
  revert H0. generalize (set_fillStyle "#334155"
                           (fillRect 0 0 w h (set_fillStyle "#1e293b" c1))).
  generalize (set_fillStyle "#334155"
                (fillRect 0 0 w h (set_fillStyle "#1e293b" c2))).
  generalize (seq 0 (CanvasLayer.loopCount h 20)).
  intro rows. induction rows as [ | kr rows IH]; intros d2 d1 H0; simpl.
  - apply H0.
  - apply IH. apply checkerCells_simF. exact H0.
Qed.

(** The last step of the effect: [save], [globalAlpha], [drawImage],
    [restore]. *)
Lemma composite_layer_samePixel (src : Source Pixel) (v : R)
  (c1 c2 : Ctx Pixel) :
  simAt i j c1 c2 ->
  samePixel i j (restore (drawImageAt src 0 0 (set_globalAlpha v (save c1))))
                (restore (drawImageAt src 0 0 (set_globalAlpha v (save c2)))).
Proof.
  intros [Hp (Ha & Hg & Hm)].
  assert (Hs : simAt i j (set_globalAlpha v (save c1)) (set_globalAlpha v (save c2))).
  { unfold set_globalAlpha.
    destruct (Rle_dec 0 v); [destruct (Rle_dec v 1) | ];
      (split; [exact Hp | repeat split; assumption]). }
  apply (paint_sim (PaintImageAt src 0 0)) in Hs.
  destruct Hs as [Hs _]. unfold samePixel in *. unfold drawImageAt.
  unfold restore.
  destruct (saved (paint (PaintImageAt src 0 0) (set_globalAlpha v (save c1))));
  destruct (saved (paint (PaintImageAt src 0 0) (set_globalAlpha v (save c2))));
    exact Hs.
Qed.

Lemma render_samePixel (dom : CanvasLayer.Dom) (props : CanvasLayer.Props)
  (c1 c2 : Ctx Pixel) :
  ctm (ds c1) = m_identity -> sameCompositing (ds c1) (ds c2) ->
  CanvasLayer.inCanvas (CanvasLayer.width props) (CanvasLayer.height props)
                       i j ->
  samePixel i j (CanvasLayer.render dom props c1)
                (CanvasLayer.render dom props c2).
Proof.
  intros Hm Hs Hin.
  pose proof (clearRect_sim _ _ c1 c2 Hm Hs Hin) as H0.
  unfold CanvasLayer.render. cbv zeta.
  match goal with
  | |- samePixel _ _
         (match _ with None => ?X1 | Some _ => _ end)
         (match _ with None => ?X2 | Some _ => _ end) =>
      assert (Hbg : simAt i j X1 X2)
  end.
  { destruct (CanvasLayer.imgBackground props) as [bg | ].
    - apply paint_sim. exact H0.
    - apply drawCheckerboard_sim. exact H0. }
  destruct (CanvasLayer.imgForeground props) as [fg | ]; [ | apply Hbg].
  destruct (negb (CanvasLayer.maskCtx_ok dom)); [apply Hbg | ].
  destruct (negb (CanvasLayer.layerCtx_ok dom)); [apply Hbg | ].
  apply composite_layer_samePixel. exact Hbg.
Qed.

End AtPixel.

(** A render adds to what was painted, and the first thing it adds is
    the clear. *)
Lemma paintsOnto_refl (c : Ctx Pixel) : paintsOnto c c.
Proof. exists []. symmetry. apply app_nil_r. Qed.

Lemma paintsOnto_trans (c1 c2 c3 : Ctx Pixel) :
  paintsOnto c1 c2 -> paintsOnto c2 c3 -> paintsOnto c1 c3.
Proof.
  intros [l1 H1] [l2 H2]. exists (l1 ++ l2).
  rewrite H2, H1. symmetry. apply app_assoc.
Qed.

Lemma paint_paintsOnto (p : Paint Pixel) (c : Ctx Pixel) :
  paintsOnto c (paint p c).
Proof. eexists. reflexivity. Qed.

Lemma drawCheckerboard_paintsOnto (w h : R) (c : Ctx Pixel) :
  paintsOnto c (CanvasLayer.drawCheckerboard w h c).
Proof.
  unfold CanvasLayer.drawCheckerboard. cbv zeta.
  assert (H0 : paintsOnto c (set_fillStyle "#334155"
                               (fillRect 0 0 w h (set_fillStyle "#1e293b" c))))
    by (eexists; reflexivity).
  revert H0. generalize (set_fillStyle "#334155"
                           (fillRect 0 0 w h (set_fillStyle "#1e293b" c))).
  generalize (seq 0 (CanvasLayer.loopCount h 20)).
  generalize (seq 0 (CanvasLayer.loopCount w 20)).
  intros cols rows. induction rows as [ | kr rows IH]; intros d H0; simpl.
  - exact H0.
  - apply IH. clear IH. revert d H0.
    induction cols as [ | kc cols IHc]; intros d H0; simpl.
    + exact H0.
    + apply IHc. destruct (Nat.even (kr + kc)); [ | exact H0].
      eapply paintsOnto_trans; [exact H0 | apply paint_paintsOnto].
Qed.

Lemma composite_layer_paintsOnto (src : Source Pixel) (v : R)
  (c : Ctx Pixel) :
  paintsOnto c (restore (drawImageAt src 0 0 (set_globalAlpha v (save c)))).
Proof.
  unfold set_globalAlpha.
  destruct (Rle_dec 0 v); [destruct (Rle_dec v 1) | ];
    (eexists; reflexivity).
Qed.

Lemma render_starts_cleared (dom : CanvasLayer.Dom)
  (props : CanvasLayer.Props) (c : Ctx Pixel) :
  exists rest,
    paintedSince c (CanvasLayer.render dom props c)
    = OpClearRect (ctm (ds c)) 0 0 (CanvasLayer.width props)
                  (CanvasLayer.height props) :: rest.
Proof.
  assert (H : paintsOnto
                (clearRect 0 0 (CanvasLayer.width props)
                           (CanvasLayer.height props) c)
                (CanvasLayer.render dom props c)).
  { unfold CanvasLayer.render. cbv zeta.
    match goal with
    | |- paintsOnto ?C0 (match _ with None => ?X | Some _ => _ end) =>
        assert (Hbg : paintsOnto C0 X)
    end.
    { destruct (CanvasLayer.imgBackground props) as [bg | ].
      - apply paint_paintsOnto.
      - apply drawCheckerboard_paintsOnto. }
    destruct (CanvasLayer.imgForeground props) as [fg | ]; [ | exact Hbg].
    destruct (negb (CanvasLayer.maskCtx_ok dom)); [exact Hbg | ].
    destruct (negb (CanvasLayer.layerCtx_ok dom)); [exact Hbg | ].
    eapply paintsOnto_trans; [exact Hbg | apply composite_layer_paintsOnto]. }
  destruct H as [rest Hrest]. exists rest.
  apply paintedSince_app. rewrite Hrest. unfold clearRect, addOp. cbn [ops].
  rewrite <- app_assoc. reflexivity.
Qed.

(** What a render leaves of the drawing state: the fill style may have
    changed, the compositing state has not. *)
Lemma drawCheckerboard_compositing (w h : R) (c : Ctx Pixel) :
  sameCompositing (ds (CanvasLayer.drawCheckerboard w h c)) (ds c).
Proof.
  unfold CanvasLayer.drawCheckerboard. cbv zeta.
  assert (H0 : sameCompositing
                 (ds (set_fillStyle "#334155"
                        (fillRect 0 0 w h (set_fillStyle "#1e293b" c))))
                 (ds c)) by (repeat split).
  revert H0. generalize (set_fillStyle "#334155"
                           (fillRect 0 0 w h (set_fillStyle "#1e293b" c))).
  generalize (seq 0 (CanvasLayer.loopCount h 20)).
  generalize (seq 0 (CanvasLayer.loopCount w 20)).
  intros cols rows. induction rows as [ | kr rows IH]; intros d H0; simpl.
  - exact H0.
  - apply IH. clear IH. revert d H0.
    induction cols as [ | kc cols IHc]; intros d H0; simpl.
    + exact H0.
    + apply IHc. destruct (Nat.even (kr + kc)); exact H0.
Qed.

Lemma composite_layer_ds (src : Source Pixel) (v : R) (c : Ctx Pixel) :
  ds (restore (drawImageAt src 0 0 (set_globalAlpha v (save c)))) = ds c.
Proof.
  unfold set_globalAlpha.
  destruct (Rle_dec 0 v); [destruct (Rle_dec v 1) | ]; reflexivity.
Qed.

Lemma render_compositing (dom : CanvasLayer.Dom) (props : CanvasLayer.Props)
  (c : Ctx Pixel) :
  sameCompositing (ds (CanvasLayer.render dom props c)) (ds c).
Proof.
  unfold CanvasLayer.render. cbv zeta.
  match goal with
  | |- sameCompositing
         (ds (match _ with None => ?X | Some _ => _ end)) _ =>
      assert (Hbg : sameCompositing (ds X) (ds c))
  end.
  { destruct (CanvasLayer.imgBackground props) as [bg | ].
    - repeat split.
    - eapply sameCompositing_trans; [apply drawCheckerboard_compositing | ].
      repeat split. }
  destruct (CanvasLayer.imgForeground props) as [fg | ]; [ | exact Hbg].
  destruct (negb (CanvasLayer.maskCtx_ok dom)); [exact Hbg | ].
  destruct (negb (CanvasLayer.layerCtx_ok dom)); [exact Hbg | ].
  rewrite composite_layer_ds. exact Hbg.
Qed.

Lemma renderAll_compositing (hist : list (CanvasLayer.Dom * CanvasLayer.Props)) :
  sameCompositing (ds (CanvasLayer.renderAll hist)) defaultDrawState.
Proof.
  unfold CanvasLayer.renderAll.
  change defaultDrawState with (ds (@newCtx Pixel)).
  generalize (@newCtx Pixel).
  induction hist as [ | [dom props] hist IH]; intro c; simpl.
  - apply sameCompositing_refl.
  - eapply sameCompositing_trans; [apply IH | apply render_compositing].
Qed.

End Compositor.

(** C9.  Every render begins by clearing the rectangle of the canvas,
    before it paints anything.  On a canvas that has only ever been
    painted by the rendering effect, the colour of every pixel of the
    canvas after a render is the same whatever was rendered before: it
    depends on width, height, the two images and the mask configuration
    (and on whether the two off-screen contexts could be had), not on
    earlier frames. *)
Theorem render_deterministic {Pixel : Type} {B : Backend Pixel}
  (dom : CanvasLayer.Dom) (props : CanvasLayer.Props) :
  (forall c : Ctx Pixel,
     exists rest,
       paintedSince c (CanvasLayer.render dom props c)
       = OpClearRect (ctm (ds c)) 0 0 (CanvasLayer.width props)
                     (CanvasLayer.height props) :: rest)
  /\ (forall (hist1 hist2 : list (CanvasLayer.Dom * CanvasLayer.Props))
             (i j : Z),
        CanvasLayer.inCanvas (CanvasLayer.width props)
                             (CanvasLayer.height props) i j ->
        bitmapOf
          (ops (CanvasLayer.render dom props (CanvasLayer.renderAll hist1)))
          i j
        = bitmapOf
            (ops (CanvasLayer.render dom props (CanvasLayer.renderAll hist2)))
            i j).
Proof.
  split.
  - apply render_starts_cleared.
  - intros hist1 hist2 i j Hin. apply render_samePixel.
    + apply (renderAll_compositing hist1).
    + eapply sameCompositing_trans.
      * apply (renderAll_compositing hist1).
      * apply sameCompositing_sym, (renderAll_compositing hist2).
    + exact Hin.
Qed.

Lemma render_deterministic_witness :
  bitmapOf
    (ops (CanvasLayer.render domOk maskedProps
            (CanvasLayer.renderAll [(domOk, checkerProps)]))) 3%Z 4%Z
  = bitmapOf
      (ops (CanvasLayer.render domOk maskedProps (CanvasLayer.renderAll [])))
      3%Z 4%Z :> bool.
Proof.
  destruct (render_deterministic (B := inkBackend) domOk maskedProps)
    as [_ H].
  apply (H [(domOk, checkerProps)] [] 3%Z 4%Z).
  unfold CanvasLayer.inCanvas. simpl. lra.
Defined.

(** * Further properties *)

(** ** The viewport: pointers and baseline *)

Lemma pm_has_In (id : Z) (m : PointerMap) :
  pm_has id m = true <-> In id (map fst m).
Proof.
  induction m as [ | [k v] m IH]; simpl.
  - split; [discriminate | contradiction].
  - destruct (Z.eqb k id) eqn:E.
    + apply Z.eqb_eq in E. split; [intros _; left; exact E | reflexivity].
    + apply Z.eqb_neq in E. rewrite IH. split.
      * intro H. right. exact H.
      * intros [H | H]; [contradiction | exact H].
Qed.

Lemma pm_set_keys (id : Z) (p : Point) (m : PointerMap) :
  map fst (pm_set id p m)
  = if pm_has id m then map fst m else map fst m ++ [id].
Proof.
  induction m as [ | [k v] m IH]; simpl.
  - reflexivity.
  - destruct (Z.eqb k id); simpl; [reflexivity | ].
    rewrite IH. destruct (pm_has id m); reflexivity.
Qed.

Lemma pm_set_NoDup (id : Z) (p : Point) (m : PointerMap) :
  NoDup (map fst m) -> NoDup (map fst (pm_set id p m)).
Proof.
  intro H. rewrite pm_set_keys.
  destruct (pm_has id m) eqn:E; [exact H | ].
  apply NoDup_app; [exact H | repeat constructor; intros [] | ].
  intros k Hk [<- | []].
  apply pm_has_In in Hk. congruence.
Qed.

Lemma pm_delete_incl (id : Z) (m : PointerMap) (k : Z) :
  In k (map fst (pm_delete id m)) -> In k (map fst m).
Proof.
  induction m as [ | [k0 v] m IH]; simpl; [tauto | ].
  destruct (Z.eqb k0 id); simpl; [tauto | ].
  intros [H | H]; [left; exact H | right; apply IH, H].
Qed.

Lemma pm_delete_NoDup (id : Z) (m : PointerMap) :
  NoDup (map fst m) -> NoDup (map fst (pm_delete id m)).
Proof.
  induction m as [ | [k v] m IH]; simpl; intro H; [exact H | ].
  inversion H as [ | ? ? Hnot Hnd]; subst.
  destruct (Z.eqb k id); [exact Hnd | ].
  simpl. constructor; [ | apply IH, Hnd].
  intro Hin. apply Hnot. eapply pm_delete_incl, Hin.
Qed.

Lemma pm_delete_has (id : Z) (m : PointerMap) :
  NoDup (map fst m) -> pm_has id (pm_delete id m) = false.
Proof.
  induction m as [ | [k v] m IH]; simpl; intro H; [reflexivity | ].
  inversion H as [ | ? ? Hnot Hnd]; subst.
  destruct (Z.eqb k id) eqn:E.
  - apply Z.eqb_eq in E. subst k.
    destruct (pm_has id m) eqn:Hh; [ | reflexivity].
    apply pm_has_In in Hh. contradiction.
  - simpl. rewrite E. apply IH, Hnd.
Qed.

Lemma pm_set_has (id : Z) (p : Point) (m : PointerMap) :
  pm_has id (pm_set id p m) = true.
Proof.
  induction m as [ | [k v] m IH]; simpl.
  - rewrite Z.eqb_refl. reflexivity.
  - destruct (Z.eqb k id) eqn:E; simpl; rewrite E; [reflexivity | exact IH].
Qed.

Lemma Rsum_nonneg (l : list R) : Forall (fun v => 0 <= v) l -> 0 <= Rsum l.
Proof.
  unfold Rsum. induction 1 as [ | v l Hv _ IH]; simpl; lra.
Qed.

Lemma Math_hypot_nonneg (a b : R) : 0 <= Math_hypot a b.
Proof. unfold Math_hypot. apply sqrt_pos. Qed.

Lemma getCentroid_distance_nonneg (pts : list Point) :
  0 <= distance (getCentroid pts).
Proof.
  rewrite getCentroid_distance. unfold meanDistanceFrom.
  destruct pts as [ | p pts].
  - simpl. unfold Rdiv. rewrite Rmult_0_l. lra.
  - apply Rmult_le_pos.
    + apply Rsum_nonneg. apply Forall_forall. intros v Hv.
      apply in_map_iff in Hv. destruct Hv as (q & <- & _).
      apply Math_hypot_nonneg.
    + left. apply Rinv_0_lt_compat. apply lt_0_INR. simpl. lia.
Qed.

Lemma baselineOf_ok (t : Transform) (m : PointerMap) :
  (baselineOf t m = None <-> m = [])
  /\ (forall g, baselineOf t m = Some g ->
        0 <= g_distance g /\ (pm_size m = 1%nat -> g_distance g = 0)).
Proof.
  destruct m as [ | kv m].
  - split; [split; reflexivity | discriminate].
  - split; [split; discriminate | ].
    intros g Hg.
    assert (Hd : g_distance g = distance (getCentroid (pm_values (kv :: m))))
      by (unfold baselineOf in Hg; injection Hg as <-; reflexivity).
    rewrite Hd.
    split; [apply getCentroid_distance_nonneg | ].
    destruct m; [intros _; reflexivity | discriminate].
Qed.

Lemma handlePointerDown_refs (env : Env) (e : PointerEvent) (s : AppState) :
  pointersRef (handlePointerDown env e s)
  = pm_set (pointerId e) (mkPoint (clientX e) (clientY e)) (pointersRef s)
  /\ gestureStartRef (handlePointerDown env e s)
     = baselineOf (transform s)
         (pm_set (pointerId e) (mkPoint (clientX e) (clientY e))
                 (pointersRef s)).
Proof.
  unfold handlePointerDown.
  set (s1 := setPointers _ s).
  assert (Hp : pointersRef (updateGestureStart s1) = pointersRef s1).
  { unfold updateGestureStart.
    destruct (Nat.eqb (pm_size (pointersRef s1)) 0); reflexivity. }
  pose proof (updateGestureStart_baseline s1) as Hb.
  destruct (Nat.eqb (pm_size (pointersRef (updateGestureStart s1))) 1);
    [ | split; [exact Hp | exact Hb]].
  destruct (Z.ltb _ 300); [ | split; [exact Hp | exact Hb]].
  destruct (Rlt_dec _ 1).
  - destruct (viewportRect env); (split; [exact Hp | exact Hb]).
  - split; [exact Hp | exact Hb].
Qed.

Lemma handlePointerUp_refs (e : PointerEvent) (s : AppState) :
  pointersRef (handlePointerUp e s) = pm_delete (pointerId e) (pointersRef s)
  /\ gestureStartRef (handlePointerUp e s)
     = baselineOf (transform s) (pm_delete (pointerId e) (pointersRef s)).
Proof.
  unfold handlePointerUp. rewrite updateGestureStart_baseline.
  split; [ | reflexivity].
  unfold updateGestureStart. simpl.
  destruct (Nat.eqb (pm_size (pm_delete (pointerId e) (pointersRef s))) 0);
    reflexivity.
Qed.

Lemma handlePointerMove_refs (env : Env) (e : PointerEvent) (s : AppState) :
  gestureStartRef (handlePointerMove env e s) = gestureStartRef s
  /\ pointersRef (handlePointerMove env e s)
     = if pm_has (pointerId e) (pointersRef s)
       then pm_set (pointerId e) (mkPoint (clientX e) (clientY e))
                   (pointersRef s)
       else pointersRef s.
Proof.
  unfold handlePointerMove.
  destruct (pm_has (pointerId e) (pointersRef s)); simpl;
    [ | split; reflexivity].
  destruct (gestureStartRef s) as [g | ] eqn:Hg; simpl;
    [ | split; [exact Hg | reflexivity]].
  destruct (Nat.eqb _ 1 && _); simpl; (split; [exact Hg | reflexivity]).
Qed.

Lemma handleWheel_refs (env : Env) (e : WheelEvent) (s : AppState) :
  gestureStartRef (handleWheel env e s) = gestureStartRef s
  /\ pointersRef (handleWheel env e s) = pointersRef s.
Proof.
  unfold handleWheel.
  destruct (isGenerating s || showGenModal s); [split; reflexivity | ].
  destruct (viewportRect env); split; reflexivity.
Qed.

Lemma viewportStep_ok (s : AppState) (ev : Env * ViewportEvent) :
  viewportOk s -> viewportOk (viewportStep s ev).
Proof.
  intros (Hnd & Hnone & Hdist). destruct ev as [env [e | e | e | e]];
    unfold viewportStep; simpl.
  - destruct (handleWheel_refs env e s) as [Hg Hp].
    unfold viewportOk. rewrite Hg, Hp. auto.
  - destruct (handlePointerDown_refs env e s) as [Hp Hg].
    unfold viewportOk. rewrite Hg, Hp.
    split; [apply pm_set_NoDup, Hnd | apply baselineOf_ok].
  - destruct (handlePointerMove_refs env e s) as [Hg Hp].
    unfold viewportOk. rewrite Hg, Hp.
    destruct (pm_has (pointerId e) (pointersRef s)) eqn:Hhas; [ | auto].
    split; [apply pm_set_NoDup, Hnd | ]. split.
    + rewrite Hnone. split.
      * intro H. rewrite H in Hhas. discriminate.
      * intro H. exfalso. eapply pm_set_nonempty, H.
    + intros g Hgs. rewrite (pm_set_size_has _ _ _ Hhas). apply Hdist, Hgs.
  - destruct (handlePointerUp_refs e s) as [Hp Hg].
    unfold viewportOk. rewrite Hg, Hp.
    split; [apply pm_delete_NoDup, Hnd | apply baselineOf_ok].
Qed.

(** X1.  Whatever wheel and pointer events the viewport receives, from
    its initial state on: pointer identifiers stay distinct, there is a
    gesture baseline exactly when a pointer is down, the mean distance of
    the baseline is never negative and is 0 while one pointer is down.  So
    a move of a pointer that is down always finds a baseline. *)
Theorem viewport_invariant (env0 : Env) (evs : list (Env * ViewportEvent)) :
  viewportOk (initialApp env0)
  /\ (forall s, viewportOk s -> viewportOk (viewportRun evs s))
  /\ (forall e,
        pm_has (pointerId e)
               (pointersRef (viewportRun evs (initialApp env0))) = true ->
        gestureStartRef (viewportRun evs (initialApp env0)) <> None).
Proof.
  assert (H0 : viewportOk (initialApp env0)).
  { unfold viewportOk. simpl. split; [constructor | ].
    split; [split; reflexivity | discriminate]. }
  assert (Hrun : forall s, viewportOk s -> viewportOk (viewportRun evs s)).
  { unfold viewportRun. induction evs as [ | ev evs IH]; intros s Hs; simpl.
    - exact Hs.
    - apply IH. apply viewportStep_ok, Hs. }
  split; [exact H0 | split; [exact Hrun | ]].
  intros e Hhas Hnone.
  destruct (Hrun _ H0) as (_ & Hiff & _).
  apply Hiff in Hnone. rewrite Hnone in Hhas. discriminate.
Qed.

Lemma viewport_invariant_witness :
  gestureStartRef
    (viewportRun [(desktopEnv, VPointerDown (mkPointerEvent 1 10 10 true))]
                 (initialApp desktopEnv))
  <> None.
Proof.
  destruct (viewport_invariant desktopEnv
              [(desktopEnv, VPointerDown (mkPointerEvent 1 10 10 true))])
    as (_ & _ & H).
  apply (H (mkPointerEvent 1 10 10 true)).
  unfold viewportRun, viewportStep. cbn [fold_left snd fst].
  rewrite (proj1 (handlePointerDown_refs _ _ _)). reflexivity.
Defined.

(** ** The viewport: what a pointer move does to the camera *)

(** The scale a processed pointer move arrives at. *)
Lemma handlePointerMove_camera (env : Env) (e : PointerEvent) (s : AppState)
  (g : Gesture) :
  pm_has (pointerId e) (pointersRef s) = true ->
  gestureStartRef s = Some g ->
  Nat.eqb (pm_size (pointersRef s)) 1
  && negb (MaskType_eqb (mc_type (maskConfig s)) HAND) = false ->
  let pts :=
    pm_values (pm_set (pointerId e) (mkPoint (clientX e) (clientY e))
                      (pointersRef s)) in
  let k := t_scale (transform (handlePointerMove env e s)) in
  let world :=
    worldOfScreen (g_transform g) (minus (g_center g) (viewportOffset env)) in
  let cur := minus (center (getCentroid pts)) (viewportOffset env) in
  transform (handlePointerMove env e s)
  = mkTransform (px cur - px world * k) (py cur - py world * k) k
  /\ k = clampScale
           (if Nat.ltb 1 (pm_size (pointersRef s)) then
              if Rlt_dec 0 (g_distance g)
              then t_scale (g_transform g)
                   * (distance (getCentroid pts) / g_distance g)
              else t_scale (g_transform g)
            else t_scale (g_transform g)).
Proof.
  intros Hhas Hg Hproc pts k world cur.
  subst k world cur pts. unfold handlePointerMove. rewrite Hhas. simpl.
  rewrite Hg. rewrite (pm_set_size_has _ _ _ Hhas). rewrite Hproc.
  unfold viewportOffset. destruct (viewportRect env); simpl; split; reflexivity.
Qed.

(** X2.  On every pointer move that moves the camera, the world point
    that was under the centroid of the pointers when the baseline was
    taken is under their centroid now. *)
Theorem pinch_keeps_focal_point (env : Env) (e : PointerEvent)
  (s : AppState) (g : Gesture) :
  pm_has (pointerId e) (pointersRef s) = true ->
  gestureStartRef s = Some g ->
  (2 <= pm_size (pointersRef s))%nat \/ mc_type (maskConfig s) = HAND ->
  let pts :=
    pm_values (pm_set (pointerId e) (mkPoint (clientX e) (clientY e))
                      (pointersRef s)) in
  let start := minus (g_center g) (viewportOffset env) in
  let cur := minus (centroidOf pts) (viewportOffset env) in
  screenOfWorld (transform (handlePointerMove env e s))
                (worldOfScreen (g_transform g) start)
  = cur
  /\ (t_scale (g_transform g) <> 0 ->
      screenOfWorld (g_transform g) (worldOfScreen (g_transform g) start)
      = start).
Proof.
  intros Hhas Hg Hproc pts start cur. split.
  - assert (Hb : Nat.eqb (pm_size (pointersRef s)) 1
                 && negb (MaskType_eqb (mc_type (maskConfig s)) HAND) = false).
    { destruct Hproc as [H2 | Hh].
      - destruct (pm_size (pointersRef s)) as [ | [ | n]]; [lia | lia | ].
        reflexivity.
      - rewrite Hh. simpl. apply andb_false_r. }
    destruct (handlePointerMove_camera env e s g Hhas Hg Hb) as [Ht _].
    rewrite Ht. subst cur start pts. rewrite <- getCentroid_center.
    unfold screenOfWorld, minus. simpl. f_equal; ring.
  - apply screenOfWorld_worldOfScreen.
Qed.

Lemma pinch_keeps_focal_point_witness :
  screenOfWorld
    (transform (handlePointerMove desktopEnv (mkPointerEvent 2 12 16 false)
                                  pinchState))
    (worldOfScreen (mkTransform 0 0 1)
       (minus (mkPoint 3 4) (viewportOffset desktopEnv)))
  = minus (centroidOf [mkPoint 0 0; mkPoint 12 16])
          (viewportOffset desktopEnv).
Proof.
  apply (pinch_keeps_focal_point desktopEnv (mkPointerEvent 2 12 16 false)
           pinchState (mkGesture (mkTransform 0 0 1) (mkPoint 3 4) 5)).
  - reflexivity.
  - reflexivity.
  - left. simpl. lia.
Defined.

(** X3.  With one pointer down in Hand mode and a baseline scale inside
    [0.05, 20], a pointer move pans: the scale is the baseline scale and
    the translate is the baseline translate plus the displacement of the
    pointer since the baseline was taken. *)
Theorem hand_pan_translates (env : Env) (e : PointerEvent) (s : AppState)
  (g : Gesture) (p0 : Point) :
  pointersRef s = [(pointerId e, p0)] ->
  gestureStartRef s = Some g ->
  mc_type (maskConfig s) = HAND ->
  inScaleRange (t_scale (g_transform g)) ->
  transform (handlePointerMove env e s)
  = translateBy (clientX e - px (g_center g)) (clientY e - py (g_center g))
                (g_transform g).
Proof.
  intros Hp Hg Hh Hr.
  assert (Hhas : pm_has (pointerId e) (pointersRef s) = true)
    by (rewrite Hp; simpl; rewrite Z.eqb_refl; reflexivity).
  assert (Hb : Nat.eqb (pm_size (pointersRef s)) 1
               && negb (MaskType_eqb (mc_type (maskConfig s)) HAND) = false)
    by (rewrite Hh; simpl; apply andb_false_r).
  destruct (handlePointerMove_camera env e s g Hhas Hg Hb) as [Ht Hk].
  rewrite Ht, Hk. rewrite Hp. simpl. rewrite Z.eqb_refl. simpl.
  rewrite (clampScale_id _ Hr).
  assert (Hnz : t_scale (g_transform g) <> 0)
    by (unfold inScaleRange in Hr; lra).
  unfold translateBy, worldOfScreen, minus. simpl.
  f_equal; field; exact Hnz.
Qed.

Lemma hand_pan_translates_witness :
  transform (handlePointerMove desktopEnv (mkPointerEvent 1 30 25 true)
                               panState)
  = translateBy (30 - 10) (25 - 10) (mkTransform 5 7 2).
Proof.
  apply (hand_pan_translates desktopEnv (mkPointerEvent 1 30 25 true)
           panState (mkGesture (mkTransform 5 7 2) (mkPoint 10 10) 0)
           (mkPoint 10 10)).
  - reflexivity.
  - reflexivity.
  - reflexivity.
  - unfold inScaleRange. simpl. lra.
Defined.

(** X4.  A pointer move leaves the camera where it is unless the pointer
    is down and either two pointers are down or the tool is Hand: a move
    of a pointer that is not down changes nothing at all, and a move of
    the only pointer under any other tool records the position of the
    pointer and nothing else. *)
Theorem pointer_move_leaves_camera (env : Env) (e : PointerEvent)
  (s : AppState) :
  (pm_has (pointerId e) (pointersRef s) = false ->
   handlePointerMove env e s = s)
  /\ (pm_size (pointersRef s) = 1%nat ->
      mc_type (maskConfig s) <> HAND ->
      pm_has (pointerId e) (pointersRef s) = true ->
      handlePointerMove env e s
      = setPointers
          (pm_set (pointerId e) (mkPoint (clientX e) (clientY e))
                  (pointersRef s)) s).
Proof.
  split.
  - intro H. unfold handlePointerMove. rewrite H. reflexivity.
  - intros H1 Hh Hhas. unfold handlePointerMove. rewrite Hhas. simpl.
    destruct (gestureStartRef s); [ | reflexivity].
    rewrite (pm_set_size_has _ _ _ Hhas), H1.
    destruct (mc_type (maskConfig s)); try reflexivity. contradiction.
Qed.

Lemma pointer_move_leaves_camera_witness :
  handlePointerMove desktopEnv (mkPointerEvent 7 1 1 true) pinchState
  = pinchState.
Proof.
  destruct (pointer_move_leaves_camera desktopEnv (mkPointerEvent 7 1 1 true)
              pinchState) as [H _].
  apply H. reflexivity.
Defined.

(** ** The viewport: double tap *)

Lemma updateGestureStart_eq (s : AppState) :
  updateGestureStart s
  = setGestureStart (baselineOf (transform s) (pointersRef s)) s.
Proof.
  unfold updateGestureStart, baselineOf, pm_size.
  destruct (pointersRef s); reflexivity.
Qed.

(** X5.  What a pointer-down does to the camera.  Unless it leaves
    exactly one pointer down it does nothing to it and does not count as a
    tap.  When it leaves exactly one pointer down it is recorded as the
    last tap, and if the tap before it was less than 300 ms ago: below
    100% the scale becomes 1 with the tapped world point kept under the
    tap (nothing happens while the viewport element is not mounted), at
    100% or above the canvas is fitted to the screen. *)
Theorem double_tap (env : Env) (e : PointerEvent) (s : AppState) :
  let m' :=
    pm_set (pointerId e) (mkPoint (clientX e) (clientY e)) (pointersRef s) in
  let s' := handlePointerDown env e s in
  let t := transform s in
  let t' := transform s' in
  (pm_size m' <> 1%nat -> t' = t /\ lastTapRef s' = lastTapRef s)
  /\ (pm_size m' = 1%nat ->
      lastTapRef s' = now env
      /\ ((300 <= now env - lastTapRef s)%Z -> t' = t)
      /\ ((now env - lastTapRef s < 300)%Z ->
          (t_scale t < 1 ->
           forall r, viewportRect env = Some r ->
             let tap :=
               mkPoint (clientX e - rect_left r) (clientY e - rect_top r) in
             t_scale t' = 1
             /\ screenOfWorld t' (worldOfScreen t tap) = tap)
          /\ (t_scale t < 1 -> viewportRect env = None -> t' = t)
          /\ (1 <= t_scale t -> t' = transform (handleFitToScreen env s)))).
Proof.
  intros m' s' t t'. subst s' t'. unfold handlePointerDown.
  rewrite updateGestureStart_eq. simpl. fold m'. split.
  - intro Hn. apply Nat.eqb_neq in Hn. rewrite Hn. split; reflexivity.
  - intro H1. apply Nat.eqb_eq in H1. rewrite H1. split; [ | split].
    + destruct (Z.ltb _ 300); [ | reflexivity].
      destruct (Rlt_dec _ 1); [ | reflexivity].
      destruct (viewportRect env); reflexivity.
    + intro Hge. apply Z.ltb_ge in Hge. rewrite Hge. reflexivity.
    + intro Hlt. apply Z.ltb_lt in Hlt. rewrite Hlt.
      split; [ | split].
      * intros Hs r Hr. rewrite Hr.
        destruct (Rlt_dec (t_scale (transform s)) 1) as [_ | Hn];
          [ | contradiction].
        simpl. split; [reflexivity | ].
        subst t. unfold screenOfWorld, worldOfScreen. simpl.
        f_equal; ring.
      * intros Hs Hr. rewrite Hr.
        destruct (Rlt_dec (t_scale (transform s)) 1) as [_ | Hn];
          [reflexivity | contradiction].
      * intro Hs.
        destruct (Rlt_dec (t_scale (transform s)) 1) as [Hl | _];
          [subst t; lra | reflexivity].
Qed.

Lemma double_tap_witness :
  t_scale (transform (handlePointerDown tapEnv (mkPointerEvent 1 40 50 true)
                                        zoomedOutState))
  = 1.
Proof.
  destruct (double_tap tapEnv (mkPointerEvent 1 40 50 true) zoomedOutState)
    as [_ H].
  destruct (H eq_refl) as (_ & _ & H3).
  assert (Hlt : (now tapEnv - lastTapRef zoomedOutState < 300)%Z)
    by (simpl; lia).
  destruct (H3 Hlt) as (Hzoom & _).
  assert (Hs : t_scale (transform zoomedOutState) < 1) by (simpl; lra).
  destruct (Hzoom Hs (mkRect 0 0 1000 1000) eq_refl) as [Hk _].
  exact Hk.
Defined.

(** X6.  The baseline that a double tap leaves is the camera of before
    the tap.  So when a double tap in Hand mode has zoomed to 100%, the
    next move of that pointer takes the scale back to what it was before
    the tap, clamped. *)
Theorem double_tap_then_pan_reverts (env env' : Env) (e e' : PointerEvent)
  (s : AppState) (r : DOMRect) :
  pointersRef s = [] ->
  mc_type (maskConfig s) = HAND ->
  (now env - lastTapRef s < 300)%Z ->
  t_scale (transform s) < 1 ->
  viewportRect env = Some r ->
  pointerId e' = pointerId e ->
  let s1 := handlePointerDown env e s in
  t_scale (transform s1) = 1
  /\ t_scale (transform (handlePointerMove env' e' s1))
     = clampScale (t_scale (transform s)).
Proof.
  intros Hp Hh Hlt Hs Hr Hid s1.
  assert (H1 : s1 = setLastTap (now env)
                      (setTransform
                         (mkTransform
                            (clientX e - rect_left r
                             - (clientX e - rect_left r - t_x (transform s))
                               / t_scale (transform s))
                            (clientY e - rect_top r
                             - (clientY e - rect_top r - t_y (transform s))
                               / t_scale (transform s))
                            1)
                         (setGestureStart
                            (Some (mkGesture (transform s)
                                     (center (getCentroid
                                        [mkPoint (clientX e) (clientY e)]))
                                     (distance (getCentroid
                                        [mkPoint (clientX e) (clientY e)]))))
                            (setPointers
                               [(pointerId e,
                                 mkPoint (clientX e) (clientY e))] s)))).
  { subst s1. unfold handlePointerDown. rewrite updateGestureStart_eq.
    rewrite Hp. simpl. apply Z.ltb_lt in Hlt. rewrite Hlt, Hr.
    destruct (Rlt_dec (t_scale (transform s)) 1); [reflexivity | contradiction]. }
  split; [rewrite H1; reflexivity | ].
  assert (Hhas : pm_has (pointerId e') (pointersRef s1) = true)
    by (rewrite H1, Hid; simpl; rewrite Z.eqb_refl; reflexivity).
  assert (Hb : Nat.eqb (pm_size (pointersRef s1)) 1
               && negb (MaskType_eqb (mc_type (maskConfig s1)) HAND) = false)
    by (rewrite H1; simpl; rewrite Hh; reflexivity).
  destruct (handlePointerMove_camera env' e' s1 _ Hhas
              ltac:(rewrite H1; reflexivity) Hb) as [_ Hk].
  rewrite Hk. rewrite H1. reflexivity.
Qed.

Lemma double_tap_then_pan_reverts_witness :
  t_scale
    (transform
       (handlePointerMove tapEnv (mkPointerEvent 1 41 50 true)
          (handlePointerDown tapEnv (mkPointerEvent 1 40 50 true)
                             zoomedOutState)))
  = clampScale (1 / 2).
Proof.
  assert (Hlt : (now tapEnv - lastTapRef zoomedOutState < 300)%Z)
    by (simpl; lia).
  assert (Hs : t_scale (transform zoomedOutState) < 1) by (simpl; lra).
  destruct (double_tap_then_pan_reverts tapEnv tapEnv
              (mkPointerEvent 1 40 50 true) (mkPointerEvent 1 41 50 true)
              zoomedOutState (mkRect 0 0 1000 1000)
              eq_refl eq_refl Hlt Hs eq_refl eq_refl) as [_ H].
  exact H.
Defined.

(** ** The viewport: fitting, centring and the zoom buttons *)

Lemma fitScale_bounds (aw ah w h : R) :
  0 < aw -> 0 < ah -> 0 < w -> 0 < h ->
  let k := Rmin (Rmin (aw / w) (ah / h)) 1 in
  0 < k <= 1 /\ w * k <= aw /\ h * k <= ah
  /\ (k = 1 \/ w * k = aw \/ h * k = ah).
Proof.
  intros Haw Hah Hw Hh k.
  assert (Ha : 0 < aw / w) by (apply Rdiv_lt_0_compat; assumption).
  assert (Hb : 0 < ah / h) by (apply Rdiv_lt_0_compat; assumption).
  assert (Ea : w * (aw / w) = aw) by (field; lra).
  assert (Eb : h * (ah / h) = ah) by (field; lra).
  subst k. unfold Rmin.
  destruct (Rle_dec (aw / w) (ah / h)) as [Hab | Hab];
    [destruct (Rle_dec (aw / w) 1) as [H1 | H1]
    | destruct (Rle_dec (ah / h) 1) as [H1 | H1]];
    repeat split; try lra; try nra; auto.
Qed.

Lemma centerImage_fits_aux (env : Env) (width height : R) (s : AppState) :
  roomy env -> 0 < width -> 0 < height ->
  let t := transform (centerImage env width height s) in
  let k := t_scale t in
  0 < k <= 1
  /\ width * k <= innerWidth env - 48
  /\ height * k <= innerHeight env - 140
  /\ (k = 1 \/ width * k = innerWidth env - 48
      \/ height * k = innerHeight env - 140)
  /\ t_x t + width * k / 2 = innerWidth env / 2
  /\ t_y t + height * k / 2 = innerHeight env / 2.
Proof.
  intros [Hw Hh] Hwd Hht t k.
  destruct (fitScale_bounds (innerWidth env - 48) (innerHeight env - 140)
              width height) as (Hk & Hfw & Hfh & Htouch); try lra.
  subst k t. simpl.
  split; [exact Hk | ]. split; [exact Hfw | ]. split; [exact Hfh | ].
  split; [exact Htouch | ]. split; field.
Qed.

(** X7.  When the window is larger than the chrome paddings (48 by 140)
    and the content has a positive size, [centerImage] (fit-to-screen)
    gives a positive scale that is at most 1, under which the content
    fits the window less the paddings and touches that box in one
    direction unless the scale is 1; and the content is centred in the
    window. *)
Theorem centerImage_fits (env : Env) (width height : R) (s : AppState) :
  roomy env -> 0 < width -> 0 < height ->
  let t := transform (centerImage env width height s) in
  let k := t_scale t in
  0 < k <= 1
  /\ width * k <= innerWidth env - 48
  /\ height * k <= innerHeight env - 140
  /\ (k = 1 \/ width * k = innerWidth env - 48
      \/ height * k = innerHeight env - 140)
  /\ t_x t + width * k / 2 = innerWidth env / 2
  /\ t_y t + height * k / 2 = innerHeight env / 2.
Proof. exact (centerImage_fits_aux env width height s). Qed.

Lemma centerImage_fits_witness :
  8000 * t_scale (transform (centerImage phoneEnv 8000 6000 photoState))
  <= 390 - 48.
Proof.
  assert (Hr : roomy phoneEnv) by (unfold roomy; simpl; lra).
  destruct (centerImage_fits phoneEnv 8000 6000 photoState Hr
              ltac:(lra) ltac:(lra)) as (_ & H & _).
  exact H.
Defined.

(** X8.  Center-view puts the canvas, at the scale it has, in the middle
    of the window and keeps the scale; doing it twice is doing it once,
    and after a fit-to-screen it changes nothing. *)
Theorem handleCenterView_centres (env : Env) (s : AppState) :
  let t := transform (handleCenterView env s) in
  t_scale t = t_scale (transform s)
  /\ t_x t + sz_width (canvasSize s) * t_scale t / 2 = innerWidth env / 2
  /\ t_y t + sz_height (canvasSize s) * t_scale t / 2 = innerHeight env / 2
  /\ handleCenterView env (handleCenterView env s) = handleCenterView env s
  /\ handleCenterView env (handleFitToScreen env s)
     = handleFitToScreen env s.
Proof.
  intro t. subst t. simpl.
  split; [reflexivity | ]. split; [field | ]. split; [field | ].
  split; reflexivity.
Qed.

(** X9.  The zoom buttons scale about the origin of the viewport: they
    never move the translate.  Zoom-out undoes zoom-in whenever zoom-in
    was not cut at 20 and the scale was at least 0.05, and zoom-in undoes
    zoom-out whenever zoom-out was not cut at 0.05 and the scale was at
    most 20. *)
Theorem zoom_buttons_round_trip (s : AppState) :
  (t_x (transform (handleZoomIn s)) = t_x (transform s)
   /\ t_y (transform (handleZoomIn s)) = t_y (transform s)
   /\ t_x (transform (handleZoomOut s)) = t_x (transform s)
   /\ t_y (transform (handleZoomOut s)) = t_y (transform s))
  /\ (5 / 100 <= t_scale (transform s) ->
      t_scale (transform s) * (125 / 100) <= 20 ->
      transform (handleZoomOut (handleZoomIn s)) = transform s)
  /\ (t_scale (transform s) <= 20 ->
      5 / 100 <= t_scale (transform s) * (8 / 10) ->
      transform (handleZoomIn (handleZoomOut s)) = transform s).
Proof.
  split; [repeat split | split].
  - intros Hlo Hhi. unfold handleZoomOut, handleZoomIn. simpl.
    rewrite (Rmin_left _ _ Hhi).
    rewrite Rmax_left by lra.
    destruct (transform s) as [x y k]. simpl. f_equal. field.
  - intros Hhi Hlo. unfold handleZoomOut, handleZoomIn. simpl.
    rewrite (Rmax_left _ _ Hlo).
    rewrite Rmin_left by lra.
    destruct (transform s) as [x y k]. simpl. f_equal. field.
Qed.

Lemma zoom_buttons_round_trip_witness :
  transform (handleZoomOut (handleZoomIn (editorState false)))
  = transform (editorState false).
Proof.
  destruct (zoom_buttons_round_trip (editorState false)) as (_ & H & _).
  apply H; simpl; lra.
Defined.

(** X10.  A wheel step towards the user undoes a wheel step away from
    the user at the same pointer position, and the other way round,
    provided neither step is cut by the clamp: the camera is back where it
    was. *)
Theorem wheel_round_trip (env : Env) (e1 e2 : WheelEvent) (s : AppState)
  (r : DOMRect) :
  isGenerating s = false -> showGenModal s = false ->
  viewportRect env = Some r ->
  w_clientX e2 = w_clientX e1 -> w_clientY e2 = w_clientY e1 ->
  (w_deltaY e1 < 0 /\ 0 < w_deltaY e2) \/ (0 < w_deltaY e1 /\ w_deltaY e2 < 0) ->
  inScaleRange (t_scale (transform s)) ->
  inScaleRange (t_scale (transform s)
                * exp (- Math_sign (w_deltaY e1) * (15 / 100))) ->
  transform (handleWheel env e2 (handleWheel env e1 s)) = transform s.
Proof.
  intros Hgen Hmodal Hr Hx Hy Hdir Hin Hin1.
  set (d := - Math_sign (w_deltaY e1) * (15 / 100)) in *.
  assert (Hd2 : - Math_sign (w_deltaY e2) * (15 / 100) = - d).
  { subst d. unfold Math_sign.
    destruct Hdir as [[H1 H2] | [H1 H2]];
      repeat match goal with
             | |- context [Rlt_dec ?a ?b] => destruct (Rlt_dec a b)
             end; lra. }
  assert (Hs1 : transform (handleWheel env e1 s)
                = mkTransform
                    (w_clientX e1 - rect_left r
                     - (w_clientX e1 - rect_left r - t_x (transform s))
                       / t_scale (transform s)
                       * (t_scale (transform s) * exp d))
                    (w_clientY e1 - rect_top r
                     - (w_clientY e1 - rect_top r - t_y (transform s))
                       / t_scale (transform s)
                       * (t_scale (transform s) * exp d))
                    (t_scale (transform s) * exp d)).
  { unfold handleWheel. rewrite Hgen, Hmodal, Hr. simpl.
    unfold ZOOM_SPEED. fold d. rewrite (clampScale_id _ Hin1). reflexivity. }
  assert (Hk : 0 < t_scale (transform s)) by (unfold inScaleRange in Hin; lra).
  assert (He : exp d * exp (- d) = 1)
    by (rewrite <- exp_plus; replace (d + - d) with 0 by ring; apply exp_0).
  pose proof (exp_pos d) as Hpos.
  unfold handleWheel at 1.
  assert (Hg1 : isGenerating (handleWheel env e1 s) = false).
  { unfold handleWheel. rewrite Hgen, Hmodal, Hr. exact Hgen. }
  assert (Hm1 : showGenModal (handleWheel env e1 s) = false).
  { unfold handleWheel. rewrite Hgen, Hmodal, Hr. exact Hmodal. }
  rewrite Hg1, Hm1, Hr. cbn [orb transform setTransform].
  rewrite Hs1. cbn [t_x t_y t_scale]. unfold ZOOM_SPEED.
  rewrite Hd2, Hx, Hy.
  replace (t_scale (transform s) * exp d * exp (- d))
    with (t_scale (transform s)) by (rewrite Rmult_assoc, He; ring).
  rewrite (clampScale_id _ Hin).
  destruct (transform s) as [x y k]. simpl in *. f_equal; field; lra.
Qed.

Lemma wheel_round_trip_witness :
  transform (handleWheel desktopEnv (mkWheel 1 100 100)
               (handleWheel desktopEnv (mkWheel (-1) 100 100)
                            (editorState false)))
  = transform (editorState false).
Proof.
  apply (wheel_round_trip desktopEnv (mkWheel (-1) 100 100)
           (mkWheel 1 100 100) (editorState false) (mkRect 0 0 1000 1000));
    try reflexivity.
  - left. simpl. lra.
  - unfold inScaleRange. simpl. lra.
  - simpl. rewrite Math_sign_neg by lra.
    replace (1 * exp (- -1 * (15 / 100))) with (exp (15 / 100))
      by (replace (- -1 * (15 / 100)) with (15 / 100) by lra; lra).
    pose proof exp_step_bounds. unfold inScaleRange. lra.
Defined.

(** ** The viewport: the scale stays positive *)

Lemma handleWheel_transform (env : Env) (e : WheelEvent) (s : AppState) :
  transform (handleWheel env e s) = transform s
  \/ inScaleRange (t_scale (transform (handleWheel env e s))).
Proof.
  unfold handleWheel.
  destruct (isGenerating s || showGenModal s); [left; reflexivity | ].
  destruct (viewportRect env); [ | left; reflexivity].
  right. apply clampScale_range.
Qed.

Lemma viewportStep_canvasSize (s : AppState) (ev : Env * ViewportEvent) :
  canvasSize (viewportStep s ev) = canvasSize s.
Proof.
  destruct ev as [env [e | e | e | e]]; unfold viewportStep; simpl.
  - unfold handleWheel.
    destruct (isGenerating s || showGenModal s); [reflexivity | ].
    destruct (viewportRect env); reflexivity.
  - unfold handlePointerDown. rewrite updateGestureStart_eq. simpl.
    destruct (Nat.eqb _ 1); [ | reflexivity].
    destruct (Z.ltb _ 300); [ | reflexivity].
    destruct (Rlt_dec _ 1); [ | reflexivity].
    destruct (viewportRect env); reflexivity.
  - unfold handlePointerMove.
    destruct (pm_has (pointerId e) (pointersRef s)); simpl; [ | reflexivity].
    destruct (gestureStartRef s); simpl; [ | reflexivity].
    destruct (Nat.eqb _ 1 && _); reflexivity.
  - unfold handlePointerUp. rewrite updateGestureStart_eq. reflexivity.
Qed.

Lemma viewportStep_scale_pos (s : AppState) (ev : Env * ViewportEvent) :
  roomy (fst ev) ->
  0 < sz_width (canvasSize s) -> 0 < sz_height (canvasSize s) ->
  0 < t_scale (transform s) -> 0 < t_scale (transform (viewportStep s ev)).
Proof.
  intros Hroomy Hw Hh Hk. destruct ev as [env [e | e | e | e]];
    unfold viewportStep; simpl in *.
  - destruct (handleWheel_transform env e s) as [-> | [H _]]; lra.
  - destruct (handlePointerDown_transform env e s) as [-> | [-> | ->]];
      [exact Hk | lra | ].
    unfold handleFitToScreen.
    destruct (centerImage_fits_aux env (sz_width (canvasSize s))
                (sz_height (canvasSize s)) s Hroomy Hw Hh) as [[H _] _].
    exact H.
  - destruct (handlePointerMove_transform env e s) as [-> | [H _]]; lra.
  - unfold handlePointerUp. rewrite updateGestureStart_eq. exact Hk.
Qed.

(** X11.  While the window stays larger than the chrome paddings and the
    canvas has a positive size, no sequence of wheel and pointer events
    makes the camera scale zero or negative: the quotients by the scale in
    the handlers are quotients by a positive number. *)
Theorem camera_scale_stays_positive (evs : list (Env * ViewportEvent))
  (s : AppState) :
  Forall (fun ev => roomy (fst ev)) evs ->
  0 < sz_width (canvasSize s) -> 0 < sz_height (canvasSize s) ->
  0 < t_scale (transform s) ->
  0 < t_scale (transform (viewportRun evs s))
  /\ canvasSize (viewportRun evs s) = canvasSize s.
Proof.
  unfold viewportRun. intro Hall. revert s.
  induction Hall as [ | ev evs Hev _ IH]; intros s Hw Hh Hk; simpl.
  - split; [exact Hk | reflexivity].
  - pose proof (viewportStep_canvasSize s ev) as Hc.
    destruct (IH (viewportStep s ev)) as [H1 H2].
    + rewrite Hc. exact Hw.
    + rewrite Hc. exact Hh.
    + apply viewportStep_scale_pos; assumption.
    + split; [exact H1 | rewrite H2; exact Hc].
Qed.

Lemma camera_scale_stays_positive_witness :
  0 < t_scale
        (transform
           (viewportRun [(desktopEnv, VWheel (mkWheel 1 100 100))]
                        (editorState false))).
Proof.
  assert (Hall : Forall (fun ev : Env * ViewportEvent => roomy (fst ev))
                        [(desktopEnv, VWheel (mkWheel 1 100 100))]).
  { constructor; [unfold roomy; simpl; lra | constructor]. }
  destruct (camera_scale_stays_positive
              [(desktopEnv, VWheel (mkWheel 1 100 100))] (editorState false)
              Hall ltac:(simpl; lra) ltac:(simpl; lra) ltac:(simpl; lra))
    as [H _].
  exact H.
Defined.

(** ** The history: undo and redo as moves along one line *)

Lemma redo_cons (s : AppState) (c : MaskConfig) (f : list MaskConfig) :
  future s = c :: f ->
  redo s = setFuture f (setMaskConfig c (setPast (past s ++ [maskConfig s]) s)).
Proof. intro H. unfold redo. rewrite H. reflexivity. Qed.

(** X12.  [redo] undoes [undo] and [undo] undoes [redo], on the whole
    state: after an undo that had something to undo, redo gives back the
    very state of before, and the other way round. *)
Theorem undo_redo_inverse (s : AppState) :
  (past s <> [] -> redo (undo s) = s)
  /\ (future s <> [] -> undo (redo s) = s).
Proof.
  split; intro H.
  - destruct (exists_last H) as (p & c & Hp).
    rewrite (undo_snoc s p c Hp).
    rewrite (redo_cons _ (maskConfig s) (future s)) by reflexivity.
    destruct s. simpl in *. subst. reflexivity.
  - destruct (future s) as [ | c f] eqn:Hf; [contradiction | ].
    rewrite (redo_cons s c f Hf).
    rewrite (undo_snoc _ (past s) (maskConfig s)) by reflexivity.
    destruct s. simpl in *. subst. reflexivity.
Qed.

Lemma undo_redo_inverse_witness :
  redo (undo (saveHistory strokedState)) = saveHistory strokedState.
Proof.
  destruct (undo_redo_inverse (saveHistory strokedState)) as [H _].
  apply H. simpl. discriminate.
Defined.

Lemma undo_timeline (s : AppState) : timeline (undo s) = timeline s.
Proof.
  destruct (past s) as [ | c0 p0] eqn:Hp.
  - unfold undo. rewrite Hp. reflexivity.
  - assert (Hne : past s <> []) by (rewrite Hp; discriminate).
    destruct (exists_last Hne) as (p & c & Hpc).
    rewrite (undo_snoc s p c Hpc). unfold timeline. simpl.
    rewrite Hpc, <- app_assoc. reflexivity.
Qed.

Lemma redo_timeline (s : AppState) : timeline (redo s) = timeline s.
Proof.
  destruct (future s) as [ | c f] eqn:Hf.
  - unfold redo. rewrite Hf. reflexivity.
  - rewrite (redo_cons s c f Hf). unfold timeline. simpl.
    rewrite Hf, <- app_assoc. reflexivity.
Qed.

(** X13.  Undo and redo only move the live configuration along one line
    of configurations: [past], then the live one, then [future], read in
    that order, is the same list after any sequence of undos and redos,
    and the camera, the images and the canvas size are never touched.  An
    undo moves one place back when there is a place. *)
Theorem undo_redo_keep_timeline (moves : list bool) (s : AppState) :
  let s' := fold_left (fun acc m => if m : bool then undo acc else redo acc)
                      moves s in
  timeline s' = timeline s
  /\ transform s' = transform s
  /\ img1 s' = img1 s /\ img2 s' = img2 s
  /\ canvasSize s' = canvasSize s
  /\ (past s <> [] ->
      List.length (past (undo s)) = (List.length (past s) - 1)%nat).
Proof.
  intro s'. subst s'. split; [ | split; [ | split; [ | split; [ | split]]]].
  1-5: revert s; induction moves as [ | m moves IH]; intro s; simpl;
       [reflexivity | rewrite IH; destruct m].
  - apply undo_timeline.
  - apply redo_timeline.
  - unfold undo. destruct (Nat.eqb _ 0); reflexivity.
  - unfold redo. destruct (Nat.eqb _ 0); reflexivity.
  - unfold undo. destruct (Nat.eqb _ 0); reflexivity.
  - unfold redo. destruct (Nat.eqb _ 0); reflexivity.
  - unfold undo. destruct (Nat.eqb _ 0); reflexivity.
  - unfold redo. destruct (Nat.eqb _ 0); reflexivity.
  - unfold undo. destruct (Nat.eqb _ 0); reflexivity.
  - unfold redo. destruct (Nat.eqb _ 0); reflexivity.
  - intro H. destruct (exists_last H) as (p & c & Hp).
    rewrite (undo_snoc s p c Hp). simpl. rewrite Hp, length_app. simpl. lia.
Qed.

Lemma undo_redo_keep_timeline_witness :
  List.length (past (undo (saveHistory strokedState))) = 0%nat.
Proof.
  destruct (undo_redo_keep_timeline [] (saveHistory strokedState))
    as (_ & _ & _ & _ & _ & H).
  rewrite H; [reflexivity | simpl; discriminate].
Defined.

(** ** The mask configuration: clearing, resetting, swapping *)

(** X14.  Clearing the mask keeps the tool, the brush size and the font
    size, empties the strokes and puts every other field at its default
    (the text goes back to "MASK"); the shape is kept, except that under
    Brush or Pen it is None.  Clearing twice is clearing once, as far as
    the configuration goes.  A clear, like a tool selection, is taken back
    by one undo: the configuration and [past] are those of before. *)
Theorem handleClearMask_spec (s : AppState) :
  let c := maskConfig s in
  let c' := maskConfig (handleClearMask s) in
  c' = mkMaskConfig (mc_type c)
         (if isBrushTool (mc_type c) then NONE else mc_shape c)
         (5 / 10) (5 / 10) (4 / 10) 0 "MASK" (mc_fontSize c) []
         (mc_brushSize c) 1
  /\ maskConfig (handleClearMask (handleClearMask s)) = c'
  /\ maskConfig (undo (handleClearMask s)) = c
  /\ past (undo (handleClearMask s)) = past s
  /\ (forall type,
        maskConfig (undo (onSelectMask type s)) = c
        /\ past (undo (onSelectMask type s)) = past s).
Proof.
  intros c c'. subst c c'.
  split; [reflexivity | ]. split.
  - unfold handleClearMask. simpl.
    destruct (mc_type (maskConfig s)); reflexivity.
  - assert (Hu : forall k,
               undo (setMaskConfig k (saveHistory s))
               = setPast (past s)
                   (setMaskConfig (maskConfig s)
                      (setFuture [k] (setMaskConfig k (saveHistory s))))).
    { intro k.
      exact (undo_snoc (setMaskConfig k (saveHistory s)) (past s)
                       (maskConfig s) eq_refl). }
    split; [unfold handleClearMask; rewrite Hu; reflexivity | ].
    split; [unfold handleClearMask; rewrite Hu; reflexivity | ].
    intro type. unfold onSelectMask. rewrite Hu. split; reflexivity.
Qed.

(** X15.  Reset-rotation sets the rotation to 0 and records no
    checkpoint: an undo after it goes to the last checkpoint as if the
    reset had not happened, and with an empty [past] the reset cannot be
    taken back.  Swapping the layers exchanges the two images and leaves
    the configuration, the canvas size and the camera alone.  It records a
    checkpoint: the live configuration is appended to [past] and [future]
    is emptied.  The undo of a swap takes that checkpoint back and does
    not swap the images back. *)
Theorem reset_and_swap (s : AppState) :
  (mc_rotation (maskConfig (handleResetView s)) = 0
   /\ past (handleResetView s) = past s
   /\ future (handleResetView s) = future s
   /\ maskConfig (undo (handleResetView s))
      = (if Nat.eqb (List.length (past s)) 0
         then maskConfig (handleResetView s) else maskConfig (undo s)))
  /\ (img1 (handleSwapLayers s) = img2 s
      /\ img2 (handleSwapLayers s) = img1 s
      /\ maskConfig (handleSwapLayers s) = maskConfig s
      /\ past (handleSwapLayers s) = past s ++ [maskConfig s]
      /\ future (handleSwapLayers s) = []
      /\ canvasSize (handleSwapLayers s) = canvasSize s
      /\ transform (handleSwapLayers s) = transform s
      /\ img1 (handleSwapLayers (handleSwapLayers s)) = img1 s
      /\ img2 (handleSwapLayers (handleSwapLayers s)) = img2 s
      /\ past (handleSwapLayers (handleSwapLayers s))
         = (past s ++ [maskConfig s]) ++ [maskConfig s]
      /\ img1 (undo (handleSwapLayers s)) = img2 s
      /\ img2 (undo (handleSwapLayers s)) = img1 s
      /\ maskConfig (undo (handleSwapLayers s)) = maskConfig s
      /\ past (undo (handleSwapLayers s)) = past s
      /\ future (undo (handleSwapLayers s)) = [maskConfig s]).
Proof.
  split.
  - split; [reflexivity | ]. split; [reflexivity | ]. split; [reflexivity | ].
    destruct (past s) as [ | c0 p0] eqn:E.
    + unfold undo. simpl. rewrite E. reflexivity.
    + assert (Hne : past s <> []) by (rewrite E; discriminate).
      destruct (exists_last Hne) as (p & c & Hpc).
      rewrite (undo_snoc s p c Hpc).
      rewrite (undo_snoc (handleResetView s) p c Hpc).
      rewrite <- E, Hpc, length_app. simpl.
      replace (List.length p + 1)%nat with (S (List.length p)) by lia.
      reflexivity.
  - assert (Hu : undo (handleSwapLayers s)
                 = setPast (past s)
                     (setMaskConfig (maskConfig s)
                        (setFuture [maskConfig s] (handleSwapLayers s)))).
    { exact (undo_snoc (handleSwapLayers s) (past s) (maskConfig s)
                       eq_refl). }
    rewrite Hu. repeat split.
Qed.

(** ** The mask configuration: what every reachable one satisfies *)

Lemma configOk_default : configOk DEFAULT_MASK_CONFIG.
Proof.
  unfold configOk. simpl.
  repeat split; try discriminate; try lra; intro H; contradiction.
Qed.

Lemma saveHistory_ok (s : AppState) : maskOk s -> maskOk (saveHistory s).
Proof.
  intros (Hc & Hp & Hf). unfold maskOk. simpl.
  split; [exact Hc | split; [ | constructor]].
  apply Forall_app. split; [exact Hp | constructor; [exact Hc | constructor]].
Qed.

Lemma setMaskConfig_ok (c : MaskConfig) (s : AppState) :
  configOk c -> maskOk s -> maskOk (setMaskConfig c s).
Proof. intros Hc (_ & Hp & Hf). unfold maskOk. simpl. auto. Qed.

Lemma undo_ok (s : AppState) : maskOk s -> maskOk (undo s).
Proof.
  intros (Hc & Hp & Hf).
  destruct (past s) as [ | c0 p0] eqn:E.
  - unfold undo. rewrite E. simpl. unfold maskOk. rewrite E. auto.
  - assert (Hne : past s <> []) by (rewrite E; discriminate).
    destruct (exists_last Hne) as (p & c & Hpc).
    rewrite (undo_snoc s p c Hpc). unfold maskOk. simpl.
    rewrite <- E, Hpc in Hp. apply Forall_app in Hp. destruct Hp as [Hp1 Hp2].
    inversion Hp2; subst. auto.
Qed.

Lemma redo_ok (s : AppState) : maskOk s -> maskOk (redo s).
Proof.
  intros (Hc & Hp & Hf).
  destruct (future s) as [ | c f] eqn:E.
  - unfold redo. rewrite E. simpl. unfold maskOk. rewrite E. auto.
  - rewrite (redo_cons s c f E). unfold maskOk. simpl.
    inversion Hf; subst. split; [assumption | split; [ | assumption]].
    apply Forall_app. split; [exact Hp | constructor; [exact Hc | constructor]].
Qed.

Lemma selectMaskConfig_ok (type : MaskType) (c : MaskConfig) :
  configOk c -> configOk (selectMaskConfig type c).
Proof.
  intros ((H1 & H2 & H3) & Hb & Hs & Hbs & Hfs).
  unfold configOk, selectMaskConfig. simpl.
  destruct type; simpl; repeat split;
    try discriminate; try assumption; try reflexivity; try lra;
    try (intro H; contradiction); try (intro H; discriminate H);
    try (intros _; auto).
Qed.

Lemma rescaleMaskConfig_ok (ratio : R) (c : MaskConfig) :
  0 < ratio -> configOk c -> configOk (rescaleMaskConfig ratio c).
Proof.
  intros Hr (Hsh & Hb & Hs & Hbs & Hfs).
  unfold configOk, rescaleMaskConfig. simpl.
  split; [exact Hsh | ]. split; [exact Hb | ]. split.
  - intro H. apply Hs. intro E. rewrite E in H. apply H. reflexivity.
  - split; apply Rmult_lt_0_compat; assumption.
Qed.

Lemma handleChange_ok (c : MaskConfig) (ch : PropertiesPanel.Change) :
  match ch with
  | PropertiesPanel.ChBrushSize v | PropertiesPanel.ChFontSize v => 0 < v
  | _ => True
  end ->
  configOk c -> configOk (PropertiesPanel.handleChange c ch).
Proof.
  intros Hv (Hsh & Hb & Hs & Hbs & Hfs).
  unfold configOk, PropertiesPanel.handleChange. simpl.
  destruct ch; repeat split; try apply Hsh; try assumption.
Qed.

Lemma maskStep_ok (s : AppState) (ev : MaskEvent) :
  maskOk s -> eventOk s ev -> maskOk (maskStep s ev).
Proof.
  intros Hs Hev. pose proof Hs as (Hc & Hp & Hf).
  destruct ev as [type | | | | | | | activeMode v | v | img newImg
                 | canvas e st]; simpl.
  - unfold onSelectMask. apply setMaskConfig_ok; [ | apply saveHistory_ok, Hs].
    apply selectMaskConfig_ok, Hc.
  - unfold handleClearMask. apply setMaskConfig_ok; [ | apply saveHistory_ok, Hs].
    destruct Hc as ((H1 & H2 & H3) & Hb & Hst & Hbs & Hfs).
    unfold configOk. simpl.
    split; [destruct (mc_type (maskConfig s)); simpl; repeat split;
            try discriminate; assumption | ].
    split; [unfold isBrushTool;
            destruct (mc_type (maskConfig s)); simpl;
            intro H; try reflexivity; discriminate H | ].
    split; [intro H; contradiction | split; assumption].
  - unfold handleResetView. apply setMaskConfig_ok; [ | exact Hs].
    destruct Hc as (H1 & Hb & Hst & Hbs & Hfs). unfold configOk. simpl. auto.
  - apply undo_ok, Hs.
  - apply redo_ok, Hs.
  - unfold handleSwapLayers. destruct (saveHistory_ok s Hs) as (A & B & C).
    unfold maskOk. simpl. auto.
  - apply saveHistory_ok, Hs.
  - simpl in Hev. unfold PropertiesPanel.sliderChange.
    destruct activeMode; simpl in Hev |- *.
    + apply setMaskConfig_ok; [ | exact Hs].
      apply handleChange_ok; [exact I | exact Hc].
    + apply setMaskConfig_ok; [ | exact Hs].
      apply handleChange_ok; [exact I | exact Hc].
    + apply setMaskConfig_ok; [ | exact Hs].
      apply handleChange_ok; [exact I | exact Hc].
    + apply setMaskConfig_ok; [ | exact Hs].
      destruct (PropertiesPanel.isBrush (maskConfig s)); simpl in Hev;
        (apply handleChange_ok; [simpl; lra | exact Hc]).
    + exact Hs.
  - apply setMaskConfig_ok; [apply handleChange_ok; [exact I | exact Hc] | exact Hs].
  - simpl in Hev. destruct Hev as [Hi Hn].
    assert (Hr : 0 < img_width newImg / img_width img)
      by (apply Rdiv_lt_0_compat; assumption).
    unfold upscale_onload, maskOk. simpl.
    split; [apply rescaleMaskConfig_ok; assumption | auto].
  - unfold CanvasLayer.handlePointerDown. simpl.
    destruct (MaskType_eqb (mc_type (maskConfig s)) HAND); [exact Hs | ].
    destruct (negb (isPrimary e)); [exact Hs | ].
    destruct (MaskType_eqb (mc_type (maskConfig s)) BRUSH
              || MaskType_eqb (mc_type (maskConfig s)) PEN) eqn:Eb; simpl.
    + apply setMaskConfig_ok; [ | apply saveHistory_ok, Hs].
      destruct Hc as (H1 & Hb & Hst & Hbs & Hfs). unfold configOk. simpl.
      split; [exact H1 | ]. split; [exact Hb | ].
      split; [ | split; assumption].
      intros _. apply orb_true_iff in Eb.
      destruct (mc_type (maskConfig s)); simpl in Eb;
        destruct Eb as [E | E]; try discriminate E; auto.
    + apply saveHistory_ok, Hs.
Qed.

(** X16.  Every configuration the editor holds, live or in the history,
    after any sequence of tool selections, clears, rotation resets, undos,
    redos, layer swaps, slider grabs and moves, text edits, finished
    foreground upscales and pointer-downs on the canvas, from the initial
    state on, has: a shape that is never Hand, Brush or Pen; the shape
    None whenever the tool is Brush or Pen; strokes only under Brush, Pen
    or Hand; and a positive brush size and font size. *)
Theorem mask_invariant (env : Env) (evs : list MaskEvent) (s : AppState) :
  maskOk (initialApp env)
  /\ (maskOk s -> eventsOk s evs -> maskOk (maskRun evs s)).
Proof.
  split.
  - unfold maskOk. simpl. split; [apply configOk_default | split; constructor].
  - unfold maskRun. revert s.
    induction evs as [ | ev evs IH]; intros s Hs Hev; simpl.
    + exact Hs.
    + destruct Hev as [H1 H2]. apply IH; [ | exact H2].
      apply maskStep_ok; assumption.
Qed.

Lemma mask_invariant_witness :
  maskOk (maskRun [MSelect BRUSH; MSlide PropertiesPanel.ModeSize 35]
                  (initialApp desktopEnv)).
Proof.
  destruct (mask_invariant desktopEnv
              [MSelect BRUSH; MSlide PropertiesPanel.ModeSize 35]
              (initialApp desktopEnv)) as [H0 H].
  apply H; [exact H0 | ].
  simpl. split; [exact I | split; [lra | exact I]].
Defined.

(** ** Upscaling: failure *)



(** ** Loading images and sizing the canvas *)

(** X19.  A loaded foreground becomes the canvas: the canvas takes its
    size and the camera is fitted to it.  A loaded background only
    replaces the background when there was a foreground at the time its
    file was picked; when there was none the canvas takes the size of the
    background and the camera is fitted to it, even if a foreground has
    arrived since.  With no image at all the canvas is the window wide and
    70% of it high, placed at x = 0 and 5% of the window height above the
    top; once there is an image a resize does nothing.  Each of these
    leaves the live mask configuration, [past] and [future] as they
    were. *)
Theorem canvas_sizing (env : Env) (img : Image) (u : Ui) :
  (let u' := handleImageUpload_onload env Layer1 (img1 (app u)) img u in
   img1 (app u') = Some img
   /\ img2 (app u') = img2 (app u)
   /\ canvasSize (app u') = mkSize (img_width img) (img_height img)
   /\ transform (app u')
      = transform (centerImage env (img_width img) (img_height img) (app u))
   /\ showLayers u' = false
   /\ maskUntouched (app u) (app u'))
  /\ (forall fg,
        let u' := handleImageUpload_onload env Layer2 (Some fg) img u in
        img2 (app u') = Some img
        /\ canvasSize (app u') = canvasSize (app u)
        /\ transform (app u') = transform (app u)
        /\ img1 (app u') = img1 (app u)
        /\ showLayers u' = false
        /\ maskUntouched (app u) (app u'))
  /\ (let u' := handleImageUpload_onload env Layer2 None img u in
      img2 (app u') = Some img
      /\ img1 (app u') = img1 (app u)
      /\ canvasSize (app u') = mkSize (img_width img) (img_height img)
      /\ transform (app u')
         = transform (centerImage env (img_width img) (img_height img)
                                  (app u))
      /\ showLayers u' = false
      /\ maskUntouched (app u) (app u'))
  /\ (img1 (app u) = None -> img2 (app u) = None ->
      let s' := updateSize env (app u) in
      canvasSize s' = mkSize (innerWidth env) (innerHeight env * (7 / 10))
      /\ t_x (transform s') = 0
      /\ t_y (transform s') = - (innerHeight env / 20)
      /\ t_scale (transform s') = t_scale (transform (app u))
      /\ img1 s' = None /\ img2 s' = None
      /\ maskUntouched (app u) s')
  /\ (img1 (app u) <> None \/ img2 (app u) <> None ->
      updateSize env (app u) = app u).
Proof.
  split; [ | split; [ | split; [ | split]]].
  - simpl. unfold maskUntouched. repeat split.
  - intro fg. simpl. unfold maskUntouched. repeat split.
  - simpl. unfold maskUntouched. repeat split.
  - intros H1 H2 s'. subst s'. unfold updateSize, maskUntouched.
    rewrite H1, H2. simpl.
    split; [reflexivity | ]. split; [field | ]. split; [field | ].
    split; [reflexivity | ]. rewrite H1, H2. repeat split.
  - intros H. unfold updateSize.
    destruct (img1 (app u)), (img2 (app u)); try reflexivity.
    destruct H as [H | H]; contradiction.
Qed.

Lemma canvas_sizing_witness :
  updateSize desktopEnv (editorState false) = editorState false.
Proof.
  destruct (canvas_sizing desktopEnv photo (mkUi (editorState false) "" false))
    as (_ & _ & _ & _ & H).
  apply H. left. simpl. discriminate.
Defined.

(** ** Generating a background *)

(** X20.  A generation is not started on an empty prompt.  While one is
    in flight the wheel does not zoom.  When it ends with an image that
    loads, the background is replaced, the dialog closed and the in-flight
    mark cleared; when it ends without an image the mark is cleared, the
    dialog stays open and the background is kept.  When an image comes
    back and never loads nothing runs, there being no error handler: the
    in-flight mark stays set and the wheel stays without effect.
    Whatever the outcome, the foreground, the canvas size, the camera, the
    live mask configuration, [past] and [future] are as they were. *)
Theorem generate_background (u : Ui) (r : GenerateResult) :
  (handleGenerateBackground_begin u = None <-> prompt u = ""%string)
  /\ (forall p u1,
        handleGenerateBackground_begin u = Some (p, u1) ->
        p = prompt u
        /\ isGenerating (app u1) = true
        /\ (forall env e, handleWheel env e (app u1) = app u1)
        /\ let u2 := handleGenerateBackground_resume r u1 in
           (forall img, r = GenerateLoaded img ->
              isGenerating (app u2) = false
              /\ img2 (app u2) = Some img
              /\ showGenModal (app u2) = false)
           /\ (r = GenerateNull ->
               isGenerating (app u2) = false
               /\ img2 (app u2) = img2 (app u)
               /\ showGenModal (app u2) = showGenModal (app u))
           /\ (r = GenerateNotLoaded ->
               u2 = u1
               /\ isGenerating (app u2) = true
               /\ (forall env e, handleWheel env e (app u2) = app u2))
           /\ img1 (app u2) = img1 (app u)
           /\ canvasSize (app u2) = canvasSize (app u)
           /\ transform (app u2) = transform (app u)
           /\ upscalingLayer (app u2) = upscalingLayer (app u)
           /\ maskUntouched (app u) (app u2)).
Proof.
  split.
  - unfold handleGenerateBackground_begin.
    destruct (String.eqb (prompt u) "") eqn:E.
    + apply String.eqb_eq in E. split; [intros _; exact E | reflexivity].
    + apply String.eqb_neq in E. split; [discriminate | contradiction].
  - intros p u1 H. unfold handleGenerateBackground_begin in H.
    destruct (String.eqb (prompt u) ""); [discriminate | ].
    injection H as <- <-. split; [reflexivity | ]. split; [reflexivity | ].
    split; [intros env e; reflexivity | ].
    unfold maskUntouched.
    destruct r as [img | | ]; simpl.
    + split.
      { intros i Hi. injection Hi as <-. repeat split. }
      split; [discriminate | ]. split; [discriminate | repeat split].
    + split; [discriminate | ].
      split; [intros _; repeat split | ].
      split; [discriminate | repeat split].
    + split; [discriminate | ]. split; [discriminate | ].
      split; [intros _; repeat split | repeat split].
Qed.

Lemma generate_background_witness :
  isGenerating
    (app (handleGenerateBackground_resume GenerateNotLoaded
            (onApp (setIsGenerating true) promptUi)))
  = true.
Proof.
  destruct (generate_background promptUi GenerateNotLoaded) as [_ H].
  destruct (H "a beach at dusk"%string (onApp (setIsGenerating true) promptUi)
              eq_refl) as (_ & _ & _ & _ & _ & Hn & _).
  destruct (Hn eq_refl) as (_ & Hg & _). exact Hg.
Defined.

(** ** The drawing path over stroke objects *)

Lemma deref_alloc_old (h : Objects.Heap) (a : list Point) (r : Objects.Ref) :
  (r < List.length h)%nat ->
  Objects.deref (h ++ [a]) r = Objects.deref h r.
Proof. intro H. unfold Objects.deref. apply app_nth1, H. Qed.

Lemma deref_alloc_new (h : Objects.Heap) (a : list Point) :
  Objects.deref (h ++ [a]) (List.length h) = a.
Proof. unfold Objects.deref. apply nth_middle. Qed.

Lemma view_alloc (h : Objects.Heap) (a : list Point) (c : Objects.Config) :
  Objects.configOk h c -> Objects.view (h ++ [a]) c = Objects.view h c.
Proof.
  intro H. unfold Objects.view. f_equal.
  apply map_ext_in. intros r Hr.
  apply deref_alloc_old. unfold Objects.configOk in H.
  rewrite Forall_forall in H. apply H, Hr.
Qed.

Lemma map_view_alloc (h : Objects.Heap) (a : list Point)
  (l : list Objects.Config) :
  Forall (Objects.configOk h) l ->
  map (Objects.view (h ++ [a])) l = map (Objects.view h) l.
Proof.
  intro H. apply map_ext_in. intros c Hc. apply view_alloc.
  rewrite Forall_forall in H. apply H, Hc.
Qed.

Lemma update_last (h : Objects.Heap) (a : list Point)
  (f : list Point -> list Point) :
  Objects.update (List.length h) f (h ++ [a]) = h ++ [f a].
Proof.
  induction h as [ | b h IH]; simpl; [reflexivity | rewrite IH; reflexivity].
Qed.

Lemma lastRef_snoc (refs : list Objects.Ref) (r : Objects.Ref)
  (c : MaskConfig) :
  Objects.lastRef (Objects.mkConfig (refs ++ [r]) c) = Some r.
Proof.
  unfold Objects.lastRef. simpl. rewrite length_app. simpl.
  replace (List.length refs + 1 - 1)%nat with (List.length refs) by lia.
  rewrite nth_error_app2 by lia. rewrite Nat.sub_diag. reflexivity.
Qed.

Lemma appOf_eq (base : AppState) (o : Objects.State) :
  appOf base o
  = mkApp (Objects.view (Objects.heap o) (Objects.maskConfig o))
          (img1 base) (img2 base) (canvasSize base) (isGenerating base)
          (upscalingLayer base) (showGenModal base) (transform base)
          (pointersRef base) (gestureStartRef base) (lastTapRef base)
          (map (Objects.view (Objects.heap o)) (Objects.past o))
          (map (Objects.view (Objects.heap o)) (Objects.future o)).
Proof. reflexivity. Qed.

Lemma appOf_undo (base : AppState) (o : Objects.State) :
  appOf base (Objects.undo o) = undo (appOf base o).
Proof.
  unfold Objects.undo, undo. rewrite !appOf_eq. simpl.
  rewrite length_map.
  destruct (Nat.eqb (List.length (Objects.past o)) 0); [reflexivity | ].
  simpl. unfold setPast, setMaskConfig, setFuture. simpl.
  rewrite map_nth, firstn_map. reflexivity.
Qed.

Lemma appOf_redo (base : AppState) (o : Objects.State) :
  appOf base (Objects.redo o) = redo (appOf base o).
Proof.
  unfold Objects.redo, redo. rewrite !appOf_eq.
  destruct o as [h c p f d l]. cbn [Objects.future Objects.past
    Objects.maskConfig Objects.heap Objects.isDragging Objects.lastPos
    future past maskConfig].
  destruct f as [ | c0 f]; [reflexivity | ].
  cbn. unfold setPast, setMaskConfig, setFuture. cbn.
  rewrite map_app. reflexivity.
Qed.

Lemma appOf_saveHistory (base : AppState) (o : Objects.State) :
  appOf base (Objects.saveHistory o) = saveHistory (appOf base o).
Proof.
  unfold Objects.saveHistory, saveHistory. rewrite !appOf_eq. simpl.
  unfold setPast, setFuture. simpl. rewrite map_app. reflexivity.
Qed.

Lemma view_type (h : Objects.Heap) (c : Objects.Config) :
  mc_type (Objects.view h c) = mc_type (Objects.fields c).
Proof. reflexivity. Qed.

Lemma appOf_handlePointerDown (base : AppState) (o : Objects.State)
  (canvas : option CanvasLayer.CanvasElement) (e : PointerEvent)
  (width height : R) (fg bg : option Image) :
  Objects.wf o ->
  let r :=
    CanvasLayer.handlePointerDown canvas (propsOf width height fg bg o) e
      (CanvasLayer.mkState (Objects.isDragging o) (Objects.lastPos o)) in
  let o' := Objects.handlePointerDown canvas e o in
  appOf base o' = runEffects (snd r) (appOf base o)
  /\ fst r = CanvasLayer.mkState (Objects.isDragging o') (Objects.lastPos o').
Proof.
  intros (Hc & Hp & Hf) r o'. subst r o'.
  unfold CanvasLayer.handlePointerDown, Objects.handlePointerDown, propsOf.
  cbn [CanvasLayer.p_maskConfig]. rewrite view_type.
  destruct (MaskType_eqb (mc_type (Objects.fields (Objects.maskConfig o))) HAND);
    [split; [reflexivity | destruct o; reflexivity] | ].
  destruct (negb (isPrimary e));
    [split; [reflexivity | destruct o; reflexivity] | ].
  unfold Objects.isBrushType.
  destruct (MaskType_eqb (mc_type (Objects.fields (Objects.maskConfig o))) BRUSH
            || MaskType_eqb (mc_type (Objects.fields (Objects.maskConfig o))) PEN).
  - cbn [Objects.alloc Objects.saveHistory Objects.heap Objects.past
         Objects.future snd fst].
    split; [ | reflexivity].
    rewrite !appOf_eq. cbn [Objects.heap Objects.maskConfig Objects.past
                            Objects.future].
    unfold runEffects. cbn [fold_left runEffect]. unfold saveHistory.
    unfold setPast, setFuture, setMaskConfig. cbn.
    f_equal.
    + unfold Objects.view. cbn. unfold CanvasLayer.withBrushPoints. cbn.
      f_equal. rewrite map_app. cbn. rewrite deref_alloc_new. f_equal.
      apply map_ext_in. intros r Hr. apply deref_alloc_old.
      unfold Objects.configOk in Hc. rewrite Forall_forall in Hc.
      apply Hc, Hr.
    + rewrite !map_app. cbn. rewrite view_alloc by exact Hc.
      rewrite map_view_alloc by exact Hp. reflexivity.
  - cbn [snd fst]. split; [ | reflexivity].
    rewrite !appOf_eq. cbn. unfold runEffects. cbn.
    unfold saveHistory, setPast, setFuture. cbn.
    rewrite map_app. reflexivity.
Qed.

(** X21.  The model of the history and of the canvas pointer-down over
    configuration values is the model over stroke objects, read through
    the heap: checkpoint, undo and redo over objects give, read through
    the heap, what [saveHistory], [undo] and [redo] give over values, and
    a pointer-down over objects gives what the effects of
    [CanvasLayer]'s pointer-down give over values. *)
Theorem objects_refine_values (base : AppState) (o : Objects.State)
  (canvas : option CanvasLayer.CanvasElement) (e : PointerEvent)
  (width height : R) (fg bg : option Image) :
  appOf base (Objects.saveHistory o) = saveHistory (appOf base o)
  /\ appOf base (Objects.undo o) = undo (appOf base o)
  /\ appOf base (Objects.redo o) = redo (appOf base o)
  /\ (Objects.wf o ->
      appOf base (Objects.handlePointerDown canvas e o)
      = runEffects
          (snd (CanvasLayer.handlePointerDown canvas
                  (propsOf width height fg bg o) e
                  (CanvasLayer.mkState (Objects.isDragging o)
                                       (Objects.lastPos o))))
          (appOf base o)).
Proof.
  split; [apply appOf_saveHistory | ].
  split; [apply appOf_undo | ].
  split; [apply appOf_redo | ].
  intro Hwf.
  exact (proj1 (appOf_handlePointerDown base o canvas e width height fg bg Hwf)).
Qed.

Lemma brushObjects_wf : Objects.wf brushObjects.
Proof.
  unfold Objects.wf, Objects.configOk. simpl.
  repeat split; repeat constructor.
Qed.

Lemma objects_refine_values_witness :
  appOf brushState
        (Objects.handlePointerDown (Some canvasElement) primaryDown
                                   brushObjects)
  = runEffects
      (snd (CanvasLayer.handlePointerDown (Some canvasElement)
              (propsOf 800 600 (Some photo) None brushObjects) primaryDown
              (CanvasLayer.mkState false (mkPoint 0 0))))
      (appOf brushState brushObjects).
Proof.
  destruct (objects_refine_values brushState brushObjects
              (Some canvasElement) primaryDown 800 600 (Some photo) None)
    as (_ & _ & _ & H).
  apply H. exact brushObjects_wf.
Defined.

Lemma isBrushType_not_hand (c : Objects.Config) :
  Objects.isBrushType c = true ->
  MaskType_eqb (mc_type (Objects.fields c)) HAND = false.
Proof.
  unfold Objects.isBrushType.
  destruct (mc_type (Objects.fields c)); simpl; intro H;
    try reflexivity; discriminate H.
Qed.

(** A pointer-down under a brush tool. *)
Lemma handlePointerDown_brush (canvas : option CanvasLayer.CanvasElement)
  (e : PointerEvent) (o : Objects.State) :
  Objects.isBrushType (Objects.maskConfig o) = true ->
  isPrimary e = true ->
  Objects.handlePointerDown canvas e o
  = Objects.mkState
      (Objects.heap o ++ [[CanvasLayer.getPos canvas e]])
      (Objects.mkConfig
         (Objects.brushPoints (Objects.maskConfig o)
          ++ [List.length (Objects.heap o)])
         (Objects.fields (Objects.maskConfig o)))
      (Objects.past o ++ [Objects.maskConfig o]) [] true
      (CanvasLayer.getPos canvas e).
Proof.
  intros Hb Hp. unfold Objects.handlePointerDown.
  rewrite (isBrushType_not_hand _ Hb), Hp, Hb. reflexivity.
Qed.

(** The moves of a brush drag all land in the array that the pointer-down
    created. *)
Lemma drag_brush (canvas : option CanvasLayer.CanvasElement)
  (width height : R) (moves : list PointerEvent) (h0 : Objects.Heap)
  (a : list Point) (refs : list Objects.Ref) (c : MaskConfig)
  (p f : list Objects.Config) (lp : Point) :
  Objects.isBrushType (Objects.mkConfig (refs ++ [List.length h0]) c) = true ->
  Objects.drag canvas width height moves
    (Objects.mkState (h0 ++ [a])
       (Objects.mkConfig (refs ++ [List.length h0]) c) p f true lp)
  = Objects.mkState
      (h0 ++ [a ++ map (CanvasLayer.getPos canvas) moves])
      (Objects.mkConfig (refs ++ [List.length h0]) c) p f true lp.
Proof.
  intro Hb. unfold Objects.drag. revert a.
  induction moves as [ | e moves IH]; intro a; simpl.
  - rewrite app_nil_r. reflexivity.
  - unfold Objects.handlePointerMove at 2.
    cbn [Objects.isDragging negb Objects.maskConfig Objects.heap
         Objects.past Objects.future Objects.lastPos
         Objects.brushPoints Objects.fields].
    rewrite Hb, lastRef_snoc. unfold Objects.push. rewrite update_last.
    rewrite IH. rewrite <- app_assoc. reflexivity.
Qed.

Lemma view_snoc (h : Objects.Heap) (a : list Point) (c : Objects.Config) :
  Objects.configOk h c ->
  Objects.view (h ++ [a])
    (Objects.mkConfig (Objects.brushPoints c ++ [List.length h])
                      (Objects.fields c))
  = CanvasLayer.withBrushPoints (Objects.view h c)
      (mc_brushPoints (Objects.view h c) ++ [a]).
Proof.
  intro Hc. unfold Objects.view. cbn. unfold CanvasLayer.withBrushPoints. cbn.
  f_equal. rewrite map_app. cbn. rewrite deref_alloc_new. f_equal.
  apply map_ext_in. intros r Hr. apply deref_alloc_old.
  unfold Objects.configOk in Hc. rewrite Forall_forall in Hc. apply Hc, Hr.
Qed.

Lemma configOk_grow (h : Objects.Heap) (a : list Point) (c : Objects.Config) :
  Objects.configOk h c -> Objects.configOk (h ++ [a]) c.
Proof.
  unfold Objects.configOk. intro H. eapply Forall_impl; [ | exact H].
  intros r Hr. rewrite length_app. simpl in *. lia.
Qed.

(** X22.  Under Brush or Pen, a primary pointer-down followed by any
    number of pointer-moves leaves the earlier strokes as they were and
    adds one stroke: the position of the pointer-down, then the
    positions of the moves, in order.  No other field of the
    configuration changes. *)
Theorem stroke_follows_pointer (canvas : option CanvasLayer.CanvasElement)
  (width height : R) (e : PointerEvent) (moves : list PointerEvent)
  (o : Objects.State) :
  Objects.wf o ->
  Objects.isBrushType (Objects.maskConfig o) = true ->
  isPrimary e = true ->
  let o2 :=
    Objects.drag canvas width height moves
                 (Objects.handlePointerDown canvas e o) in
  let c := Objects.view (Objects.heap o) (Objects.maskConfig o) in
  Objects.view (Objects.heap o2) (Objects.maskConfig o2)
  = CanvasLayer.withBrushPoints c
      (mc_brushPoints c
       ++ [CanvasLayer.getPos canvas e
             :: map (CanvasLayer.getPos canvas) moves])
  /\ Objects.wf o2.
Proof.
  intros (Hc & Hp & Hf) Hb Hprim o2 c. subst o2 c.
  rewrite (handlePointerDown_brush canvas e o Hb Hprim).
  rewrite drag_brush by exact Hb. cbn [Objects.heap Objects.maskConfig].
  split.
  - rewrite view_snoc by exact Hc. reflexivity.
  - unfold Objects.wf. cbn. split; [ | split; [ | constructor]].
    + unfold Objects.configOk. cbn. apply Forall_app. split.
      * eapply Forall_impl; [ | exact Hc].
        intros r Hr. rewrite length_app. simpl in *. lia.
      * constructor; [rewrite length_app; simpl; lia | constructor].
    + apply Forall_app. split.
      * eapply Forall_impl; [ | exact Hp]. intros k Hk.
        apply configOk_grow, Hk.
      * constructor; [apply configOk_grow, Hc | constructor].
Qed.

Lemma stroke_follows_pointer_witness :
  mc_brushPoints
    (Objects.view
       (Objects.heap
          (Objects.drag (Some canvasElement) 800 600 [moveTo20; moveTo30]
             (Objects.handlePointerDown (Some canvasElement) primaryDown
                                        brushObjects)))
       (Objects.maskConfig
          (Objects.drag (Some canvasElement) 800 600 [moveTo20; moveTo30]
             (Objects.handlePointerDown (Some canvasElement) primaryDown
                                        brushObjects))))
  = [[mkPoint 1 2; mkPoint 3 4];
     map (CanvasLayer.getPos (Some canvasElement))
         [primaryDown; moveTo20; moveTo30]].
Proof.
  destruct (stroke_follows_pointer (Some canvasElement) 800 600 primaryDown
              [moveTo20; moveTo30] brushObjects brushObjects_wf
              eq_refl eq_refl) as [H _].
  rewrite H. reflexivity.
Defined.

(** X23.  A stroke is taken back whole by one undo and brought back whole
    by one redo: after a pointer-down under Brush or Pen and any number
    of moves, undo gives the configuration and the [past] of before the
    pointer-down, and redo after it gives the configuration with the whole
    stroke. *)
Theorem stroke_undo_redo (base : AppState)
  (canvas : option CanvasLayer.CanvasElement) (width height : R)
  (e : PointerEvent) (moves : list PointerEvent) (o : Objects.State) :
  Objects.wf o ->
  Objects.isBrushType (Objects.maskConfig o) = true ->
  isPrimary e = true ->
  let o2 :=
    Objects.drag canvas width height moves
                 (Objects.handlePointerDown canvas e o) in
  maskConfig (appOf base (Objects.undo o2)) = maskConfig (appOf base o)
  /\ past (appOf base (Objects.undo o2)) = past (appOf base o)
  /\ appOf base (Objects.redo (Objects.undo o2)) = appOf base o2.
Proof.
  intros (Hc & Hp & Hf) Hb Hprim o2. subst o2.
  rewrite (handlePointerDown_brush canvas e o Hb Hprim).
  rewrite drag_brush by exact Hb.
  set (a := CanvasLayer.getPos canvas e
              :: map (CanvasLayer.getPos canvas) moves).
  change ([CanvasLayer.getPos canvas e]
          ++ map (CanvasLayer.getPos canvas) moves) with a.
  assert (Hu : Objects.undo
                 (Objects.mkState (Objects.heap o ++ [a])
                    (Objects.mkConfig
                       (Objects.brushPoints (Objects.maskConfig o)
                        ++ [List.length (Objects.heap o)])
                       (Objects.fields (Objects.maskConfig o)))
                    (Objects.past o ++ [Objects.maskConfig o]) [] true
                    (CanvasLayer.getPos canvas e))
               = Objects.mkState (Objects.heap o ++ [a])
                   (Objects.maskConfig o) (Objects.past o)
                   [Objects.mkConfig
                      (Objects.brushPoints (Objects.maskConfig o)
                       ++ [List.length (Objects.heap o)])
                      (Objects.fields (Objects.maskConfig o))]
                   true (CanvasLayer.getPos canvas e)).
  { unfold Objects.undo. cbn [Objects.past Objects.maskConfig Objects.heap
                               Objects.future Objects.isDragging
                               Objects.lastPos].
    rewrite nth_last_app, firstn_last_app.
    destruct (Nat.eqb (List.length (Objects.past o ++ [Objects.maskConfig o])) 0)
      eqn:E; [ | reflexivity].
    apply Nat.eqb_eq in E. rewrite length_app in E. simpl in E. lia. }
  rewrite Hu. split; [ | split].
  - rewrite !appOf_eq. cbn. apply view_alloc, Hc.
  - rewrite !appOf_eq. cbn. apply map_view_alloc, Hp.
  - reflexivity.
Qed.

Lemma stroke_undo_redo_witness :
  maskConfig
    (appOf brushState
       (Objects.undo
          (Objects.drag (Some canvasElement) 800 600 [moveTo20; moveTo30]
             (Objects.handlePointerDown (Some canvasElement) primaryDown
                                        brushObjects))))
  = maskConfig (appOf brushState brushObjects).
Proof.
  destruct (stroke_undo_redo brushState (Some canvasElement) 800 600
              primaryDown [moveTo20; moveTo30] brushObjects brushObjects_wf
              eq_refl eq_refl) as [H _].
  exact H.
Defined.

(** X24.  A checkpoint holds the stroke arrays themselves, not copies.
    When one is recorded between the pointer-down and a pointer-move of a
    brush drag (a slider grabbed with another finger), the move writes the
    new point into the array the checkpoint holds: an undo right after the
    move gives the configuration with that point in it, the one that is
    live, not the one that was live when the checkpoint was recorded. *)
Theorem checkpoint_shares_stroke (canvas : option CanvasLayer.CanvasElement)
  (width height : R) (e e' : PointerEvent) (o : Objects.State) :
  Objects.wf o ->
  Objects.isBrushType (Objects.maskConfig o) = true ->
  isPrimary e = true ->
  let o2 := Objects.saveHistory (Objects.handlePointerDown canvas e o) in
  let o3 := Objects.handlePointerMove canvas width height e' o2 in
  let old :=
    mc_brushPoints (Objects.view (Objects.heap o) (Objects.maskConfig o)) in
  let recorded := Objects.view (Objects.heap o2) (Objects.maskConfig o2) in
  let undone :=
    Objects.view (Objects.heap (Objects.undo o3))
                 (Objects.maskConfig (Objects.undo o3)) in
  mc_brushPoints recorded = old ++ [[CanvasLayer.getPos canvas e]]
  /\ mc_brushPoints undone
     = old ++ [[CanvasLayer.getPos canvas e; CanvasLayer.getPos canvas e']]
  /\ undone = Objects.view (Objects.heap o3) (Objects.maskConfig o3)
  /\ undone <> recorded.
Proof.
  intros (Hc & Hp & Hf) Hb Hprim o2 o3 old recorded undone.
  assert (H2 : o2 = Objects.mkState
                      (Objects.heap o ++ [[CanvasLayer.getPos canvas e]])
                      (Objects.mkConfig
                         (Objects.brushPoints (Objects.maskConfig o)
                          ++ [List.length (Objects.heap o)])
                         (Objects.fields (Objects.maskConfig o)))
                      ((Objects.past o ++ [Objects.maskConfig o])
                       ++ [Objects.mkConfig
                             (Objects.brushPoints (Objects.maskConfig o)
                              ++ [List.length (Objects.heap o)])
                             (Objects.fields (Objects.maskConfig o))])
                      [] true (CanvasLayer.getPos canvas e)).
  { subst o2. rewrite (handlePointerDown_brush canvas e o Hb Hprim).
    reflexivity. }
  assert (H3 : o3 = Objects.mkState
                      (Objects.heap o
                       ++ [[CanvasLayer.getPos canvas e;
                            CanvasLayer.getPos canvas e']])
                      (Objects.mkConfig
                         (Objects.brushPoints (Objects.maskConfig o)
                          ++ [List.length (Objects.heap o)])
                         (Objects.fields (Objects.maskConfig o)))
                      ((Objects.past o ++ [Objects.maskConfig o])
                       ++ [Objects.mkConfig
                             (Objects.brushPoints (Objects.maskConfig o)
                              ++ [List.length (Objects.heap o)])
                             (Objects.fields (Objects.maskConfig o))])
                      [] true (CanvasLayer.getPos canvas e)).
  { assert (Hb' : Objects.isBrushType
                    (Objects.mkConfig
                       (Objects.brushPoints (Objects.maskConfig o)
                        ++ [List.length (Objects.heap o)])
                       (Objects.fields (Objects.maskConfig o))) = true)
      by exact Hb.
    subst o3. rewrite H2. unfold Objects.handlePointerMove.
    cbn [Objects.isDragging negb Objects.maskConfig Objects.heap
         Objects.past Objects.future Objects.lastPos
         Objects.brushPoints Objects.fields].
    rewrite Hb', lastRef_snoc. unfold Objects.push. rewrite update_last.
    reflexivity. }
  assert (Hu : Objects.undo o3
               = Objects.mkState (Objects.heap o3) (Objects.maskConfig o3)
                   (Objects.past o ++ [Objects.maskConfig o])
                   [Objects.maskConfig o3] true
                   (CanvasLayer.getPos canvas e)).
  { rewrite H3. unfold Objects.undo.
    cbn [Objects.past Objects.maskConfig Objects.heap Objects.future
         Objects.isDragging Objects.lastPos].
    rewrite nth_last_app, firstn_last_app.
    match goal with
    | |- (if Nat.eqb (List.length (?l ++ [?x])) 0 then _ else _) = _ =>
        destruct (Nat.eqb (List.length (l ++ [x])) 0) eqn:E
    end; [ | reflexivity].
    apply Nat.eqb_eq in E. rewrite length_app in E. simpl in E. lia. }
  assert (Hrec : mc_brushPoints recorded
                 = old ++ [[CanvasLayer.getPos canvas e]]).
  { subst recorded old. rewrite H2. cbn [Objects.heap Objects.maskConfig].
    rewrite view_snoc by exact Hc. reflexivity. }
  assert (Hund : mc_brushPoints undone
                 = old ++ [[CanvasLayer.getPos canvas e;
                            CanvasLayer.getPos canvas e']]).
  { subst undone old. rewrite Hu. cbn [Objects.heap Objects.maskConfig].
    rewrite H3. cbn [Objects.heap Objects.maskConfig].
    rewrite view_snoc by exact Hc. reflexivity. }
  split; [exact Hrec | ]. split; [exact Hund | ]. split.
  - subst undone. rewrite Hu. reflexivity.
  - intro Heq. rewrite Heq, Hrec in Hund.
    apply app_inv_head in Hund. discriminate Hund.
Qed.

Lemma checkpoint_shares_stroke_witness :
  mc_brushPoints
    (Objects.view
       (Objects.heap
          (Objects.undo
             (Objects.handlePointerMove (Some canvasElement) 800 600 moveTo20
                (Objects.saveHistory
                   (Objects.handlePointerDown (Some canvasElement)
                      primaryDown brushObjects)))))
       (Objects.maskConfig
          (Objects.undo
             (Objects.handlePointerMove (Some canvasElement) 800 600 moveTo20
                (Objects.saveHistory
                   (Objects.handlePointerDown (Some canvasElement)
                      primaryDown brushObjects))))))
  = [[mkPoint 1 2; mkPoint 3 4];
     [CanvasLayer.getPos (Some canvasElement) primaryDown;
      CanvasLayer.getPos (Some canvasElement) moveTo20]].
Proof.
  destruct (checkpoint_shares_stroke (Some canvasElement) 800 600
              primaryDown moveTo20 brushObjects brushObjects_wf
              eq_refl eq_refl) as (_ & H & _).
  rewrite H. reflexivity.
Defined.

(** ** Dragging a shape *)

Lemma shape_drag_aux (canvas : option CanvasLayer.CanvasElement)
  (width height : R) (moves : list PointerEvent) (o : Objects.State) :
  Objects.isBrushType (Objects.maskConfig o) = false ->
  Objects.isDragging o = true ->
  let o' := Objects.drag canvas width height moves o in
  let final :=
    last (map (CanvasLayer.getPos canvas) moves) (Objects.lastPos o) in
  let c := Objects.fields (Objects.maskConfig o) in
  o' = Objects.mkState (Objects.heap o)
         (Objects.mkConfig (Objects.brushPoints (Objects.maskConfig o))
            (mkMaskConfig (mc_type c) (mc_shape c)
               (mc_x (Objects.fields (Objects.maskConfig o')))
               (mc_y (Objects.fields (Objects.maskConfig o')))
               (mc_scale c) (mc_rotation c) (mc_text c) (mc_fontSize c)
               (mc_brushPoints c) (mc_brushSize c) (mc_opacity c)))
         (Objects.past o) (Objects.future o) true final
  /\ mc_x (Objects.fields (Objects.maskConfig o'))
     = mc_x c + (px final - px (Objects.lastPos o)) / width
  /\ mc_y (Objects.fields (Objects.maskConfig o'))
     = mc_y c + (py final - py (Objects.lastPos o)) / height.
Proof.
  unfold Objects.drag. revert o.
  induction moves as [ | e moves IH]; intros o Hb Hd; cbn zeta.
  - cbn [fold_left map last].
    split; [ | split; unfold Rdiv; ring].
    destruct o as [h [refs c] p f d l]. cbn in *. subst d.
    destruct c. reflexivity.
  - cbn [fold_left map].
    set (o1 := Objects.handlePointerMove canvas width height e o).
    assert (H1 : o1 = Objects.mkState (Objects.heap o)
                   (Objects.mkConfig
                      (Objects.brushPoints (Objects.maskConfig o))
                      (mkMaskConfig
                         (mc_type (Objects.fields (Objects.maskConfig o)))
                         (mc_shape (Objects.fields (Objects.maskConfig o)))
                         (mc_x (Objects.fields (Objects.maskConfig o))
                          + (px (CanvasLayer.getPos canvas e)
                             - px (Objects.lastPos o)) / width)
                         (mc_y (Objects.fields (Objects.maskConfig o))
                          + (py (CanvasLayer.getPos canvas e)
                             - py (Objects.lastPos o)) / height)
                         (mc_scale (Objects.fields (Objects.maskConfig o)))
                         (mc_rotation (Objects.fields (Objects.maskConfig o)))
                         (mc_text (Objects.fields (Objects.maskConfig o)))
                         (mc_fontSize (Objects.fields (Objects.maskConfig o)))
                         (mc_brushPoints (Objects.fields (Objects.maskConfig o)))
                         (mc_brushSize (Objects.fields (Objects.maskConfig o)))
                         (mc_opacity (Objects.fields (Objects.maskConfig o)))))
                   (Objects.past o) (Objects.future o) true
                   (CanvasLayer.getPos canvas e)).
    { subst o1. unfold Objects.handlePointerMove. rewrite Hd, Hb.
      reflexivity. }
    destruct (IH o1) as (E & Ex & Ey).
    + rewrite H1. exact Hb.
    + rewrite H1. reflexivity.
    + cbn zeta in E, Ex, Ey.
      assert (Hlast :
        last (CanvasLayer.getPos canvas e
                :: map (CanvasLayer.getPos canvas) moves) (Objects.lastPos o)
        = last (map (CanvasLayer.getPos canvas) moves)
               (CanvasLayer.getPos canvas e)).
      { generalize (map (CanvasLayer.getPos canvas) moves).
        generalize (CanvasLayer.getPos canvas e).
        generalize (Objects.lastPos o).
        intros d0 q0 l. destruct l as [ | q l]; [reflexivity | ].
        cbn [last]. revert q. induction l as [ | r l IHl]; intro q.
        - reflexivity.
        - cbn [last]. apply IHl. }
      rewrite Hlast.
      split; [ | split].
      * rewrite E at 1. rewrite H1. reflexivity.
      * rewrite Ex. rewrite H1. cbn. unfold Rdiv. ring.
      * rewrite Ey. rewrite H1. cbn. unfold Rdiv. ring.
Qed.

(** X25.  A drag under any tool but Brush and Pen moves the shape: its
    position changes by the displacement of the pointer, in canvas
    pixels, divided by the canvas size.  However the pointer got there,
    after a drag the position is the position at pointer-down plus (where
    the pointer is now - where it went down) / size.  The drag records no checkpoint of
    its own and changes nothing else. *)
Theorem shape_drag (canvas : option CanvasLayer.CanvasElement)
  (width height : R) (moves : list PointerEvent) (o : Objects.State) :
  Objects.isBrushType (Objects.maskConfig o) = false ->
  Objects.isDragging o = true ->
  let o' := Objects.drag canvas width height moves o in
  let final :=
    last (map (CanvasLayer.getPos canvas) moves) (Objects.lastPos o) in
  let c := Objects.fields (Objects.maskConfig o) in
  let c' := Objects.fields (Objects.maskConfig o') in
  mc_x c' = mc_x c + (px final - px (Objects.lastPos o)) / width
  /\ mc_y c' = mc_y c + (py final - py (Objects.lastPos o)) / height
  /\ Objects.lastPos o' = final
  /\ Objects.past o' = Objects.past o
  /\ Objects.future o' = Objects.future o
  /\ Objects.heap o' = Objects.heap o
  /\ Objects.brushPoints (Objects.maskConfig o')
     = Objects.brushPoints (Objects.maskConfig o)
  /\ c' = mkMaskConfig (mc_type c) (mc_shape c) (mc_x c') (mc_y c')
            (mc_scale c) (mc_rotation c) (mc_text c) (mc_fontSize c)
            (mc_brushPoints c) (mc_brushSize c) (mc_opacity c).
Proof.
  intros Hb Hd o' final c c'.
  destruct (shape_drag_aux canvas width height moves o Hb Hd) as (E & Ex & Ey).
  cbn zeta in E, Ex, Ey. fold o' in E, Ex, Ey. fold final in E, Ex, Ey.
  split; [exact Ex | ]. split; [exact Ey | ].
  subst c'. rewrite E. cbn. repeat split.
Qed.

Lemma shape_drag_witness :
  mc_x (Objects.fields
          (Objects.maskConfig
             (Objects.drag (Some canvasElement) 800 600 [moveTo20; moveTo30]
                           draggingCircle)))
  = 5 / 10
    + (px (CanvasLayer.getPos (Some canvasElement) moveTo30) - 10) / 800.
Proof.
  destruct (shape_drag (Some canvasElement) 800 600 [moveTo20; moveTo30]
              draggingCircle eq_refl eq_refl) as [H _].
  exact H.
Defined.

(** X26.  What the drawing path ignores.  A pointer-down under the Hand
    tool, and a pointer-down of a pointer that is not primary, change
    nothing.  A pointer-move outside a drag changes nothing, so after a
    pointer-up every move is ignored until the next pointer-down; a
    second pointer-up changes nothing.  Under Brush or Pen a move while
    the configuration holds no stroke changes nothing. *)
Theorem drawing_path_ignores (canvas : option CanvasLayer.CanvasElement)
  (width height : R) (e : PointerEvent) (moves : list PointerEvent)
  (o : Objects.State) :
  (mc_type (Objects.fields (Objects.maskConfig o)) = HAND
   \/ isPrimary e = false ->
   Objects.handlePointerDown canvas e o = o)
  /\ (Objects.isDragging o = false ->
      Objects.handlePointerMove canvas width height e o = o)
  /\ Objects.drag canvas width height moves (Objects.handlePointerUp o)
     = Objects.handlePointerUp o
  /\ Objects.handlePointerUp (Objects.handlePointerUp o)
     = Objects.handlePointerUp o
  /\ (Objects.isBrushType (Objects.maskConfig o) = true ->
      Objects.brushPoints (Objects.maskConfig o) = [] ->
      Objects.handlePointerMove canvas width height e o = o).
Proof.
  split; [ | split; [ | split; [ | split]]].
  - intros [H | H]; unfold Objects.handlePointerDown.
    + rewrite H. reflexivity.
    + rewrite H.
      destruct (MaskType_eqb (mc_type (Objects.fields (Objects.maskConfig o)))
                             HAND); reflexivity.
  - intro H. unfold Objects.handlePointerMove. rewrite H. reflexivity.
  - assert (Hd : Objects.isDragging (Objects.handlePointerUp o) = false).
    { unfold Objects.handlePointerUp.
      destruct (Objects.isDragging o) eqn:E; [reflexivity | exact E]. }
    revert Hd. generalize (Objects.handlePointerUp o). intros o1 Hd.
    unfold Objects.drag. induction moves as [ | m moves IH]; simpl.
    + reflexivity.
    + unfold Objects.handlePointerMove at 2. rewrite Hd. simpl. exact IH.
  - unfold Objects.handlePointerUp.
    destruct (Objects.isDragging o) eqn:E; simpl; [reflexivity | ].
    rewrite E. reflexivity.
  - intros Hb Hn. unfold Objects.handlePointerMove.
    destruct (negb (Objects.isDragging o)); [reflexivity | ].
    rewrite Hb. unfold Objects.lastRef. rewrite Hn. reflexivity.
Qed.

Lemma drawing_path_ignores_witness :
  Objects.handlePointerMove (Some canvasElement) 800 600 moveTo20
                            circleObjects
  = circleObjects.
Proof.
  destruct (drawing_path_ignores (Some canvasElement) 800 600 moveTo20 []
              circleObjects) as (_ & H & _).
  apply H. reflexivity.
Defined.

(** ** Pointer positions and the camera *)

(** X27.  [getPos] undoes the camera: when the canvas is shown by the
    camera [t] (its rectangle on screen is the canvas rectangle translated
    by [t] and scaled by the scale of [t]), the position it gives for a
    pointer is the world point under the pointer, in canvas pixels,
    whatever the pan and the zoom.  Without a canvas element it gives
    (0, 0). *)
Theorem getPos_is_world_point (v : Point) (t : Transform) (width height : R)
  (e : PointerEvent) :
  t_scale t <> 0 -> width <> 0 -> height <> 0 ->
  CanvasLayer.getPos
    (Some (CanvasLayer.mkCanvasElement width height
             (cameraRect v t width height))) e
  = worldOfScreen t (minus (mkPoint (clientX e) (clientY e)) v)
  /\ CanvasLayer.getPos None e = mkPoint 0 0.
Proof.
  intros Hs Hw Hh. split; [ | reflexivity].
  unfold CanvasLayer.getPos, cameraRect, worldOfScreen, minus. simpl.
  f_equal; field; split; assumption.
Qed.

Lemma getPos_is_world_point_witness :
  CanvasLayer.getPos
    (Some (CanvasLayer.mkCanvasElement 800 600
             (cameraRect (mkPoint 0 40) (mkTransform 5 7 2) 800 600)))
    primaryDown
  = worldOfScreen (mkTransform 5 7 2)
      (minus (mkPoint (clientX primaryDown) (clientY primaryDown))
             (mkPoint 0 40)).
Proof.
  destruct (getPos_is_world_point (mkPoint 0 40) (mkTransform 5 7 2) 800 600
              primaryDown) as [H _]; simpl; try lra.
  exact H.
Defined.

(** ** The compositor *)

Lemma cover_fit_ok (cw ch iw ih : R) :
  0 < cw -> 0 < ch -> 0 < iw -> 0 < ih ->
  let s := Rmax (cw / iw) (ch / ih) in
  coverFit cw ch iw ih (cw / 2 - iw / 2 * s) (ch / 2 - ih / 2 * s)
           (iw * s) (ih * s).
Proof.
  intros Hcw Hch Hiw Hih s.
  assert (H1 : cw <= iw * s).
  { replace cw with (iw * (cw / iw)) at 1 by (field; lra).
    apply Rmult_le_compat_l; [lra | apply Rmax_l]. }
  assert (H2 : ch <= ih * s).
  { replace ch with (ih * (ch / ih)) at 1 by (field; lra).
    apply Rmult_le_compat_l; [lra | apply Rmax_r]. }
  assert (H3 : iw * s = cw \/ ih * s = ch).
  { subst s. unfold Rmax. destruct (Rle_dec (cw / iw) (ch / ih)).
    - right. field. lra.
    - left. field. lra. }
  unfold coverFit.
  split; [lra | ]. split; [lra | ]. split; [lra | ]. split; [lra | ].
  split; [lra | ]. split; [lra | ]. split; [ring | exact H3].
Qed.

Section Pipeline.

Context {Pixel : Type} {B : Backend Pixel}.

Lemma backdrop_compositing (props : CanvasLayer.Props) (c : Ctx Pixel) :
  sameCompositing
    (ds (match CanvasLayer.imgBackground props with
         | Some bg =>
             drawImage (SrcImage bg)
               (CanvasLayer.width props / 2
                - img_width bg / 2
                  * Rmax (CanvasLayer.width props / img_width bg)
                         (CanvasLayer.height props / img_height bg))
               (CanvasLayer.height props / 2
                - img_height bg / 2
                  * Rmax (CanvasLayer.width props / img_width bg)
                         (CanvasLayer.height props / img_height bg))
               (img_width bg
                * Rmax (CanvasLayer.width props / img_width bg)
                       (CanvasLayer.height props / img_height bg))
               (img_height bg
                * Rmax (CanvasLayer.width props / img_width bg)
                       (CanvasLayer.height props / img_height bg))
               (clearRect 0 0 (CanvasLayer.width props)
                          (CanvasLayer.height props) c)
         | None =>
             CanvasLayer.drawCheckerboard (CanvasLayer.width props)
               (CanvasLayer.height props)
               (clearRect 0 0 (CanvasLayer.width props)
                          (CanvasLayer.height props) c)
         end))
    (ds c).
Proof.
  destruct (CanvasLayer.imgBackground props) as [bg | ].
  - repeat split.
  - eapply sameCompositing_trans; [apply drawCheckerboard_compositing | ].
    repeat split.
Qed.

Lemma render_with_foreground (dom : CanvasLayer.Dom)
  (props : CanvasLayer.Props) (fg : Image) (c : Ctx Pixel) :
  CanvasLayer.imgForeground props = Some fg ->
  CanvasLayer.maskCtx_ok dom = true -> CanvasLayer.layerCtx_ok dom = true ->
  let width := CanvasLayer.width props in
  let height := CanvasLayer.height props in
  let config := CanvasLayer.p_maskConfig props in
  let s := Rmax (width / img_width fg) (height / img_height fg) in
  exists before,
    ops (CanvasLayer.render dom props c)
    = before
      ++ [OpPaint (alphaAfter (globalAlpha (ds c)) (mc_opacity config))
            (globalCompositeOperation (ds c)) (ctm (ds c))
            (PaintImageAt
               (SrcCanvas width height
                  (bitmapOf
                     [OpPaint 1 "source-over" m_identity
                        (PaintImage (SrcImage fg)
                           (width / 2 - img_width fg / 2 * s)
                           (height / 2 - img_height fg / 2 * s)
                           (img_width fg * s) (img_height fg * s));
                      OpPaint 1 "destination-in" m_identity
                        (PaintImageAt
                           (SrcCanvas width height
                              (bitmapOf
                                 (ops (CanvasLayer.drawMask width height
                                         config newCtx))))
                           0 0)]))
               0 0)].
Proof.
  intros Hfg Hm Hl width height config s.
  pose proof (backdrop_compositing props c) as (Ha & Hg & Hc).
  unfold CanvasLayer.render. cbv zeta. rewrite Hfg, Hm, Hl. cbn [negb].
  match goal with
  | |- context [set_globalAlpha _ (save ?X)] => set (X0 := X) in *
  end.
  exists (ops X0).
  unfold set_globalAlpha, alphaAfter.
  fold config. rewrite <- Ha, <- Hg, <- Hc.
  destruct (Rle_dec 0 (mc_opacity config));
    [destruct (Rle_dec (mc_opacity config) 1) | ]; reflexivity.
Qed.

Lemma drawMaskShape_paints (c : Ctx Pixel) (type : MaskType)
  (width height : R) (text : string) (fontSize : R)
  (brushPoints : list (list Point)) (brushSize : R) :
  exists l,
    ops (drawMaskShape c type width height text fontSize brushPoints
                       brushSize) = ops c ++ l
    /\ Forall (fun o => exists p,
                 o = OpPaint (globalAlpha (ds c))
                             (globalCompositeOperation (ds c))
                             (ctm (ds c)) p) l
    /\ saved (drawMaskShape c type width height text fontSize brushPoints
                            brushSize) = saved c.
Proof.
  assert (Hb : forall size,
    exists l,
      ops (fold_left drawStroke brushPoints
             (set_lineWidth size
                (set_lineJoin "round"
                   (set_lineCap "round"
                      (set_strokeStyle "#FFFFFF"
                         (set_fillStyle "#FFFFFF" c)))))) = ops c ++ l
      /\ Forall (fun o => exists p,
                   o = OpPaint (globalAlpha (ds c))
                               (globalCompositeOperation (ds c))
                               (ctm (ds c)) p) l
      /\ saved (fold_left drawStroke brushPoints
                  (set_lineWidth size
                     (set_lineJoin "round"
                        (set_lineCap "round"
                           (set_strokeStyle "#FFFFFF"
                              (set_fillStyle "#FFFFFF" c)))))) = saved c).
  { intro size.
    match goal with
    | |- exists l, ops (fold_left drawStroke _ ?c0) = _ /\ _ =>
        destruct (drawStroke_fold brushPoints c0) as (_ & Hs & Ho);
        assert (Hd : sameCompositing (ds c0) (ds c)
                     /\ saved c0 = saved c /\ ops c0 = ops c)
          by (unfold set_lineWidth; destruct (Rlt_dec 0 size);
              repeat split);
        exists (map (strokeOp (ds c0)) (filter nonEmpty brushPoints))
    end.
    destruct Hd as ((Ha & Hg & Hc) & Hs0 & Ho0).
    split; [ | split].
    - rewrite Ho, Ho0. reflexivity.
    - apply Forall_forall. intros o Hin.
      apply in_map_iff in Hin. destruct Hin as (pts & <- & _).
      unfold strokeOp. rewrite Ha, Hg, Hc.
      eexists. reflexivity.
    - rewrite Hs. exact Hs0. }
  destruct type;
    try (apply Hb);
    try (exists []; split;
         [symmetry; apply app_nil_r | split; [constructor | reflexivity]]);
    (eexists; split; [reflexivity | split; [ | reflexivity]];
     repeat constructor; eexists; reflexivity).
Qed.

End Pipeline.

(** X28.  A background image is drawn to cover the canvas: straight after
    the clear, the render paints it into a rectangle that contains the
    whole canvas, is centred on the centre of the canvas, has the
    proportions of the image and shares one side with the canvas. *)
Theorem render_background_covers {Pixel : Type} {B : Backend Pixel}
  (dom : CanvasLayer.Dom) (props : CanvasLayer.Props) (bg : Image)
  (c : Ctx Pixel) :
  CanvasLayer.imgBackground props = Some bg ->
  0 < CanvasLayer.width props -> 0 < CanvasLayer.height props ->
  0 < img_width bg -> 0 < img_height bg ->
  exists x y w h rest,
    paintedSince c (CanvasLayer.render dom props c)
    = OpClearRect (ctm (ds c)) 0 0 (CanvasLayer.width props)
                  (CanvasLayer.height props)
      :: OpPaint (globalAlpha (ds c)) (globalCompositeOperation (ds c))
                 (ctm (ds c)) (PaintImage (SrcImage bg) x y w h)
      :: rest
    /\ coverFit (CanvasLayer.width props) (CanvasLayer.height props)
                (img_width bg) (img_height bg) x y w h.
Proof.
  intros Hbg Hw Hh Hiw Hih.
  set (s := Rmax (CanvasLayer.width props / img_width bg)
                 (CanvasLayer.height props / img_height bg)).
  set (X := drawImage (SrcImage bg)
              (CanvasLayer.width props / 2 - img_width bg / 2 * s)
              (CanvasLayer.height props / 2 - img_height bg / 2 * s)
              (img_width bg * s) (img_height bg * s)
              (clearRect 0 0 (CanvasLayer.width props)
                         (CanvasLayer.height props) c)).
  assert (H : paintsOnto X (CanvasLayer.render dom props c)).
  { unfold CanvasLayer.render. cbv zeta. rewrite Hbg. fold s. fold X.
    destruct (CanvasLayer.imgForeground props) as [fg | ];
      [ | apply paintsOnto_refl].
    destruct (negb (CanvasLayer.maskCtx_ok dom)); [apply paintsOnto_refl | ].
    destruct (negb (CanvasLayer.layerCtx_ok dom)); [apply paintsOnto_refl | ].
    apply composite_layer_paintsOnto. }
  destruct H as [rest Hrest].
  exists (CanvasLayer.width props / 2 - img_width bg / 2 * s),
         (CanvasLayer.height props / 2 - img_height bg / 2 * s),
         (img_width bg * s), (img_height bg * s), rest.
  split.
  - apply paintedSince_app. rewrite Hrest. subst X.
    unfold drawImage, paint, clearRect, addOp. cbn [ops ds].
    rewrite <- !app_assoc. reflexivity.
  - apply cover_fit_ok; assumption.
Qed.

Lemma render_background_covers_witness :
  exists x y w h rest,
    paintedSince newCtx (CanvasLayer.render domOk backdropProps newCtx)
    = OpClearRect (ctm (ds (@newCtx bool))) 0 0 800 600
      :: OpPaint (globalAlpha (ds (@newCtx bool)))
                 (globalCompositeOperation (ds (@newCtx bool)))
                 (ctm (ds (@newCtx bool)))
                 (PaintImage (SrcImage largeImage) x y w h)
      :: rest
    /\ coverFit 800 600 200 100 x y w h.
Proof.
  apply (render_background_covers domOk backdropProps largeImage newCtx);
    [reflexivity | simpl; lra | simpl; lra | simpl; lra | simpl; lra].
Defined.

(** X29.  How the foreground reaches the screen.  On a canvas that only
    the rendering effect has painted, a render with a foreground image
    ends by painting one layer over the background, at the origin, with
    the configured opacity (fully opaque when the opacity is not between
    0 and 1).  Every pixel of that layer is the foreground image, drawn
    to cover the canvas, kept where the mask canvas has paint:
    [destination-in] of the mask over the image. *)
Theorem render_masks_foreground {Pixel : Type} {B : Backend Pixel}
  (hist : list (CanvasLayer.Dom * CanvasLayer.Props))
  (dom : CanvasLayer.Dom) (props : CanvasLayer.Props) (fg : Image) :
  CanvasLayer.imgForeground props = Some fg ->
  CanvasLayer.maskCtx_ok dom = true -> CanvasLayer.layerCtx_ok dom = true ->
  0 < CanvasLayer.width props -> 0 < CanvasLayer.height props ->
  0 < img_width fg -> 0 < img_height fg ->
  let width := CanvasLayer.width props in
  let height := CanvasLayer.height props in
  let config := CanvasLayer.p_maskConfig props in
  let mask : Bitmap Pixel :=
    bitmapOf (ops (CanvasLayer.drawMask width height config newCtx)) in
  exists before layer x y w h,
    ops (CanvasLayer.render dom props (CanvasLayer.renderAll hist))
    = before
      ++ [OpPaint (alphaAfter 1 (mc_opacity config)) "source-over" m_identity
                  (PaintImageAt (SrcCanvas width height layer) 0 0)]
    /\ (forall i j,
          layer i j
          = composite 1 "destination-in"
              (shade m_identity
                 (PaintImageAt (SrcCanvas width height mask) 0 0) i j)
              (composite 1 "source-over"
                 (shade m_identity (PaintImage (SrcImage fg) x y w h) i j)
                 transparent))
    /\ coverFit width height (img_width fg) (img_height fg) x y w h.
Proof.
  intros Hfg Hm Hl Hw Hh Hiw Hih width height config mask.
  destruct (render_with_foreground dom props fg (CanvasLayer.renderAll hist)
              Hfg Hm Hl) as [before Hops].
  cbv zeta in Hops.
  destruct (renderAll_compositing (Pixel := Pixel) hist) as (Ha & Hg & Hc).
  rewrite Ha, Hg, Hc in Hops.
  eexists before, _, _, _, _, _.
  split; [exact Hops | ].
  split; [intros i j; reflexivity | ].
  apply cover_fit_ok; assumption.
Qed.

Lemma render_masks_foreground_witness :
  exists before layer x y w h,
    ops (CanvasLayer.render domOk maskedProps
           (CanvasLayer.renderAll [(domOk, checkerProps)]))
    = before
      ++ [OpPaint (alphaAfter 1 (mc_opacity strokedConfig)) "source-over"
                  m_identity
                  (PaintImageAt (SrcCanvas 800 600 layer) 0 0)]
    /\ (forall i j,
          layer i j
          = composite 1 "destination-in"
              (shade m_identity
                 (PaintImageAt
                    (SrcCanvas 800 600
                       (bitmapOf
                          (ops (CanvasLayer.drawMask 800 600 strokedConfig
                                  (@newCtx bool))))) 0 0) i j)
              (composite 1 "source-over"
                 (shade m_identity (PaintImage (SrcImage photo) x y w h) i j)
                 transparent))
    /\ coverFit 800 600 800 600 x y w h.
Proof.
  apply (render_masks_foreground [(domOk, checkerProps)] domOk maskedProps
           photo);
    [reflexivity | reflexivity | reflexivity
     | simpl; lra | simpl; lra | simpl; lra | simpl; lra].
Defined.

(** X30.  How the mask canvas is laid out.  The shape is painted, fully
    opaque, under one matrix: it sends the centre of the canvas to the
    configured position (as a fraction of the canvas size) and turns and
    scales about that point by the configured rotation (in degrees) and
    scale.  The strokes are painted after the shape, whatever tool is
    selected, under the identity matrix: position, rotation and scale
    never move them, and they do not change what the shape paints.
    Their width is 4 under the Pen tool and the brush size otherwise. *)
Theorem drawMask_layout {Pixel : Type} (width height : R) (c : MaskConfig) :
  let theta := (mc_rotation c * PI) / 180 in
  let s := mc_scale c in
  let size := if MaskType_eqb (mc_type c) PEN then 4 else mc_brushSize c in
  let d := whiteRound defaultDrawState in
  let dS := if Rlt_dec 0 size then ds_lineWidth size d else d in
  let shapeOnly : Ctx Pixel :=
    CanvasLayer.drawMask width height (CanvasLayer.withBrushPoints c [])
                         newCtx in
  exists M : Matrix,
    ops (CanvasLayer.drawMask width height c (@newCtx Pixel))
    = ops shapeOnly ++ map (strokeOp dS) (filter nonEmpty (mc_brushPoints c))
    /\ Forall (fun o => exists p, o = OpPaint 1 "source-over" M p)
              (ops shapeOnly)
    /\ m_apply M (mkPoint (width / 2) (height / 2))
       = mkPoint (mc_x c * width) (mc_y c * height)
    /\ m_a M = s * cos theta /\ m_b M = s * sin theta
    /\ m_c M = - (s * sin theta) /\ m_d M = s * cos theta
    /\ ctm dS = m_identity.
Proof.
  intros theta s size d dS shapeOnly.
  set (T := translate (- width / 2) (- height / 2)
              (scale s s
                 (rotate theta
                    (translate (mc_x c * width) (mc_y c * height)
                               (save (@newCtx Pixel)))))).
  exists (ctm (ds T)).
  destruct (drawMaskShape_paints T (mc_shape c) width height (mc_text c)
              (mc_fontSize c) [] 0) as (l & Hops & Hall & Hsaved).
  set (S0 := drawMaskShape T (mc_shape c) width height (mc_text c)
               (mc_fontSize c) [] 0) in *.
  assert (HR : restore S0 = mkCtx defaultDrawState [] (path S0) l).
  { unfold restore. rewrite Hsaved, Hops. reflexivity. }
  assert (Hshape : shapeOnly = restore S0) by reflexivity.
  assert (Hfull : CanvasLayer.drawMask width height c (@newCtx Pixel)
                  = if Nat.ltb 0 (List.length (mc_brushPoints c))
                    then drawMaskShape (restore S0)
                           (if MaskType_eqb (mc_type c) PEN then PEN
                            else BRUSH)
                           width height "" 0 (mc_brushPoints c)
                           (mc_brushSize c)
                    else restore S0) by reflexivity.
  split; [ | split; [ | split; [ | repeat split]]].
  - rewrite Hfull, Hshape.
    destruct (mc_brushPoints c) as [ | st strokes] eqn:Hbp.
    + cbn [List.length Nat.ltb Nat.leb filter map]. symmetry. apply app_nil_r.
    + cbn [List.length Nat.ltb Nat.leb].
      assert (Hd : drawMaskShape (restore S0)
                     (if MaskType_eqb (mc_type c) PEN then PEN else BRUSH)
                     width height "" 0 (st :: strokes) (mc_brushSize c)
                   = fold_left drawStroke (st :: strokes)
                       (set_lineWidth size
                          (set_lineJoin "round"
                             (set_lineCap "round"
                                (set_strokeStyle "#FFFFFF"
                                   (set_fillStyle "#FFFFFF" (restore S0))))))).
      { subst size. destruct (MaskType_eqb (mc_type c) PEN); reflexivity. }
      rewrite Hd.
      match goal with
      | |- ops (fold_left drawStroke _ ?c0) = _ =>
          destruct (drawStroke_fold (st :: strokes) c0) as (_ & _ & Ho)
      end.
      rewrite Ho. rewrite HR. subst dS d. unfold set_lineWidth.
      destruct (Rlt_dec 0 size); reflexivity.
  - rewrite Hshape, HR. cbn [ops]. exact Hall.
  - unfold m_apply. subst T. cbn. f_equal; field.
  - subst T. cbn. ring.
  - subst T. cbn. ring.
  - subst T. cbn. ring.
  - subst T. cbn. ring.
  - subst dS d. destruct (Rlt_dec 0 size); reflexivity.
Qed.

(** ** Upscaling: what is the same on screen afterwards *)

(** The strokes that [drawMask] paints after the shape. *)
Lemma drawMask_stroke_ops {Pixel : Type} (width height : R)
  (c : MaskConfig) :
  let size := if MaskType_eqb (mc_type c) PEN then 4 else mc_brushSize c in
  let d := whiteRound defaultDrawState in
  let dS := if Rlt_dec 0 size then ds_lineWidth size d else d in
  paintedSince
    (CanvasLayer.drawMask width height (CanvasLayer.withBrushPoints c [])
                          (@newCtx Pixel))
    (CanvasLayer.drawMask width height c newCtx)
  = map (strokeOp dS) (filter nonEmpty (mc_brushPoints c)).
Proof.
  intros size d dS. apply paintedSince_app.
  set (T := translate (- width / 2) (- height / 2)
              (scale (mc_scale c) (mc_scale c)
                 (rotate ((mc_rotation c * PI) / 180)
                    (translate (mc_x c * width) (mc_y c * height)
                               (save (@newCtx Pixel)))))).
  destruct (drawMaskShape_paints T (mc_shape c) width height (mc_text c)
              (mc_fontSize c) [] 0) as (l & Hops & _ & Hsaved).
  set (S0 := drawMaskShape T (mc_shape c) width height (mc_text c)
               (mc_fontSize c) [] 0) in *.
  assert (HR : restore S0 = mkCtx defaultDrawState [] (path S0) l).
  { unfold restore. rewrite Hsaved, Hops. reflexivity. }
  change (CanvasLayer.drawMask width height (CanvasLayer.withBrushPoints c [])
                               (@newCtx Pixel)) with (restore S0).
  change (CanvasLayer.drawMask width height c (@newCtx Pixel))
    with (if Nat.ltb 0 (List.length (mc_brushPoints c))
          then drawMaskShape (restore S0)
                 (if MaskType_eqb (mc_type c) PEN then PEN else BRUSH)
                 width height "" 0 (mc_brushPoints c) (mc_brushSize c)
          else restore S0).
  destruct (mc_brushPoints c) as [ | st strokes] eqn:Hbp.
  - cbn [List.length Nat.ltb Nat.leb filter map]. symmetry. apply app_nil_r.
  - cbn [List.length Nat.ltb Nat.leb].
    assert (Hd : drawMaskShape (restore S0)
                   (if MaskType_eqb (mc_type c) PEN then PEN else BRUSH)
                   width height "" 0 (st :: strokes) (mc_brushSize c)
                 = fold_left drawStroke (st :: strokes)
                     (set_lineWidth size
                        (set_lineJoin "round"
                           (set_lineCap "round"
                              (set_strokeStyle "#FFFFFF"
                                 (set_fillStyle "#FFFFFF" (restore S0))))))).
    { subst size. destruct (MaskType_eqb (mc_type c) PEN); reflexivity. }
    rewrite Hd.
    match goal with
    | |- ops (fold_left drawStroke _ ?c0) = _ =>
        destruct (drawStroke_fold (st :: strokes) c0) as (_ & _ & Ho)
    end.
    rewrite Ho. rewrite HR. subst dS d. unfold set_lineWidth.
    destruct (Rlt_dec 0 size); reflexivity.
Qed.

(** X18.  What a finished upscale of the foreground keeps on screen.
    The camera scale is divided by the size ratio, so every stroke point
    is where it was and the configured brush size and font size are as
    wide as they were.  The strokes the render paints keep their width on
    screen under every tool but Pen; under Pen they are painted 4 canvas
    pixels wide before and after, so on screen they get thinner by the
    ratio.  The canvas gets as wide on screen as the old foreground was:
    that is the width it had when it had the size of the old foreground,
    which it need not have after a layer swap; its height is kept as well
    when the upscaled image has the proportions of the old one. *)
Theorem upscale_on_screen {Pixel : Type} (img newImg : Image)
  (s : AppState) :
  0 < img_width img -> 0 < img_width newImg ->
  let s' := upscale_onload Layer1 img newImg s in
  let t := transform s in
  let t' := transform s' in
  let ratio := img_width newImg / img_width img in
  let c := maskConfig s in
  let c' := maskConfig s' in
  let strokesPainted (cfg : MaskConfig) (sz : Size) : list (Op Pixel) :=
    paintedSince
      (CanvasLayer.drawMask (sz_width sz) (sz_height sz)
                            (CanvasLayer.withBrushPoints cfg []) newCtx)
      (CanvasLayer.drawMask (sz_width sz) (sz_height sz) cfg newCtx) in
  t_scale t' * ratio = t_scale t
  /\ Forall2 (Forall2 (fun p p' => screenOfWorld t' p' = screenOfWorld t p))
             (mc_brushPoints c) (mc_brushPoints c')
  /\ mc_brushSize c' * t_scale t' = mc_brushSize c * t_scale t
  /\ mc_fontSize c' * t_scale t' = mc_fontSize c * t_scale t
  /\ (mc_type c <> PEN -> 0 < mc_brushSize c ->
      Forall (fun o => exists w,
                strokeWidthOf o = Some w
                /\ w * t_scale t' = mc_brushSize c * t_scale t)
             (strokesPainted c' (canvasSize s')))
  /\ (mc_type c = PEN ->
      Forall (fun o => strokeWidthOf o = Some 4)
             (strokesPainted c (canvasSize s))
      /\ Forall (fun o => strokeWidthOf o = Some 4)
                (strokesPainted c' (canvasSize s'))
      /\ 4 * t_scale t' * ratio = 4 * t_scale t)
  /\ sz_width (canvasSize s') * t_scale t' = img_width img * t_scale t
  /\ (canvasSize s = mkSize (img_width img) (img_height img) ->
      sz_width (canvasSize s') * t_scale t'
      = sz_width (canvasSize s) * t_scale t
      /\ (img_height newImg * img_width img
          = img_height img * img_width newImg ->
          sz_height (canvasSize s') * t_scale t'
          = sz_height (canvasSize s) * t_scale t)).
Proof.
  intros Hi Hn s' t t' ratio c c' strokesPainted.
  assert (Hr : 0 < ratio) by (apply Rdiv_lt_0_compat; assumption).
  assert (Ht : t_scale t' = t_scale t / ratio) by reflexivity.
  assert (Hc' : c' = rescaleMaskConfig ratio c) by reflexivity.
  assert (Hcs : canvasSize s' = mkSize (img_width newImg) (img_height newImg))
    by reflexivity.
  assert (Hpen4 : forall cfg sz,
            mc_type cfg = PEN ->
            Forall (fun o : Op Pixel => strokeWidthOf o = Some 4)
                   (strokesPainted cfg sz)).
  { intros cfg sz Hp. subst strokesPainted. cbv beta.
    rewrite drawMask_stroke_ops. rewrite Hp. cbn [MaskType_eqb].
    destruct (Rlt_dec 0 4) as [_ | Hf]; [ | exfalso; apply Hf; lra].
    apply Forall_forall. intros o Hin. apply in_map_iff in Hin.
    destruct Hin as (pts & <- & _). reflexivity. }
  subst t.
  split; [rewrite Ht; field; lra | ].
  split.
  { rewrite Hc'. apply Forall2_map_r. intro st. apply Forall2_map_r.
    intro p. unfold screenOfWorld. rewrite Ht. simpl.
    f_equal; field; lra. }
  split; [rewrite Hc', Ht; simpl; field; lra | ].
  split; [rewrite Hc', Ht; simpl; field; lra | ].
  split.
  { intros Hnp Hb. subst strokesPainted. cbv beta.
    rewrite drawMask_stroke_ops.
    assert (Hty : MaskType_eqb (mc_type c') PEN = false).
    { rewrite Hc'. simpl. destruct (mc_type c); try reflexivity.
      contradiction Hnp. reflexivity. }
    rewrite Hty.
    assert (Hb' : 0 < mc_brushSize c').
    { rewrite Hc'. simpl. apply Rmult_lt_0_compat; assumption. }
    destruct (Rlt_dec 0 (mc_brushSize c')) as [_ | Hf]; [ | contradiction].
    apply Forall_forall. intros o Hin. apply in_map_iff in Hin.
    destruct Hin as (pts & <- & _).
    exists (mc_brushSize c'). split; [reflexivity | ].
    rewrite Hc', Ht. simpl. field. lra. }
  split.
  { intro Hp. split; [apply Hpen4; exact Hp | ].
    split; [apply Hpen4; rewrite Hc'; exact Hp | rewrite Ht; field; lra]. }
  split.
  { rewrite Hcs, Ht. simpl. subst ratio. field. split; lra. }
  intro Hsz. split.
  - rewrite Hcs, Ht, Hsz. simpl. subst ratio. field. split; lra.
  - intro Hp. rewrite Hcs, Ht, Hsz. simpl. subst ratio.
    replace (img_height newImg
             * (t_scale (transform s) / (img_width newImg / img_width img)))
      with (img_height newImg * img_width img
            * (t_scale (transform s) / img_width newImg))
      by (field; split; lra).
    rewrite Hp. field. lra.
Qed.

Lemma upscale_on_screen_witness :
  Forall (fun o : Op bool => strokeWidthOf o = Some 4)
         (paintedSince
            (CanvasLayer.drawMask 200 100
               (CanvasLayer.withBrushPoints
                  (maskConfig (upscale_onload Layer1 smallImage largeImage
                                              penState)) [])
               newCtx)
            (CanvasLayer.drawMask 200 100
               (maskConfig (upscale_onload Layer1 smallImage largeImage
                                           penState))
               newCtx))
  /\ 4 * t_scale (transform (upscale_onload Layer1 smallImage largeImage
                                            penState))
       * (200 / 100)
     = 4 * t_scale (transform penState).
Proof.
  destruct (upscale_on_screen (Pixel := bool) smallImage largeImage penState
              ltac:(simpl; lra) ltac:(simpl; lra))
    as (_ & _ & _ & _ & _ & H & _).
  destruct (H eq_refl) as (_ & H4 & Hs). split; [exact H4 | exact Hs].
Defined.
